(** * OnTwoWheelz: the data-access layer over its hosted backend

    A shallow embedding of the request functions of [src/lib/auth.ts]
    ([authService]), [src/lib/storage.ts] ([StorageService]) and of the
    join/leave handler of [src/pages/TripDetails.tsx].

    Every function of the client is an [async] function that talks to the
    hosted backend through the Supabase client.  A call of the Supabase client
    never throws: it answers with a [{ data, error }] pair.  The client
    functions themselves do throw.  Both effects are explicit here: a client
    function is a state transformer over a [World] (the backend's tables, the
    session, and the trace of requests issued so far) that yields either a
    thrown value or a result. *)

From Stdlib Require Import Ascii.
From stdpp Require Import base strings list gmap sorting pretty.

Local Open Scope Z_scope.

(** ** Errors *)

(** The [error] half of a Supabase answer ([error.code], [error.message]). *)
Record PostgrestError := { code : string; message : string }.

(** What a client function can throw: [new Error(msg)] or a backend error
    object rethrown as it is ([throw error]). *)
Inductive Thrown :=
| JsError (msg : string)
| PgError (e : PostgrestError).

(** [error.message] of a caught value. *)
Definition thrown_message (t : Thrown) : string :=
  match t with
  | JsError msg => msg
  | PgError e => message e
  end.

(** [.single()] answers with this error when the filter matches no row or
    more than one row. *)
Definition PGRST116 : PostgrestError :=
  {| code := "PGRST116";
     message := "JSON object requested, multiple (or no) rows returned" |}.

(** ** Rows *)

(** A row of [group_trips], with the columns [joinTrip] and the pages read.
    The two counts are numbers; a count the backend left null compares like
    0 in [joinTrip]. *)
Record GroupTrip := {
  trip_id : string;
  organizer_id : string;
  trip_title : string;
  max_participants : Z;
  current_participants : Z;
  trip_status : string
}.

Record TripParticipant := {
  tp_trip_id : string;
  tp_user_id : string;
  tp_status : string
}.

(** The object handed to [.from('trip_participants').insert(...)]; the
    [status] key is absent in [createTrip]. *)
Record ParticipantInsert := {
  pi_trip_id : string;
  pi_user_id : string;
  pi_status : option string
}.

Record UserFollower := { follower_id : string; following_id : string }.

(** The two counters of [user_stats] written by the follow functions. *)
Record UserStats := { followers_count : Z; following_count : Z }.

Record PostLike := { like_user_id : string; like_post_id : string }.

Record UserPost := {
  post_id : string;
  post_user_id : string;
  caption : string;
  is_public : bool;
  created_at : Z
}.

Record UserProfile := {
  profile_user_id : string;
  username : string;
  display_name : string;
  avatar_url : option string
}.

Record MediaFile := {
  mf_user_id : string;
  mf_filename : string;
  mf_original_name : string;
  mf_file_size : Z;
  mf_mime_type : string;
  mf_storage_path : string;
  mf_public_url : string;
  mf_entity_type : string;
  mf_is_public : bool
}.

Record ChatMessage := { cm_trip_id : string; cm_sender_id : string; cm_message : string }.

(** The payload of [createTrip]'s insert into [group_trips], restricted to
    the columns the client computes itself. *)
Record TripInsert := {
  ti_organizer_id : string;
  ti_title : string;
  ti_max_participants : option Z;
  ti_is_public : bool
}.

(** ** The backend's tables and the world *)

Record Tables := {
  group_trips : list GroupTrip;
  trip_participants : list TripParticipant;
  user_followers : list UserFollower;
  user_stats : gmap string UserStats;
  post_likes : list PostLike;
  user_posts : list UserPost;
  user_profiles : list UserProfile;
  media_files : list MediaFile;
  storage_objects : list (string * string);
  trip_chat_messages : list ChatMessage
}.

(** One request sent over the network. *)
Inductive Request :=
| AuthGetUser
| Select (table : string)
| Count (table : string)
| InsertParticipant (p : ParticipantInsert)
| Insert (table : string)
| Upsert (table : string)
| Delete (table : string)
| StorageUpload (bucket path : string).

Record World := {
  tables : Tables;
  session : option string;
  trace : list Request
}.

(** What the client cannot know about the backend: which requests it
    refuses (a check constraint, a foreign key, a policy, the network), the
    default of the [status] column of [trip_participants], the row it makes
    of a trip insert, and the clock and random source used to name uploads. *)
Class Backend := {
  fault : Tables → Request → option PostgrestError;
  default_status : string;
  new_trip : Tables → TripInsert → GroupTrip;
  supabaseUrl : string;
  date_now : list Request → Z;
  random_string : list Request → string
}.

(** A backend that refuses nothing. *)
Class Reliable (B : Backend) :=
  no_fault : ∀ tb r, fault tb r = None.

(** A backend that answers the session lookup and every read. *)
Definition is_read (r : Request) : bool :=
  match r with
  | AuthGetUser | Select _ | Count _ => true
  | _ => false
  end.

Class ReliableReads (B : Backend) :=
  read_admitted : ∀ tb r, is_read r = true → fault tb r = None.

(** ** Table updates *)

Definition set_group_trips (f : list GroupTrip → list GroupTrip) (tb : Tables) : Tables :=
  {| group_trips := f (group_trips tb);
     trip_participants := trip_participants tb;
     user_followers := user_followers tb;
     user_stats := user_stats tb;
     post_likes := post_likes tb;
     user_posts := user_posts tb;
     user_profiles := user_profiles tb;
     media_files := media_files tb;
     storage_objects := storage_objects tb;
     trip_chat_messages := trip_chat_messages tb |}.

Definition set_trip_participants (f : list TripParticipant → list TripParticipant)
    (tb : Tables) : Tables :=
  {| group_trips := group_trips tb;
     trip_participants := f (trip_participants tb);
     user_followers := user_followers tb;
     user_stats := user_stats tb;
     post_likes := post_likes tb;
     user_posts := user_posts tb;
     user_profiles := user_profiles tb;
     media_files := media_files tb;
     storage_objects := storage_objects tb;
     trip_chat_messages := trip_chat_messages tb |}.

Definition set_user_followers (f : list UserFollower → list UserFollower)
    (tb : Tables) : Tables :=
  {| group_trips := group_trips tb;
     trip_participants := trip_participants tb;
     user_followers := f (user_followers tb);
     user_stats := user_stats tb;
     post_likes := post_likes tb;
     user_posts := user_posts tb;
     user_profiles := user_profiles tb;
     media_files := media_files tb;
     storage_objects := storage_objects tb;
     trip_chat_messages := trip_chat_messages tb |}.

Definition set_user_stats (f : gmap string UserStats → gmap string UserStats)
    (tb : Tables) : Tables :=
  {| group_trips := group_trips tb;
     trip_participants := trip_participants tb;
     user_followers := user_followers tb;
     user_stats := f (user_stats tb);
     post_likes := post_likes tb;
     user_posts := user_posts tb;
     user_profiles := user_profiles tb;
     media_files := media_files tb;
     storage_objects := storage_objects tb;
     trip_chat_messages := trip_chat_messages tb |}.

Definition set_post_likes (f : list PostLike → list PostLike) (tb : Tables) : Tables :=
  {| group_trips := group_trips tb;
     trip_participants := trip_participants tb;
     user_followers := user_followers tb;
     user_stats := user_stats tb;
     post_likes := f (post_likes tb);
     user_posts := user_posts tb;
     user_profiles := user_profiles tb;
     media_files := media_files tb;
     storage_objects := storage_objects tb;
     trip_chat_messages := trip_chat_messages tb |}.

Definition set_media_files (f : list MediaFile → list MediaFile) (tb : Tables) : Tables :=
  {| group_trips := group_trips tb;
     trip_participants := trip_participants tb;
     user_followers := user_followers tb;
     user_stats := user_stats tb;
     post_likes := post_likes tb;
     user_posts := user_posts tb;
     user_profiles := user_profiles tb;
     media_files := f (media_files tb);
     storage_objects := storage_objects tb;
     trip_chat_messages := trip_chat_messages tb |}.

Definition set_storage_objects (f : list (string * string) → list (string * string))
    (tb : Tables) : Tables :=
  {| group_trips := group_trips tb;
     trip_participants := trip_participants tb;
     user_followers := user_followers tb;
     user_stats := user_stats tb;
     post_likes := post_likes tb;
     user_posts := user_posts tb;
     user_profiles := user_profiles tb;
     media_files := media_files tb;
     storage_objects := f (storage_objects tb);
     trip_chat_messages := trip_chat_messages tb |}.

Definition set_trip_chat_messages (f : list ChatMessage → list ChatMessage)
    (tb : Tables) : Tables :=
  {| group_trips := group_trips tb;
     trip_participants := trip_participants tb;
     user_followers := user_followers tb;
     user_stats := user_stats tb;
     post_likes := post_likes tb;
     user_posts := user_posts tb;
     user_profiles := user_profiles tb;
     media_files := media_files tb;
     storage_objects := storage_objects tb;
     trip_chat_messages := f (trip_chat_messages tb) |}.

Definition with_tables (f : Tables → Tables) (w : World) : World :=
  {| tables := f (tables w); session := session w; trace := trace w |}.

Definition log (r : Request) (w : World) : World :=
  {| tables := tables w; session := session w; trace := trace w ++ [r] |}.

(** ** The monad of client functions *)

Definition Client (A : Type) : Type := World → (Thrown + A) * World.

Definition throw {A} (t : Thrown) : Client A := λ w, (inl t, w).

Global Instance client_ret : MRet Client := λ A x w, (inr x, w).

Global Instance client_bind : MBind Client := λ A B f m w,
  match m w with
  | (inl t, w') => (inl t, w')
  | (inr x, w') => f x w'
  end.

(** ** Requests *)

(** Send [r]: it is recorded in the trace, and the backend either refuses it
    or lets [run] act on the tables. *)
Definition request {B : Backend} {A} (r : Request)
    (run : Tables → (PostgrestError + A) * Tables) : Client (PostgrestError + A) :=
  λ w,
    match fault (tables w) r with
    | Some e => (inr (inl e), log r w)
    | None =>
        let '(res, tb) := run (tables w) in
        (inr res, log r (with_tables (λ _, tb) w))
    end.

(** [.single()] on the rows a filter matched. *)
Definition single {A} (rows : list A) : PostgrestError + A :=
  match rows with
  | [row] => inr row
  | _ => inl PGRST116
  end.

(** [supabase.from(table).select(...).<filters>.single()] *)
Definition select_single {B : Backend} {A} (table : string) (rows : Tables → list A)
    : Client (PostgrestError + A) :=
  request (Select table) (λ tb, (single (rows tb), tb)).

(** [supabase.from(table).select(...).<filters>] *)
Definition select_rows {B : Backend} {A} (table : string) (rows : Tables → list A)
    : Client (PostgrestError + list A) :=
  request (Select table) (λ tb, (inr (rows tb), tb)).

(** [select('*', { count: 'exact', head: true })]: the number of rows. *)
Definition select_count {B : Backend} {A} (table : string) (rows : Tables → list A)
    : Client (PostgrestError + Z) :=
  request (Count table) (λ tb, (inr (Z.of_nat (length (rows tb))), tb)).

(** [(await supabase.auth.getUser()).data.user] *)
Definition getUser {B : Backend} : Client (option string) :=
  λ w,
    match fault (tables w) AuthGetUser with
    | Some _ => (inr None, log AuthGetUser w)
    | None => (inr (session w), log AuthGetUser w)
    end.

(** The row the backend stores for an insert into [trip_participants]: an
    absent [status] takes the column default. *)
Definition participant_row {B : Backend} (p : ParticipantInsert) : TripParticipant :=
  {| tp_trip_id := pi_trip_id p;
     tp_user_id := pi_user_id p;
     tp_status := default default_status (pi_status p) |}.

(** [supabase.from('trip_participants').insert(p).select().single()] *)
Definition insert_participant {B : Backend} (p : ParticipantInsert)
    : Client (PostgrestError + TripParticipant) :=
  request (InsertParticipant p)
    (λ tb, (inr (participant_row p),
            set_trip_participants (λ l, l ++ [participant_row p]) tb)).

(** ** Filters *)

Definition trips_by_id (tripId : string) (tb : Tables) : list GroupTrip :=
  filter (λ t, trip_id t = tripId) (group_trips tb).

Definition is_participation (tripId userId : string) (p : TripParticipant) : Prop :=
  tp_trip_id p = tripId ∧ tp_user_id p = userId.

Global Instance is_participation_dec tripId userId p :
  Decision (is_participation tripId userId p).
Proof. unfold is_participation. apply _. Defined.

Definition participations (tripId userId : string) (tb : Tables) : list TripParticipant :=
  filter (is_participation tripId userId) (trip_participants tb).

(** ** Joining a trip ([authService.joinTrip]) *)

(** The candidate labels of the write side, in the order they are tried. *)
Definition statusValues : list string := ["joined"; "confirmed"; "accepted"; "active"].

Definition NotAuthenticated : Thrown := JsError "User not authenticated".
Definition NotFound (tripId : string) : Thrown := JsError ("Trip not found: " +:+ tripId).
Definition NotOpen : Thrown := JsError "Trip is not open for new participants".
Definition Full : Thrown := JsError "Trip is full".
Definition AlreadyJoined : Thrown := JsError "You are already a participant in this trip".
Definition StatusConstraint : Thrown :=
  JsError "Unable to join trip due to status validation. The trip may have specific requirements. Please contact the organizer.".
Definition TripMissing (tripId : string) : Thrown :=
  JsError ("Trip with ID " +:+ tripId +:+
           " does not exist in the database. Please refresh the page.").

(** The checks made before the first insert is attempted; the caller's id
    when they all pass. *)
Definition join_preconditions {B : Backend} (tripId : string) : Client string :=
  user ← getUser;
  match user with
  | None => throw NotAuthenticated
  | Some user =>
      tripRes ← select_single "group_trips" (trips_by_id tripId);
      match tripRes with
      | inl tripError => throw (NotFound tripId)
      | inr trip =>
          if negb (String.eqb (trip_status trip) "open") then throw NotOpen
          else if max_participants trip <=? current_participants trip then throw Full
          else
            checkRes ← select_single "trip_participants" (participations tripId user);
            match checkRes with
            | inr existingParticipation => throw AlreadyJoined
            | inl checkError =>
                (* any error of the check is only logged *)
                verifyRes ← select_single "group_trips" (trips_by_id tripId);
                match verifyRes with
                | inl verifyError =>
                    throw (JsError ("Trip verification failed: " +:+ message verifyError))
                | inr verifyTrip => mret user
                end
            end
      end
  end.

(** The [for (const statusValue of statusValues)] loop: [insertData] and
    [insertError] when it is left. *)
Fixpoint try_statuses {B : Backend} (tripId user : string) (labels : list string)
    (insertError : option PostgrestError)
    : Client (option TripParticipant * option PostgrestError) :=
  match labels with
  | [] => mret (None, insertError)
  | statusValue :: rest =>
      res ← insert_participant
              {| pi_trip_id := tripId; pi_user_id := user; pi_status := Some statusValue |};
      match res with
      | inr data => mret (Some data, insertError)
      | inl error =>
          if negb (String.eqb (code error) "23514") then mret (None, Some error)
          else try_statuses tripId user rest (Some error)
      end
  end.

(** [message.includes(sub)] *)
Definition includes (s sub : string) : bool :=
  match String.index 0 sub s with
  | Some _ => true
  | None => false
  end.

(** What is thrown when the loop ended without [insertData]. *)
Definition surface (tripId : string) (insertError : PostgrestError) : Thrown :=
  if String.eqb (code insertError) "23503"
     && includes (message insertError) "trip_participants_trip_id_fkey"
  then TripMissing tripId
  else if String.eqb (code insertError) "23514" then StatusConstraint
  else PgError insertError.

Definition joinTrip {B : Backend} (tripId : string) : Client TripParticipant :=
  user ← join_preconditions tripId;
  '(insertData, insertError) ← try_statuses tripId user statusValues None;
  match insertData with
  | Some data => mret data
  | None =>
      match insertError with
      | Some e => throw (surface tripId e)
      | None => throw (JsError "Cannot read properties of null (reading 'code')")
      end
  end.

(** ** Leaving a trip ([authService.leaveTrip]) *)

(** [supabase.from(table).delete().<filters>] *)
Definition delete_rows {B : Backend} (table : string) (upd : Tables → Tables)
    : Client (PostgrestError + unit) :=
  request (Delete table) (λ tb, (inr (), upd tb)).

Definition leaveTrip {B : Backend} (tripId : string) : Client bool :=
  user ← getUser;
  match user with
  | None => throw NotAuthenticated
  | Some user =>
      res ← delete_rows "trip_participants"
              (set_trip_participants (filter (λ p, ¬ is_participation tripId user p)));
      match res with
      | inl error => throw (PgError error)
      | inr _ => mret true
      end
  end.

(** ** Creating a trip ([authService.createTrip]) *)

(** The fields of the form object that reach the columns modelled here. *)
Record TripData := { td_title : string; td_maxParticipants : string }.

Definition is_whitespace (c : ascii) : bool :=
  let n := Z.of_nat (nat_of_ascii c) in
  ((9 <=? n) && (n <=? 13)) || (n =? 32).

Fixpoint skip_whitespace (s : string) : string :=
  match s with
  | String c rest => if is_whitespace c then skip_whitespace rest else s
  | EmptyString => s
  end.

Definition digit_value (c : ascii) : option Z :=
  let n := Z.of_nat (nat_of_ascii c) in
  if (48 <=? n) && (n <=? 57) then Some (n - 48)
  else if (97 <=? n) && (n <=? 122) then Some (n - 87)
  else if (65 <=? n) && (n <=? 90) then Some (n - 55)
  else None.

(** The longest prefix of digits of the radix; [None] when it is empty. *)
Fixpoint parse_digits (radix : Z) (s : string) (acc : option Z) : option Z :=
  match s with
  | EmptyString => acc
  | String c rest =>
      match digit_value c with
      | Some d =>
          if d <? radix then parse_digits radix rest (Some (default 0 acc * radix + d))
          else acc
      | None => acc
      end
  end.

Definition parse_unsigned (s : string) : option Z :=
  match s with
  | String "0"%char (String "x"%char rest)
  | String "0"%char (String "X"%char rest) => parse_digits 16 rest None
  | _ => parse_digits 10 s None
  end.

(** [parseInt(s)] without a radix, on ASCII input: leading white space, a
    sign, a hexadecimal prefix, then the longest run of digits.  [None] is
    [NaN]. *)
Definition parseInt (s : string) : option Z :=
  match skip_whitespace s with
  | String "-"%char rest => Z.opp <$> parse_unsigned rest
  | String "+"%char rest => parse_unsigned rest
  | rest => parse_unsigned rest
  end.

(** Truthiness of a string. *)
Definition truthy (s : string) : bool := negb (String.eqb s "").

Definition trip_payload (user : string) (tripData : TripData) : TripInsert :=
  {| ti_organizer_id := user;
     ti_title := td_title tripData;
     ti_max_participants :=
       if truthy (td_maxParticipants tripData) then parseInt (td_maxParticipants tripData)
       else Some 10;
     ti_is_public := true |}.

(** [supabase.from('group_trips').insert(payload).select().single()] *)
Definition insert_trip {B : Backend} (payload : TripInsert)
    : Client (PostgrestError + GroupTrip) :=
  request (Insert "group_trips")
    (λ tb, (inr (new_trip tb payload),
            set_group_trips (λ l, l ++ [new_trip tb payload]) tb)).

(** What [createTrip] hands to the insert that enrols the organizer. *)
Definition organizer_enrolment (data : GroupTrip) (user : string) : ParticipantInsert :=
  {| pi_trip_id := trip_id data; pi_user_id := user; pi_status := None |}.

Definition createTrip {B : Backend} (tripData : TripData) : Client GroupTrip :=
  user ← getUser;
  match user with
  | None => throw NotAuthenticated
  | Some user =>
      res ← insert_trip (trip_payload user tripData);
      match res with
      | inl error => throw (PgError error)
      | inr data =>
          (* the answer of this insert is not looked at *)
          _ ← insert_participant (organizer_enrolment data user);
          mret data
      end
  end.

(** ** Follow and unfollow ([authService.followUser], [unfollowUser]) *)

Definition is_follow (followerId followingId : string) (f : UserFollower) : Prop :=
  follower_id f = followerId ∧ following_id f = followingId.

Global Instance is_follow_dec a b f : Decision (is_follow a b f).
Proof. unfold is_follow. apply _. Defined.

Definition follows (followerId followingId : string) (tb : Tables) : list UserFollower :=
  filter (is_follow followerId followingId) (user_followers tb).

Definition followers_of (userId : string) (tb : Tables) : list UserFollower :=
  filter (λ f, following_id f = userId) (user_followers tb).

Definition following_of (userId : string) (tb : Tables) : list UserFollower :=
  filter (λ f, follower_id f = userId) (user_followers tb).

Definition unique_violation : PostgrestError :=
  {| code := "23505"; message := "duplicate key value violates unique constraint" |}.

(** Insert of a follow edge; the pair (follower, following) is unique in
    the backend. *)
Definition insert_follow {B : Backend} (f : UserFollower)
    : Client (PostgrestError + UserFollower) :=
  request (Insert "user_followers")
    (λ tb, match follows (follower_id f) (following_id f) tb with
           | [] => (inr f, set_user_followers (λ l, l ++ [f]) tb)
           | _ => (inl unique_violation, tb)
           end).

(** [upsert({ user_id, followers_count }, { onConflict: 'user_id' })]: the
    other counter keeps its value, or takes the column default 0. *)
Definition upsert_followers_count {B : Backend} (userId : string) (n : Z)
    : Client (PostgrestError + unit) :=
  request (Upsert "user_stats")
    (λ tb, (inr (),
            set_user_stats (λ m,
              <[userId :=
                  {| followers_count := n;
                     following_count := from_option following_count 0 (m !! userId) |}]> m)
              tb)).

Definition upsert_following_count {B : Backend} (userId : string) (n : Z)
    : Client (PostgrestError + unit) :=
  request (Upsert "user_stats")
    (λ tb, (inr (),
            set_user_stats (λ m,
              <[userId := {| followers_count := from_option followers_count 0 (m !! userId);
                             following_count := n |}]> m)
              tb)).

(** [count || 0] on the answer of a count query. *)
Definition count_or_0 (res : PostgrestError + Z) : Z :=
  match res with
  | inr n => n
  | inl _ => 0
  end.

(** The refresh of both counters, shared by follow and unfollow. *)
Definition refresh_counters {B : Backend} (user followingId : string) : Client unit :=
  followerCount ← select_count "user_followers" (followers_of followingId);
  _ ← upsert_followers_count followingId (count_or_0 followerCount);
  followingCount ← select_count "user_followers" (following_of user);
  _ ← upsert_following_count user (count_or_0 followingCount);
  mret ().

Definition followUser {B : Backend} (followingId : string) : Client UserFollower :=
  user ← getUser;
  match user with
  | None => throw NotAuthenticated
  | Some user =>
      existing ← select_single "user_followers" (follows user followingId);
      match existing with
      | inr existingFollow => throw (JsError "Already following this user")
      | inl _ =>
          res ← insert_follow {| follower_id := user; following_id := followingId |};
          match res with
          | inl error => throw (PgError error)
          | inr data => _ ← refresh_counters user followingId; mret data
          end
      end
  end.

Definition unfollowUser {B : Backend} (followingId : string) : Client bool :=
  user ← getUser;
  match user with
  | None => throw NotAuthenticated
  | Some user =>
      existing ← select_single "user_followers" (follows user followingId);
      match existing with
      | inl _ => throw (JsError "Not following this user")
      | inr existingFollow =>
          res ← delete_rows "user_followers"
                  (set_user_followers (filter (λ f, ¬ is_follow user followingId f)));
          match res with
          | inl error => throw (PgError error)
          | inr _ => _ ← refresh_counters user followingId; mret true
          end
      end
  end.

(** [authService.getFollowerCount] *)
Definition getFollowerCount {B : Backend} (userId : string) : Client Z :=
  res ← select_count "user_followers" (followers_of userId);
  mret (count_or_0 res).

(** ** Likes ([authService.togglePostLike]) *)

Definition is_like (userId postId : string) (l : PostLike) : Prop :=
  like_user_id l = userId ∧ like_post_id l = postId.

Global Instance is_like_dec u p l : Decision (is_like u p l).
Proof. unfold is_like. apply _. Defined.

Definition likes (userId postId : string) (tb : Tables) : list PostLike :=
  filter (is_like userId postId) (post_likes tb).

(** [supabase.from('post_likes').insert({ user_id, post_id })] *)
Definition insert_like {B : Backend} (l : PostLike) : Client (PostgrestError + unit) :=
  request (Insert "post_likes") (λ tb, (inr (), set_post_likes (λ ls, ls ++ [l]) tb)).

Definition togglePostLike {B : Backend} (userId postId : string) : Client bool :=
  existing ← select_single "post_likes" (likes userId postId);
  match existing with
  | inr existingLike =>
      res ← delete_rows "post_likes"
              (set_post_likes (filter (λ l, ¬ is_like userId postId l)));
      match res with
      | inl error => throw (PgError error)
      | inr _ => mret false
      end
  | inl _ =>
      res ← insert_like {| like_user_id := userId; like_post_id := postId |};
      match res with
      | inl error => throw (PgError error)
      | inr _ => mret true
      end
  end.

(** ** The global feed ([authService.getGlobalFeed]) *)

(** The profile columns merged into a post or a trip; the placeholder of the
    feed has no [user_id]. *)
Record ProfileView := {
  pv_user_id : option string;
  pv_username : string;
  pv_display_name : string;
  pv_avatar_url : option string
}.

Record FeedPost := { fp_post : UserPost; fp_user_profiles : ProfileView }.

Definition profile_view (p : UserProfile) : ProfileView :=
  {| pv_user_id := Some (profile_user_id p);
     pv_username := username p;
     pv_display_name := display_name p;
     pv_avatar_url := avatar_url p |}.

Definition anonymous_user : ProfileView :=
  {| pv_user_id := None;
     pv_username := "unknown";
     pv_display_name := "Anonymous User";
     pv_avatar_url := None |}.

Definition not_older (a b : UserPost) : Prop := created_at b ≤ created_at a.

Global Instance not_older_dec : RelDecision not_older.
Proof. intros a b. unfold not_older. apply _. Defined.

(** [.order('created_at', { ascending: false })].  The query names no
    second key; rows with equal [created_at] are kept in table order here. *)
Definition newest_first (posts : list UserPost) : list UserPost :=
  merge_sort not_older posts.

(** [.range(from, to)]: rows [from] to [to], both included. *)
Definition range {A} (from to : Z) (rows : list A) : list A :=
  take (Z.to_nat (to - from + 1)) (drop (Z.to_nat from) rows).

Definition public_posts_page (limit offset : Z) (tb : Tables) : list UserPost :=
  range offset (offset + limit - 1)
    (newest_first (filter (λ p, is_public p = true) (user_posts tb))).

(** [[...new Set(ids)]] *)
Definition distinct (ids : list string) : list string :=
  foldl (λ acc x, if decide (x ∈ acc) then acc else acc ++ [x]) [] ids.

Definition profiles_of (userIds : list string) (tb : Tables) : list UserProfile :=
  filter (λ p, profile_user_id p ∈ userIds) (user_profiles tb).

(** [profilesData.find(p => p.user_id === userId)] *)
Definition find_profile (userId : string) (profiles : list UserProfile) : option UserProfile :=
  list_find (λ p, profile_user_id p = userId) profiles ≫= λ ip, Some ip.2.

Definition getGlobalFeed {B : Backend} (limit offset : Z) : Client (list FeedPost) :=
  postsRes ← select_rows "user_posts" (public_posts_page limit offset);
  match postsRes with
  | inl postsError => mret []
  | inr [] => mret []
  | inr postsData =>
      let userIds := distinct (post_user_id <$> postsData) in
      profilesRes ← select_rows "user_profiles" (profiles_of userIds);
      match profilesRes with
      | inl profilesError =>
          mret ((λ post, {| fp_post := post; fp_user_profiles := anonymous_user |})
                  <$> postsData)
      | inr profilesData =>
          mret ((λ post,
                   {| fp_post := post;
                      fp_user_profiles :=
                        from_option profile_view anonymous_user
                          (find_profile (post_user_id post) profilesData) |})
                  <$> postsData)
      end
  end.

(** ** Uploads ([StorageService]) *)

Record File := { file_name : string; file_size : Z; file_type : string }.

Record UploadOptions := {
  bucket : string;
  folder : option string;
  maxSize : option Z;
  allowedTypes : option (list string)
}.

Record UploadResult := { url : string; path : string; error : option string }.

Definition buckets_avatars : string := "avatars".
Definition buckets_posts : string := "post-images".
Definition buckets_stories : string := "stories".
Definition buckets_chat : string := "chat-media".
Definition buckets_trips : string := "trip-images".
Definition buckets_bikes : string := "bike-images".

Definition sizes : list string := ["Bytes"; "KB"; "MB"; "GB"].

(** The decimal notation of [h / 100], as [parseFloat(x.toFixed(2))] prints
    it: no trailing zero, no decimal point for a whole number. *)
Definition print_hundredths (h : Z) : string :=
  let whole := h `div` 100 in
  let frac := h `mod` 100 in
  if frac =? 0 then pretty whole
  else if frac `mod` 10 =? 0 then pretty whole +:+ "." +:+ pretty (frac `div` 10)
  else if frac <? 10 then pretty whole +:+ ".0" +:+ pretty frac
  else pretty whole +:+ "." +:+ pretty frac.

(** [formatFileSize]: [i] is the floor of the logarithm of [bytes] in base
    1024, and [toFixed(2)] rounds the quotient to the nearest hundredth,
    upwards at a tie.  The source computes [i] with floating-point
    logarithms; the two agree wherever the quotient of the logarithms is not
    within rounding distance of a whole number, as for every configured
    limit. *)
Definition formatFileSize (bytes : Z) : string :=
  if bytes =? 0 then "0 Bytes"
  else
    let k := 1024 in
    let i := Z.log2 bytes `div` 10 in
    let hundredths := (200 * bytes + k ^ i) `div` (2 * k ^ i) in
    print_hundredths hundredths +:+ " " +:+ default "undefined" (sizes !! Z.to_nat i).

(** [name.split('.').pop()]: what follows the last dot, or the whole name. *)
Fixpoint after_last_dot (s acc : string) : string :=
  match s with
  | EmptyString => acc
  | String c rest =>
      if Ascii.eqb c "."%char then after_last_dot rest ""
      else after_last_dot rest (acc +:+ String c "")
  end.

(** [a || b] on optional strings: the empty string is falsy as well. *)
Definition or_else (a : option string) (b : string) : string :=
  match a with
  | Some s => if truthy s then s else b
  | None => b
  end.

Definition getEntityTypeFromBucket (b : string) : string :=
  if String.eqb b buckets_avatars then "profile_avatar"
  else if String.eqb b buckets_posts then "post_image"
  else if String.eqb b buckets_stories then "story_media"
  else if String.eqb b buckets_chat then "chat_media"
  else if String.eqb b buckets_trips then "trip_image"
  else if String.eqb b buckets_bikes then "bike_image"
  else "unknown".

(** [supabase.storage.from(bucket).upload(filePath, file, { upsert: false })]:
    the path of the stored object.  The storage client takes empty folders
    out of the path it is given and answers the path it stored; the path
    answered here is the one of a path without empty folders
    ([clean_path]), which the client keeps as it is. *)
Definition storage_upload {B : Backend} (b filePath : string)
    : Client (PostgrestError + string) :=
  request (StorageUpload b filePath)
    (λ tb, if decide ((b, filePath) ∈ storage_objects tb)
           then (inl {| code := "409"; message := "The resource already exists" |}, tb)
           else (inr filePath, set_storage_objects (λ l, l ++ [(b, filePath)]) tb)).

(** [getPublicUrl] builds the address locally; the storage client passes it
    through [encodeURI], which keeps an address of unreserved and reserved
    characters ([uri_plain]) as it is. *)
Definition getPublicUrl {B : Backend} (b p : string) : string :=
  supabaseUrl +:+ "/storage/v1/object/public/" +:+ b +:+ "/" +:+ p.

(** [saveFileMetadata]: the answer of the insert is not looked at. *)
Definition saveFileMetadata {B : Backend} (row : MediaFile) : Client unit :=
  _ ← request (Insert "media_files")
        (λ tb, (inr (), set_media_files (λ l, l ++ [row]) tb));
  mret ().

Definition rejected (msg : string) : UploadResult :=
  {| url := ""; path := ""; error := Some msg |}.

Definition uploadFile {B : Backend} (file : File) (options : UploadOptions)
    (userId : option string) : Client UploadResult :=
  if match maxSize options with
     | Some m => negb (m =? 0) && (m <? file_size file)
     | None => false
     end
  then mret (rejected ("File size exceeds " +:+
                       formatFileSize (default 0 (maxSize options)) +:+ " limit"))
  else if match allowedTypes options with
          | Some types => negb (bool_decide (file_type file ∈ types))
          | None => false
          end
  then mret (rejected ("File type " +:+ file_type file +:+ " is not allowed"))
  else
    λ w,
      let fileExt := after_last_dot (file_name file) "" in
      let fileName :=
        pretty (date_now (trace w)) +:+ "_" +:+ random_string (trace w) +:+ "." +:+ fileExt in
      let filePath :=
        or_else (folder options) (or_else userId "uploads") +:+ "/" +:+ fileName in
      (res ← storage_upload (bucket options) filePath;
       match res with
       | inl e => mret (rejected (message e))
       | inr dataPath =>
           let publicUrl := getPublicUrl (bucket options) dataPath in
           _ ← match userId with
               | Some uid =>
                   if truthy uid then
                     saveFileMetadata
                       {| mf_user_id := uid;
                          mf_filename := fileName;
                          mf_original_name := file_name file;
                          mf_file_size := file_size file;
                          mf_mime_type := file_type file;
                          mf_storage_path := dataPath;
                          mf_public_url := publicUrl;
                          mf_entity_type := getEntityTypeFromBucket (bucket options);
                          mf_is_public := negb (String.eqb (bucket options) buckets_chat) |}
                   else mret ()
               | None => mret ()
               end;
           mret {| url := publicUrl; path := dataPath; error := None |}
       end) w.

Definition avatar_options (userId : string) : UploadOptions :=
  {| bucket := buckets_avatars;
     folder := Some userId;
     maxSize := Some (10 * 1024 * 1024);
     allowedTypes := Some ["image/jpeg"; "image/png"; "image/webp"] |}.

Definition uploadAvatar {B : Backend} (file : File) (userId : string) : Client UploadResult :=
  uploadFile file (avatar_options userId) (Some userId).

(** ** Reads that filter participation by status *)

(** The label list of [sendTripMessage]'s permission check. *)
Definition sendTripMessage_statuses : list string :=
  ["joined"; "confirmed"; "accepted"; "active"; "pending"].

(** The label list of [getUserJoinedTrips]. *)
Definition getUserJoinedTrips_statuses : list string :=
  ["joined"; "confirmed"; "accepted"; "active"; "pending"].

(** The label list of the development helper [debugChatPermission]. *)
Definition debugChatPermission_statuses : list string :=
  ["joined"; "confirmed"; "accepted"; "active"; "pending"].

(** [.eq('trip_id', tripId).eq('user_id', userId).in('status', labels)] *)
Definition participations_in (labels : list string) (tripId userId : string) (tb : Tables)
    : list TripParticipant :=
  filter (λ p, is_participation tripId userId p ∧ tp_status p ∈ labels)
         (trip_participants tb).

(** [.eq('user_id', userId).in('status', labels)] *)
Definition user_participations_in (labels : list string) (userId : string) (tb : Tables)
    : list TripParticipant :=
  filter (λ p, tp_user_id p = userId ∧ tp_status p ∈ labels) (trip_participants tb).

(** The permission check of [sendTripMessage]: [canSendMessage]. *)
Definition canSendMessage {B : Backend} (tripId user : string) : Client bool :=
  partRes ← select_single "trip_participants"
              (participations_in sendTripMessage_statuses tripId user);
  tripRes ← select_single "group_trips" (trips_by_id tripId);
  mret (match partRes with inr participation => true | inl partError => false end
        || match tripRes with
           | inr trip => String.eqb (organizer_id trip) user
           | inl tripError => false
           end).

(** The same check in [debugChatPermission]: [canChat]. *)
Definition debugChatPermission {B : Backend} (tripId : string) : Client (option bool) :=
  user ← getUser;
  match user with
  | None => mret None
  | Some user =>
      partRes ← select_single "trip_participants"
                  (participations_in debugChatPermission_statuses tripId user);
      tripRes ← select_single "group_trips" (trips_by_id tripId);
      mret (Some (match partRes with inr participation => true | inl partError => false end
                  || match tripRes with
                     | inr trip => String.eqb (organizer_id trip) user
                     | inl tripError => false
                     end))
  end.

(** [message.trim()] on ASCII text ([ascii_text]), where white space is the
    characters 9 to 13 and 32. *)
Definition trim (s : string) : string :=
  String.rev (skip_whitespace (String.rev (skip_whitespace s))).

Definition NotParticipant : Thrown :=
  JsError "You must be a participant or organizer to send messages".

Definition sendTripMessage {B : Backend} (tripId msg : string) : Client ChatMessage :=
  user ← getUser;
  match user with
  | None => throw NotAuthenticated
  | Some user =>
      allowed ← canSendMessage tripId user;
      if negb allowed then throw NotParticipant
      else
        let row := {| cm_trip_id := tripId; cm_sender_id := user; cm_message := trim msg |} in
        res ← request (Insert "trip_chat_messages")
                (λ tb, (inr row, set_trip_chat_messages (λ l, l ++ [row]) tb));
        match res with
        | inl e => throw (PgError e)
        | inr data => mret data
        end
  end.

Definition anonymous_organizer (userId : string) : ProfileView :=
  {| pv_user_id := Some userId;
     pv_username := "unknown";
     pv_display_name := "Anonymous Organizer";
     pv_avatar_url := None |}.

Record JoinedTrip := { jt_trip : GroupTrip; jt_organizer : ProfileView }.

Definition trips_in (tripIds : list string) (tb : Tables) : list GroupTrip :=
  filter (λ t, trip_id t ∈ tripIds) (group_trips tb).

Definition getUserJoinedTrips {B : Backend} (userId : string) : Client (list JoinedTrip) :=
  partRes ← select_rows "trip_participants"
              (user_participations_in getUserJoinedTrips_statuses userId);
  match partRes with
  | inl participationsError => throw (PgError participationsError)
  | inr [] => mret []
  | inr participations =>
      let tripIds := tp_trip_id <$> participations in
      tripsRes ← select_rows "group_trips" (trips_in tripIds);
      match tripsRes with
      | inl tripsError => throw (PgError tripsError)
      | inr tripsData =>
          let organizerIds := organizer_id <$> tripsData in
          profRes ← select_rows "user_profiles" (profiles_of organizerIds);
          let organizerProfiles := match profRes with inr ps => ps | inl _ => [] end in
          mret ((λ trip,
                   {| jt_trip := trip;
                      jt_organizer :=
                        from_option profile_view (anonymous_organizer (organizer_id trip))
                          (find_profile (organizer_id trip) organizerProfiles) |})
                  <$> tripsData)
      end
  end.

(** ** The trip page ([TripDetails.handleJoinLeave]) *)

Record Toast := { toast_title : string; toast_description : string; toast_destructive : bool }.

(** What [getTripById] loaded into [tripData]: the trip row and its roster. *)
Record TripPageData := { tpd_trip : GroupTrip; tpd_participants : list TripParticipant }.

Record TripPage := {
  page_user : option string;
  page_tripData : option TripPageData;
  page_isJoined : bool;
  page_isOrganizer : bool;
  page_joinLoading : bool;
  page_toasts : list Toast
}.

Definition show_toast (t : Toast) (pg : TripPage) : TripPage :=
  {| page_user := page_user pg;
     page_tripData := page_tripData pg;
     page_isJoined := page_isJoined pg;
     page_isOrganizer := page_isOrganizer pg;
     page_joinLoading := page_joinLoading pg;
     page_toasts := page_toasts pg ++ [t] |}.

(** [{ ...prev, current_participants: prev.current_participants + d }] *)
Definition bump_current_participants (d : Z) (data : TripPageData) : TripPageData :=
  {| tpd_trip :=
       {| trip_id := trip_id (tpd_trip data);
          organizer_id := organizer_id (tpd_trip data);
          trip_title := trip_title (tpd_trip data);
          max_participants := max_participants (tpd_trip data);
          current_participants := current_participants (tpd_trip data) + d;
          trip_status := trip_status (tpd_trip data) |};
     tpd_participants := tpd_participants data |}.

(** The page after a join ([d = 1]) or a leave ([d = -1]) went through. *)
Definition joined_or_left (joined : bool) (d : Z) (t : Toast) (pg : TripPage) : TripPage :=
  {| page_user := page_user pg;
     page_tripData := bump_current_participants d <$> page_tripData pg;
     page_isJoined := joined;
     page_isOrganizer := page_isOrganizer pg;
     page_joinLoading := false;
     page_toasts := page_toasts pg ++ [t] |}.

(** The page after the [catch] and [finally] blocks. *)
Definition join_leave_failed (e : Thrown) (pg : TripPage) : TripPage :=
  {| page_user := page_user pg;
     page_tripData := page_tripData pg;
     page_isJoined := page_isJoined pg;
     page_isOrganizer := page_isOrganizer pg;
     page_joinLoading := false;
     page_toasts :=
       page_toasts pg ++
       [{| toast_title := "Error";
           toast_description :=
             or_else (Some (thrown_message e)) "Failed to update trip participation.";
           toast_destructive := true |}] |}.

Definition handleJoinLeave {B : Backend} (tripId : string) (pg : TripPage) (w : World)
    : TripPage * World :=
  match page_user pg, page_tripData pg with
  | Some user, Some tripData =>
      if page_isOrganizer pg then
        (show_toast {| toast_title := "Cannot Leave Trip";
                       toast_description :=
                         "As the trip organizer, you cannot leave your own trip.";
                       toast_destructive := true |} pg, w)
      else if page_isJoined pg then
        match leaveTrip tripId w with
        | (inr _, w') =>
            (joined_or_left false (-1)
               {| toast_title := "Left Trip";
                  toast_description := "You have left the trip.";
                  toast_destructive := false |} pg, w')
        | (inl e, w') => (join_leave_failed e pg, w')
        end
      else
        match joinTrip tripId w with
        | (inr _, w') =>
            (joined_or_left true 1
               {| toast_title := "Joined Trip!";
                  toast_description := "You have successfully joined the trip.";
                  toast_destructive := false |} pg, w')
        | (inl e, w') => (join_leave_failed e pg, w')
        end
  | _, _ =>
      (show_toast {| toast_title := "Login Required";
                     toast_description := "Please log in to join this trip.";
                     toast_destructive := true |} pg, w)
  end.


Definition actualParticipantCount (data : TripPageData) : Z :=
  Z.of_nat (length (filter (λ p, tp_user_id p ≠ organizer_id (tpd_trip data))
                           (tpd_participants data))) + 1.

(** ** Sample backends and worlds *)

Definition check_violation : PostgrestError :=
  {| code := "23514";
     message := "new row violates check constraint trip_participants_status_check" |}.

Definition foreign_key_violation : PostgrestError :=
  {| code := "23503";
     message := "insert or update on table trip_participants violates foreign key constraint trip_participants_trip_id_fkey" |}.

Definition network_failure : PostgrestError :=
  {| code := ""; message := "TypeError: Failed to fetch" |}.

(** A backend whose check constraint on [status] admits the labels in
    [allowed], and which refuses nothing else. *)
Definition constrained_backend (allowed : list string) : Backend :=
  {| fault := λ tb r,
       match r with
       | InsertParticipant p =>
           if decide (default "pending" (pi_status p) ∈ allowed) then None
           else Some check_violation
       | _ => None
       end;
     default_status := "pending";
     new_trip := λ tb payload,
       {| trip_id := "trip-" +:+ pretty (length (group_trips tb));
          organizer_id := ti_organizer_id payload;
          trip_title := ti_title payload;
          max_participants := default 0 (ti_max_participants payload);
          current_participants := 0;
          trip_status := "open" |};
     supabaseUrl := "https://project.supabase.co";
     date_now := λ tr, 1700000000000 + Z.of_nat (length tr);
     random_string := λ tr, "k3x9q" |}.

(** A backend without any constraint on the status. *)
Definition plain_backend : Backend :=
  {| fault := λ tb r, None;
     default_status := "pending";
     new_trip := @new_trip (constrained_backend []);
     supabaseUrl := "https://project.supabase.co";
     date_now := λ tr, 1700000000000 + Z.of_nat (length tr);
     random_string := λ tr, "k3x9q" |}.

(** A backend that loses the connection on every participant insert carrying
    the label [bad], whose check constraint rejects "joined", and which
    admits every other request. *)
Definition flaky_backend (bad : string) : Backend :=
  {| fault := λ tb r,
       match r with
       | InsertParticipant p =>
           if decide (pi_status p = Some bad) then Some network_failure
           else if decide (pi_status p = Some "joined") then Some check_violation
           else None
       | _ => None
       end;
     default_status := "pending";
     new_trip := @new_trip (constrained_backend []);
     supabaseUrl := "https://project.supabase.co";
     date_now := λ tr, 1700000000000 + Z.of_nat (length tr);
     random_string := λ tr, "k3x9q" |}.

Definition no_tables : Tables :=
  {| group_trips := [];
     trip_participants := [];
     user_followers := [];
     user_stats := ∅;
     post_likes := [];
     user_posts := [];
     user_profiles := [];
     media_files := [];
     storage_objects := [];
     trip_chat_messages := [] |}.

Definition signed_in (user : string) (tb : Tables) : World :=
  {| tables := tb; session := Some user; trace := [] |}.

(** Alice's ride: [cap] places, [n] of them taken according to the stored
    column. *)
Definition alices_ride (status : string) (cap n : Z) : GroupTrip :=
  {| trip_id := "ride-1";
     organizer_id := "alice";
     trip_title := "Coast road";
     max_participants := cap;
     current_participants := n;
     trip_status := status |}.

Definition enrolled (user status : string) : TripParticipant :=
  {| tp_trip_id := "ride-1"; tp_user_id := user; tp_status := status |}.

Definition ride_tables (status : string) (cap n : Z) (roster : list TripParticipant)
    : Tables :=
  set_trip_participants (λ _, roster)
    (set_group_trips (λ _, [alices_ride status cap n]) no_tables).

(** Bob looks at Alice's open ride, on which one of two places is taken. *)
Definition bob_at_the_ride : World :=
  signed_in "bob" (ride_tables "open" 2 1 [enrolled "alice" "pending"]).

(** Alice, the organizer, looks at her ride, on which her own place is the
    only one taken. *)
Definition alice_at_her_ride : World :=
  signed_in "alice" (ride_tables "open" 2 1 [enrolled "alice" "pending"]).

(** The ride is full, Bob being the second rider. *)
Definition bob_on_the_full_ride : World :=
  signed_in "bob"
    (ride_tables "open" 2 2 [enrolled "alice" "pending"; enrolled "bob" "joined"]).

(** Bob is enrolled and a third place is free. *)
Definition bob_on_the_ride : World :=
  signed_in "bob"
    (ride_tables "open" 3 2 [enrolled "alice" "pending"; enrolled "bob" "joined"]).

(** Carol looks at the full ride. *)
Definition carol_at_the_full_ride : World :=
  signed_in "carol"
    (ride_tables "open" 2 2 [enrolled "alice" "pending"; enrolled "bob" "joined"]).


(** The trip page as Bob sees it before joining. *)
Definition bobs_page : TripPage :=
  {| page_user := Some "bob";
     page_tripData :=
       Some {| tpd_trip := alices_ride "open" 2 1;
               tpd_participants := [enrolled "alice" "pending"] |};
     page_isJoined := false;
     page_isOrganizer := false;
     page_joinLoading := false;
     page_toasts := [] |}.

(** Alice, signed in, with no follow edge anywhere. *)
Definition alice_alone : World := signed_in "alice" no_tables.


(** A photo of 15 MB. *)
Definition large_photo : File :=
  {| file_name := "me.png"; file_size := 15 * 1024 * 1024; file_type := "image/png" |}.



(** ** Vocabulary of the statements *)

(** The request of the join loop for one label. *)
Definition attempt (tripId user label : string) : Request :=
  InsertParticipant {| pi_trip_id := tripId; pi_user_id := user; pi_status := Some label |}.

(** The backend refuses the label with a check-constraint violation. *)
Definition validation_rejected {B : Backend} (tb : Tables) (tripId user label : string)
    : Prop :=
  ∃ e, fault tb (attempt tripId user label) = Some e ∧ code e = "23514".

(** The row a successful attempt stores and returns. *)
Definition joined_as (tripId user label : string) : TripParticipant :=
  {| tp_trip_id := tripId; tp_user_id := user; tp_status := label |}.

(** The world in which the loop is left at [label], the labels of [tried]
    having been refused. *)
Definition after_attempts (tripId user : string) (tried : list string) (label : string)
    (upd : Tables → Tables) (w0 : World) : World :=
  {| tables := upd (tables w0);
     session := session w0;
     trace := trace w0 ++ (attempt tripId user <$> tried ++ [label]) |}.

(** What the checks of [joinTrip] decide, in their order. *)
Definition join_verdict (tripId : string) (w : World) : Thrown + string :=
  match session w with
  | None => inl NotAuthenticated
  | Some user =>
      match single (trips_by_id tripId (tables w)) with
      | inl _ => inl (NotFound tripId)
      | inr trip =>
          if negb (String.eqb (trip_status trip) "open") then inl NotOpen
          else if max_participants trip <=? current_participants trip then inl Full
          else match single (participations tripId user (tables w)) with
               | inr _ => inl AlreadyJoined
               | inl _ => inr user
               end
      end
  end.

(** The world after the requests [tr] have turned the tables into [tb]. *)
Definition moved_to (tb : Tables) (tr : list Request) (w : World) : World :=
  {| tables := tb; session := session w; trace := trace w ++ tr |}.

(** The counts of the edge table, and the stored counters. *)
Definition follower_count (userId : string) (tb : Tables) : Z :=
  Z.of_nat (length (followers_of userId tb)).

Definition followed_count (userId : string) (tb : Tables) : Z :=
  Z.of_nat (length (following_of userId tb)).

Definition stored_followers (userId : string) (tb : Tables) : option Z :=
  followers_count <$> user_stats tb !! userId.

Definition stored_following (userId : string) (tb : Tables) : option Z :=
  following_count <$> user_stats tb !! userId.

(** The tables after the counter refresh of a follow or unfollow. *)
Definition refreshed (user followingId : string) (tb : Tables) : Tables :=
  set_user_stats
    (λ m, <[user := {| followers_count := from_option followers_count 0 (m !! user);
                       following_count := followed_count user tb |}]> m)
    (set_user_stats
       (λ m, <[followingId :=
                 {| followers_count := follower_count followingId tb;
                    following_count := from_option following_count 0 (m !! followingId) |}]> m)
       tb).

(** A sequence of follow and unfollow calls by the signed-in caller, and
    whether each call returned ([true]) or threw ([false]). *)
Inductive FollowCall :=
| Follow (target : string)
| Unfollow (target : string).

Global Instance FollowCall_eq_dec : EqDecision FollowCall.
Proof. solve_decision. Defined.






(** The record the backend stores for the organizer's enrolment. *)
Definition organizer_record {B : Backend} (data : GroupTrip) (user : string)
    : TripParticipant :=
  {| tp_trip_id := trip_id data; tp_user_id := user; tp_status := default_status |}.

(** ** Further reads of the data-access layer *)

(** [authService.checkTripParticipation]: [!!data]; an error other than
    PGRST116 is thrown. *)
Definition checkTripParticipation {B : Backend} (tripId : string) : Client bool :=
  user ← getUser;
  match user with
  | None => mret false
  | Some user =>
      res ← select_single "trip_participants" (participations tripId user);
      match res with
      | inr data => mret true
      | inl error =>
          if negb (String.eqb (code error) "PGRST116") then throw (PgError error)
          else mret false
      end
  end.

(** [authService.checkFollowStatus] *)
Definition checkFollowStatus {B : Backend} (followingId : string) : Client bool :=
  user ← getUser;
  match user with
  | None => mret false
  | Some user =>
      res ← select_single "user_followers" (follows user followingId);
      match res with
      | inr data => mret true
      | inl error =>
          if negb (String.eqb (code error) "PGRST116") then throw (PgError error)
          else mret false
      end
  end.

(** [authService.getFollowingCount] *)
Definition getFollowingCount {B : Backend} (userId : string) : Client Z :=
  res ← select_count "user_followers" (following_of userId);
  mret (count_or_0 res).

(** The row of [user_stats] of a user, if there is one. *)
Definition stats_of (userId : string) (tb : Tables) : list UserStats :=
  option_list (user_stats tb !! userId).

(** [authService.getUserStats]: both counts are read from the edge table,
    written over the stored row, and returned. *)
Definition getUserStats {B : Backend} (userId : string) : Client UserStats :=
  followerCount ← getFollowerCount userId;
  followingCount ← getFollowingCount userId;
  res ← select_single "user_stats" (stats_of userId);
  match res with
  | inl error =>
      if negb (String.eqb (code error) "PGRST116") then throw (PgError error)
      else
        let updatedStats :=
          {| followers_count := followerCount; following_count := followingCount |} in
        _ ← request (Upsert "user_stats")
              (λ tb, (inr (), set_user_stats (λ m, <[userId := updatedStats]> m) tb));
        mret updatedStats
  | inr existingStats =>
      let updatedStats :=
        {| followers_count := followerCount; following_count := followingCount |} in
      _ ← request (Upsert "user_stats")
            (λ tb, (inr (), set_user_stats (λ m, <[userId := updatedStats]> m) tb));
      mret updatedStats
  end.

(** The likes of a user on the posts of a list. *)
Definition likes_among (userId : string) (postIds : list string) (tb : Tables)
    : list PostLike :=
  filter (λ l, like_user_id l = userId ∧ like_post_id l ∈ postIds) (post_likes tb).

(** [authService.getPostLikeStatus]: every requested id is set to [false],
    then the id of every like found to [true]. *)
Definition getPostLikeStatus {B : Backend} (userId : string) (postIds : list string)
    : Client (gmap string bool) :=
  res ← select_rows "post_likes" (likes_among userId postIds);
  match res with
  | inl error => throw (PgError error)
  | inr data =>
      let likedPosts := foldl (λ m id, <[id := false]> m) (∅ : gmap string bool) postIds in
      mret (foldl (λ m like, <[like_post_id like := true]> m) likedPosts data)
  end.

(** [authService.getUserPosts] *)
Definition posts_of (userId : string) (isPublic : bool) (tb : Tables) : list UserPost :=
  let own := newest_first (filter (λ p, post_user_id p = userId) (user_posts tb)) in
  if isPublic then filter (λ p, is_public p = true) own else own.

Definition getUserPosts {B : Backend} (userId : string) (isPublic : bool)
    : Client (list UserPost) :=
  res ← select_rows "user_posts" (posts_of userId isPublic);
  match res with
  | inl error => throw (PgError error)
  | inr data => mret data
  end.

(** [authService.getUserProfile]: [null] when there is no profile. *)
Definition profiles_by_user (userId : string) (tb : Tables) : list UserProfile :=
  filter (λ p, profile_user_id p = userId) (user_profiles tb).

Definition getUserProfile {B : Backend} (userId : string) : Client (option UserProfile) :=
  res ← select_single "user_profiles" (profiles_by_user userId);
  match res with
  | inr data => mret (Some data)
  | inl error =>
      if String.eqb (code error) "PGRST116" then mret None else throw (PgError error)
  end.

(** ** The trip with its roster ([authService.getTripById]) *)

Record RosterEntry := { re_participant : TripParticipant; re_user_profiles : ProfileView }.

Record TripWithRoster := {
  twr_trip : GroupTrip;
  twr_organizer : ProfileView;
  twr_participants : list RosterEntry
}.

Definition roster_of (tripId : string) (tb : Tables) : list TripParticipant :=
  filter (λ p, tp_trip_id p = tripId) (trip_participants tb).

Definition getTripById {B : Backend} (tripId : string) : Client TripWithRoster :=
  tripRes ← select_single "group_trips" (trips_by_id tripId);
  match tripRes with
  | inl tripError => throw (PgError tripError)
  | inr tripData =>
      orgRes ← select_single "user_profiles" (profiles_by_user (organizer_id tripData));
      partRes ← select_rows "trip_participants" (roster_of tripId);
      participantProfiles ←
        match partRes with
        | inr (p :: ps) =>
            profRes ← select_rows "user_profiles" (profiles_of (tp_user_id <$> p :: ps));
            mret (match profRes with inr profiles => profiles | inl _ => [] end)
        | _ => mret []
        end;
      mret {| twr_trip := tripData;
              twr_organizer :=
                match orgRes with
                | inr organizerProfile => profile_view organizerProfile
                | inl _ => anonymous_organizer (organizer_id tripData)
                end;
              twr_participants :=
                (λ participant,
                   {| re_participant := participant;
                      re_user_profiles :=
                        from_option profile_view anonymous_user
                          (find_profile (tp_user_id participant) participantProfiles) |})
                <$> match partRes with inr participantsData => participantsData | inl _ => [] end |}
  end.

(** What the trip page keeps of it in [tripData]. *)
Definition page_data (loaded : TripWithRoster) : TripPageData :=
  {| tpd_trip := twr_trip loaded;
     tpd_participants := re_participant <$> twr_participants loaded |}.

(** ** The other upload policies ([StorageService]) *)

Definition post_image_options (userId : string) : UploadOptions :=
  {| bucket := buckets_posts;
     folder := Some userId;
     maxSize := Some (40 * 1024 * 1024);
     allowedTypes := Some ["image/jpeg"; "image/png"; "image/webp"] |}.

Definition uploadPostImage {B : Backend} (file : File) (userId : string)
    : Client UploadResult :=
  uploadFile file (post_image_options userId) (Some userId).

Definition story_media_options (userId : string) : UploadOptions :=
  {| bucket := buckets_stories;
     folder := Some userId;
     maxSize := Some (50 * 1024 * 1024);
     allowedTypes := Some ["image/jpeg"; "image/png"; "image/webp"; "video/mp4"] |}.

Definition uploadStoryMedia {B : Backend} (file : File) (userId : string)
    : Client UploadResult :=
  uploadFile file (story_media_options userId) (Some userId).

Definition chat_media_options (userId : string) : UploadOptions :=
  {| bucket := buckets_chat;
     folder := Some userId;
     maxSize := Some (25 * 1024 * 1024);
     allowedTypes :=
       Some ["image/jpeg"; "image/png"; "image/webp"; "video/mp4"; "application/pdf"] |}.

Definition uploadChatMedia {B : Backend} (file : File) (userId : string)
    : Client UploadResult :=
  uploadFile file (chat_media_options userId) (Some userId).

Definition trip_image_options (userId : string) : UploadOptions :=
  {| bucket := buckets_trips;
     folder := Some userId;
     maxSize := Some (10 * 1024 * 1024);
     allowedTypes := Some ["image/jpeg"; "image/png"; "image/webp"] |}.

Definition uploadTripImage {B : Backend} (file : File) (userId : string)
    : Client UploadResult :=
  uploadFile file (trip_image_options userId) (Some userId).

Definition bike_image_options (userId : string) : UploadOptions :=
  {| bucket := buckets_bikes;
     folder := Some userId;
     maxSize := Some (10 * 1024 * 1024);
     allowedTypes := Some ["image/jpeg"; "image/png"; "image/webp"] |}.

Definition uploadBikeImage {B : Backend} (file : File) (userId : string)
    : Client UploadResult :=
  uploadFile file (bike_image_options userId) (Some userId).

(** [isValidImage], [isValidVideo] *)
Definition isValidImage (file : File) : bool :=
  bool_decide (file_type file ∈ ["image/jpeg"; "image/png"; "image/webp"]).

Definition isValidVideo (file : File) : bool :=
  bool_decide (file_type file ∈ ["video/mp4"; "video/webm"; "video/ogg"]).

(** ** Utilities ([authService.formatTimeAgo]) *)

(** [date] is the time a valid [dateString] denotes and [now] the clock, both
    in milliseconds; [None] is an invalid date. *)
Definition formatTimeAgo (now : Z) (date : option Z) : string :=
  match date with
  | None => "NaNd ago"
  | Some date =>
      let diffInSeconds := (now - date) `div` 1000 in
      if diffInSeconds <? 60 then pretty diffInSeconds +:+ "s ago"
      else if diffInSeconds <? 3600 then pretty (diffInSeconds `div` 60) +:+ "m ago"
      else if diffInSeconds <? 86400 then pretty (diffInSeconds `div` 3600) +:+ "h ago"
      else pretty (diffInSeconds `div` 86400) +:+ "d ago"
  end.

(** ** The dashboard ([Dashboard.tsx]) *)

(** A trip as [getPublicTrips] hands it to the page: the row and the
    organizer merged into it. *)
Record TripCard := { tc_trip : GroupTrip; tc_organizer : ProfileView }.

Record Dashboard := {
  dash_user : option string;
  dash_posts : list FeedPost;
  dash_postsLoading : bool;
  dash_postOffset : Z;
  dash_hasMorePosts : bool;
  dash_likedPosts : gmap string bool;
  dash_postLikeCounts : gmap string Z;
  dash_discoverTrips : list TripCard;
  dash_toasts : list Toast
}.

Definition dash_toast (t : Toast) (d : Dashboard) : Dashboard :=
  {| dash_user := dash_user d;
     dash_posts := dash_posts d;
     dash_postsLoading := dash_postsLoading d;
     dash_postOffset := dash_postOffset d;
     dash_hasMorePosts := dash_hasMorePosts d;
     dash_likedPosts := dash_likedPosts d;
     dash_postLikeCounts := dash_postLikeCounts d;
     dash_discoverTrips := dash_discoverTrips d;
     dash_toasts := dash_toasts d ++ [t] |}.


Definition set_likedPosts (f : gmap string bool → gmap string bool) (d : Dashboard)
    : Dashboard :=
  {| dash_user := dash_user d;
     dash_posts := dash_posts d;
     dash_postsLoading := dash_postsLoading d;
     dash_postOffset := dash_postOffset d;
     dash_hasMorePosts := dash_hasMorePosts d;
     dash_likedPosts := f (dash_likedPosts d);
     dash_postLikeCounts := dash_postLikeCounts d;
     dash_discoverTrips := dash_discoverTrips d;
     dash_toasts := dash_toasts d |}.

Definition set_postLikeCounts (f : gmap string Z → gmap string Z) (d : Dashboard)
    : Dashboard :=
  {| dash_user := dash_user d;
     dash_posts := dash_posts d;
     dash_postsLoading := dash_postsLoading d;
     dash_postOffset := dash_postOffset d;
     dash_hasMorePosts := dash_hasMorePosts d;
     dash_likedPosts := dash_likedPosts d;
     dash_postLikeCounts := f (dash_postLikeCounts d);
     dash_discoverTrips := dash_discoverTrips d;
     dash_toasts := dash_toasts d |}.

(** The fields [loadMorePosts] sets besides the like maps. *)
Definition set_feed (posts : list FeedPost) (loading : bool) (offset : Z) (more : bool)
    (d : Dashboard) : Dashboard :=
  {| dash_user := dash_user d;
     dash_posts := posts;
     dash_postsLoading := loading;
     dash_postOffset := offset;
     dash_hasMorePosts := more;
     dash_likedPosts := dash_likedPosts d;
     dash_postLikeCounts := dash_postLikeCounts d;
     dash_discoverTrips := dash_discoverTrips d;
     dash_toasts := dash_toasts d |}.




(** [fetchLikeCount]: the number of likes of a post, 0 when the count fails. *)
Definition likes_of_post (postId : string) (tb : Tables) : list PostLike :=
  filter (λ l, like_post_id l = postId) (post_likes tb).

Definition fetchLikeCount {B : Backend} (postId : string) : Client Z :=
  res ← select_count "post_likes" (likes_of_post postId);
  mret (count_or_0 res).

(** [Promise.all(postIds.map(id => fetchLikeCount(id)))] *)
Fixpoint fetchLikeCounts {B : Backend} (postIds : list string) : Client (list Z) :=
  match postIds with
  | [] => mret []
  | id :: rest =>
      n ← fetchLikeCount id;
      ns ← fetchLikeCounts rest;
      mret (n :: ns)
  end.

Definition handleLike {B : Backend} (postId : string) (d : Dashboard) (w : World)
    : Dashboard * World :=
  match dash_user d with
  | None => (d, w)
  | Some user =>
      match togglePostLike user postId w with
      | (inr isLiked, w1) =>
          match fetchLikeCount postId w1 with
          | (inr updatedCount, w2) =>
              (dash_toast
                 {| toast_title := if isLiked then "Liked!" else "Unliked";
                    toast_description :=
                      if isLiked then "Added to your favorite adventures."
                      else "Removed from favorites.";
                    toast_destructive := false |}
                 (set_postLikeCounts (λ m, <[postId := updatedCount]> m)
                    (set_likedPosts (λ m, <[postId := isLiked]> m) d)),
               w2)
          | (inl _, w2) =>
              (dash_toast {| toast_title := "Error";
                             toast_description := "Failed to update like status";
                             toast_destructive := true |}
                 (set_likedPosts (λ m, <[postId := isLiked]> m) d),
               w2)
          end
      | (inl _, w1) =>
          (dash_toast {| toast_title := "Error";
                         toast_description := "Failed to update like status";
                         toast_destructive := true |} d,
           w1)
      end
  end.

Definition shown_ids (posts : list FeedPost) : list string :=
  (λ post, post_id (fp_post post)) <$> posts.

(** The posts of a page whose id is not among those of [prev]. *)
Definition uniqueNewPosts (prev newPosts : list FeedPost) : list FeedPost :=
  filter (λ post, post_id (fp_post post) ∉ shown_ids prev) newPosts.

(** [postIds.forEach((id, index) => { map[id] = counts[index] })] *)
Definition like_count_map (postIds : list string) (counts : list Z) : gmap string Z :=
  foldl (λ m ic, <[ic.1 := ic.2]> m) ∅ (zip postIds counts).

(** [loadMorePosts] as the page runs it.  Its only caller is [handleScroll],
    which [useCallback] rebuilds when [postsLoading] changes and at no other
    time; the [loadMorePosts] it calls is the one of the render in which it
    was built.  [seen] is the state of that render: the function reads
    [user], [postsLoading], [hasMorePosts], [postOffset] and [posts] from it.
    [d] is the state when the call is made: the setters update it, and the
    functional updates [setPosts(prev => ...)] and [setPostOffset(prev => ...)]
    get its values as [prev]. *)
Definition loadMorePosts {B : Backend} (seen d : Dashboard) (w : World)
    : Dashboard * World :=
  match dash_user seen with
  | None => (d, w)
  | Some user =>
      if dash_postsLoading seen || negb (dash_hasMorePosts seen) then (d, w)
      else
        match getGlobalFeed 10 (dash_postOffset seen) w with
        | (inl _, w1) =>
            (set_feed (dash_posts d) false (dash_postOffset d) (dash_hasMorePosts d) d, w1)
        | (inr [], w1) => (set_feed (dash_posts d) false (dash_postOffset d) false d, w1)
        | (inr newPosts, w1) =>
            let d1 :=
              set_feed (dash_posts d ++ uniqueNewPosts (dash_posts d) newPosts) false
                (dash_postOffset d + 10) (dash_hasMorePosts d) d in
            match shown_ids (uniqueNewPosts (dash_posts seen) newPosts) with
            | [] => (d1, w1)
            | postIds =>
                match getPostLikeStatus user postIds w1 with
                | (inl _, w2) => (d1, w2)
                | (inr likesStatus, w2) =>
                    let d2 := set_likedPosts (λ prev, likesStatus ∪ prev) d1 in
                    match fetchLikeCounts postIds w2 with
                    | (inl _, w3) => (d2, w3)
                    | (inr newLikeCounts, w3) =>
                        (set_postLikeCounts
                           (λ prev, like_count_map postIds newLikeCounts ∪ prev) d2,
                         w3)
                    end
                end
            end
        end
  end.

(** ** The public profile page ([handleFollow]) *)

Record ProfilePage := {
  pp_currentUser : option string;
  pp_profile : option UserProfile;
  pp_userStats : option UserStats;
  pp_isFollowing : bool;
  pp_followLoading : bool;
  pp_toasts : list Toast
}.

(** The page after the [try] block went through: [delta] is what the local
    follower figure moves by. *)
Definition follow_settled (following : bool) (delta : Z) (t : Toast) (pg : ProfilePage)
    : ProfilePage :=
  {| pp_currentUser := pp_currentUser pg;
     pp_profile := pp_profile pg;
     pp_userStats :=
       (λ s, {| followers_count := followers_count s + delta;
                following_count := following_count s |}) <$> pp_userStats pg;
     pp_isFollowing := following;
     pp_followLoading := false;
     pp_toasts := pp_toasts pg ++ [t] |}.

Definition follow_failed (pg : ProfilePage) : ProfilePage :=
  {| pp_currentUser := pp_currentUser pg;
     pp_profile := pp_profile pg;
     pp_userStats := pp_userStats pg;
     pp_isFollowing := pp_isFollowing pg;
     pp_followLoading := false;
     pp_toasts :=
       pp_toasts pg ++
       [{| toast_title := "Error";
           toast_description := "Failed to update follow status. Please try again.";
           toast_destructive := true |}] |}.

Definition handleFollow {B : Backend} (pg : ProfilePage) (w : World) : ProfilePage * World :=
  match pp_currentUser pg, pp_profile pg with
  | Some currentUser, Some profile =>
      if pp_isFollowing pg then
        match unfollowUser (profile_user_id profile) w with
        | (inr _, w') =>
            (follow_settled false (-1)
               {| toast_title := "Unfollowed";
                  toast_description :=
                    "You are no longer following " +:+ display_name profile;
                  toast_destructive := false |} pg,
             w')
        | (inl _, w') => (follow_failed pg, w')
        end
      else
        match followUser (profile_user_id profile) w with
        | (inr _, w') =>
            (follow_settled true 1
               {| toast_title := "Following";
                  toast_description := "You are now following " +:+ display_name profile;
                  toast_destructive := false |} pg,
             w')
        | (inl _, w') => (follow_failed pg, w')
        end
  | _, _ => (pg, w)
  end.

(** ** Text the client libraries keep as it is *)

(** A path without empty folders: it does not begin or end with "/" and has
    no "//".  The storage client stores and answers such a path unchanged. *)
Fixpoint no_empty_folder (p : string) : bool :=
  match p with
  | EmptyString => true
  | String c rest =>
      match rest with
      | EmptyString => negb (Ascii.eqb c "/")
      | String d _ =>
          negb (Ascii.eqb c "/" && Ascii.eqb d "/") && no_empty_folder rest
      end
  end.

Definition clean_path (p : string) : bool :=
  match p with
  | EmptyString => true
  | String c _ => negb (Ascii.eqb c "/")
  end
  && no_empty_folder p.

Fixpoint occurs_in (c : ascii) (s : string) : bool :=
  match s with
  | EmptyString => false
  | String d rest => Ascii.eqb c d || occurs_in c rest
  end.

(** The characters [encodeURI] does not escape: letters, digits, and the
    marks and reserved characters of a URI. *)
Definition uri_unescaped (c : ascii) : bool :=
  let n := Z.of_nat (nat_of_ascii c) in
  ((48 <=? n) && (n <=? 57)) || ((65 <=? n) && (n <=? 90)) || ((97 <=? n) && (n <=? 122))
  || occurs_in c ";/?:@&=+$,-_.!~*'()#".

Fixpoint uri_plain (s : string) : bool :=
  match s with
  | EmptyString => true
  | String c rest => uri_unescaped c && uri_plain rest
  end.

(** Text of ASCII characters. *)
Fixpoint ascii_text (s : string) : bool :=
  match s with
  | EmptyString => true
  | String c rest => (Z.of_nat (nat_of_ascii c) <? 128) && ascii_text rest
  end.

(** ** Further sample worlds *)

(** Nobody is signed in; Alice's ride has a free place. *)
Definition visitor_at_the_ride : World :=
  {| tables := ride_tables "open" 2 1 [enrolled "alice" "pending"];
     session := None;
     trace := [] |}.

(** Bob holds two records of the ride. *)
Definition bob_enrolled_twice : World :=
  signed_in "bob"
    (ride_tables "open" 4 3
       [enrolled "alice" "pending"; enrolled "bob" "joined"; enrolled "bob" "active"]).



Definition dashboard_of (user : string) (cards : list TripCard) : Dashboard :=
  {| dash_user := Some user;
     dash_posts := [];
     dash_postsLoading := false;
     dash_postOffset := 0;
     dash_hasMorePosts := true;
     dash_likedPosts := ∅;
     dash_postLikeCounts := ∅;
     dash_discoverTrips := cards;
     dash_toasts := [] |}.

(** The trip page as Carol loaded it when a place was still free. *)
Definition carols_page : TripPage :=
  {| page_user := Some "carol";
     page_tripData :=
       Some {| tpd_trip := alices_ride "open" 2 1;
               tpd_participants := [enrolled "alice" "pending"] |};
     page_isJoined := false;
     page_isOrganizer := false;
     page_joinLoading := false;
     page_toasts := [] |}.

(** Bob follows Carol, Alice follows nobody; Carol's stored counters are
    stale. *)
Definition stale_counters : World :=
  signed_in "alice"
    (set_user_stats (λ _, {["carol" := {| followers_count := 7; following_count := 7 |}]})
       (set_user_followers (λ _, [{| follower_id := "bob"; following_id := "carol" |}])
          no_tables)).

(** A backend on which the count queries fail and nothing else does. *)
Definition count_blind_backend : Backend :=
  {| fault := λ tb r,
       match r with
       | Count _ => Some network_failure
       | _ => None
       end;
     default_status := "pending";
     new_trip := @new_trip (constrained_backend []);
     supabaseUrl := "https://project.supabase.co";
     date_now := λ tr, 1700000000000 + Z.of_nat (length tr);
     random_string := λ tr, "k3x9q" |}.

(** Carol's public profile as Alice sees it, with exact figures. *)
Definition carols_profile_page : ProfilePage :=
  {| pp_currentUser := Some "alice";
     pp_profile :=
       Some {| profile_user_id := "carol";
               username := "carol";
               display_name := "Carol";
               avatar_url := None |};
     pp_userStats := Some {| followers_count := 1; following_count := 0 |};
     pp_isFollowing := false;
     pp_followLoading := false;
     pp_toasts := [] |}.

(** Alice and Bob like post 7; Bob also likes post 9. *)
Definition likes_on_two_posts : World :=
  signed_in "alice"
    (set_post_likes
       (λ _, [{| like_user_id := "alice"; like_post_id := "post-7" |};
              {| like_user_id := "bob"; like_post_id := "post-7" |};
              {| like_user_id := "bob"; like_post_id := "post-9" |}])
       no_tables).

(** Three posts, one of them private; Alice has a profile, Dave has none. *)
Definition post_of (id author : string) (public : bool) (at_ : Z) : UserPost :=
  {| post_id := id;
     post_user_id := author;
     caption := "On the road";
     is_public := public;
     created_at := at_ |}.

Definition alices_profile : UserProfile :=
  {| profile_user_id := "alice";
     username := "alice";
     display_name := "Alice";
     avatar_url := None |}.

Definition three_posts : World :=
  signed_in "alice"
    {| group_trips := [];
       trip_participants := [];
       user_followers := [];
       user_stats := ∅;
       post_likes := [{| like_user_id := "alice"; like_post_id := "post-3" |}];
       user_posts :=
         [post_of "post-1" "alice" true 100;
          post_of "post-2" "alice" false 200;
          post_of "post-3" "dave" true 300];
       user_profiles := [alices_profile];
       media_files := [];
       storage_objects := [];
       trip_chat_messages := [] |}.

(** The feed item [getGlobalFeed] builds for a post when both reads are
    answered. *)
Definition feed_item (tb : Tables) (post : UserPost) : FeedPost :=
  {| fp_post := post;
     fp_user_profiles :=
       from_option profile_view anonymous_user
         (find_profile (post_user_id post) (user_profiles tb)) |}.

(** A backend that refuses the requests [bad] picks, and no others. *)
Definition refusing (bad : Request → bool) : Backend :=
  {| fault := λ tb r, if bad r then Some network_failure else None;
     default_status := "pending";
     new_trip := @new_trip (constrained_backend []);
     supabaseUrl := "https://project.supabase.co";
     date_now := λ tr, 1700000000000 + Z.of_nat (length tr);
     random_string := λ tr, "k3x9q" |}.


Definition is_insert (r : Request) : bool :=
  match r with Insert _ => true | _ => false end.

Definition small_photo : File :=
  {| file_name := "ride.day1.png"; file_size := 2 * 1024 * 1024; file_type := "image/png" |}.

Definition short_clip : File :=
  {| file_name := "clip.webm"; file_size := 3 * 1024 * 1024; file_type := "video/webm" |}.

(** The name and the path [uploadFile] gives the object. *)
Definition upload_name {B : Backend} (file : File) (w : World) : string :=
  pretty (date_now (trace w)) +:+ "_" +:+ random_string (trace w) +:+ "."
  +:+ after_last_dot (file_name file) "".

Definition upload_path {B : Backend} (file : File) (options : UploadOptions) (userId : option string)
    (w : World) : string :=
  or_else (folder options) (or_else userId "uploads") +:+ "/" +:+ upload_name file w.

Definition is_participant_insert (r : Request) : bool :=
  match r with InsertParticipant _ => true | _ => false end.

Definition coast_road : TripData :=
  {| td_title := "Coast road"; td_maxParticipants := "2" |}.

(** The reads of one table. *)
Definition is_select_of (table : string) (r : Request) : bool :=
  match r with Select t => String.eqb t table | _ => false end.




(** The dashboard of Alice after its first load of [three_posts]: the first
    page is shown and the offset is 10; the like entries were taken before
    Alice liked post 3. *)
Definition first_page_shown : Dashboard :=
  {| dash_user := Some "alice";
     dash_posts :=
       feed_item (tables three_posts) <$> public_posts_page 10 0 (tables three_posts);
     dash_postsLoading := false;
     dash_postOffset := 10;
     dash_hasMorePosts := true;
     dash_likedPosts := {["post-3" := false; "post-1" := false]};
     dash_postLikeCounts := {["post-3" := 0; "post-1" := 0]};
     dash_discoverTrips := [];
     dash_toasts := [] |}.

(** * Proofs *)

(** ** The monad and the requests *)

Lemma bind_value {A C} (m : Client A) (f : A → Client C) w x w' :
  m w = (inr x, w') → (m ≫= f) w = f x w'.
Proof. intros Hm. unfold mbind, client_bind. by rewrite Hm. Qed.

Lemma bind_thrown {A C} (m : Client A) (f : A → Client C) w t w' :
  m w = (inl t, w') → (m ≫= f) w = (inl t, w').
Proof. intros Hm. unfold mbind, client_bind. by rewrite Hm. Qed.

Lemma request_refused {B : Backend} {A} r (run : Tables → (PostgrestError + A) * Tables) w e :
  fault (tables w) r = Some e → request r run w = (inr (inl e), log r w).
Proof. intros Hf. unfold request. by rewrite Hf. Qed.

Lemma request_admitted {B : Backend} {A} r (run : Tables → (PostgrestError + A) * Tables) w :
  fault (tables w) r = None →
  request r run w =
    (inr (run (tables w)).1, log r (with_tables (λ _, (run (tables w)).2) w)).
Proof. intros Hf. unfold request. rewrite Hf. by destruct (run (tables w)). Qed.

Lemma request_trace {B : Backend} {A} r (run : Tables → (PostgrestError + A) * Tables) w :
  trace (request r run w).2 = trace w ++ [r].
Proof.
  unfold request. destruct (fault (tables w) r); [done|].
  by destruct (run (tables w)).
Qed.

Lemma String_eqb_true (a b : string) : String.eqb a b = true ↔ a = b.
Proof. apply String.eqb_eq. Qed.

Lemma String_eqb_false (a b : string) : String.eqb a b = false ↔ a ≠ b.
Proof. apply String.eqb_neq. Qed.

(** ** The join loop *)

Section negotiation.
Context `{B : Backend}.
Variables tripId user : string.

Lemma attempt_refused label w e :
  fault (tables w) (attempt tripId user label) = Some e →
  insert_participant
    {| pi_trip_id := tripId; pi_user_id := user; pi_status := Some label |} w
  = (inr (inl e), log (attempt tripId user label) w).
Proof. intros Hf. unfold insert_participant. by apply request_refused. Qed.

Lemma attempt_admitted label w :
  fault (tables w) (attempt tripId user label) = None →
  insert_participant
    {| pi_trip_id := tripId; pi_user_id := user; pi_status := Some label |} w
  = (inr (inr (joined_as tripId user label)),
     log (attempt tripId user label)
       (with_tables (set_trip_participants (λ l, l ++ [joined_as tripId user label])) w)).
Proof.
  intros Hf. unfold insert_participant.
  rewrite request_admitted by exact Hf. reflexivity.
Qed.

(** Labels refused by the check constraint are passed over: the loop goes
    on with the remaining ones, and only the trace has grown. *)
Lemma try_statuses_skip tried rest acc w :
  Forall (validation_rejected (tables w) tripId user) tried →
  tried = [] ∧ try_statuses tripId user (tried ++ rest) acc w
               = try_statuses tripId user rest acc w
  ∨ ∃ e, code e = "23514" ∧
      try_statuses tripId user (tried ++ rest) acc w
      = try_statuses tripId user rest (Some e)
          {| tables := tables w; session := session w;
             trace := trace w ++ (attempt tripId user <$> tried) |}.
Proof.
  revert acc w. induction tried as [|label tried IH]; intros acc w Hrej.
  - left. done.
  - right. apply Forall_cons in Hrej as [(e & Hf & He) Hrej].
    cbn [app try_statuses].
    erewrite bind_value by (apply attempt_refused; exact Hf).
    cbv beta iota. rewrite He.
    change (negb (String.eqb "23514" "23514")) with false. cbv iota.
    destruct (IH (Some e) (log (attempt tripId user label) w)) as [[-> Heq]|(e' & He' & Heq)].
    + exact Hrej.
    + exists e. split; [done|]. rewrite Heq. reflexivity.
    + exists e'. split; [done|]. rewrite Heq. f_equal.
      unfold log; cbn. by rewrite <- app_assoc.
Qed.
End negotiation.

Lemma surface_validation tripId e : code e = "23514" → surface tripId e = StatusConstraint.
Proof. intros He. unfold surface. rewrite He. reflexivity. Qed.

Lemma surface_other tripId e :
  code e ≠ "23514" →
  surface tripId e = PgError e ∨ (code e = "23503" ∧ surface tripId e = TripMissing tripId).
Proof.
  intros He. unfold surface.
  destruct (String.eqb (code e) "23503" && _) eqn:Hfk.
  - right. apply andb_true_iff in Hfk as [Hc _]. by apply String_eqb_true in Hc.
  - left. apply String_eqb_false in He. by rewrite He.
Qed.

(** [joinTrip] once its checks have passed. *)
Lemma joinTrip_after_preconditions {B : Backend} tripId w user w0 :
  join_preconditions tripId w = (inr user, w0) →
  joinTrip tripId w =
    match try_statuses tripId user statusValues None w0 with
    | (inl t, w') => (inl t, w')
    | (inr (Some data, _), w') => (inr data, w')
    | (inr (None, Some e), w') => (inl (surface tripId e), w')
    | (inr (None, None), w') =>
        (inl (JsError "Cannot read properties of null (reading 'code')"), w')
    end.
Proof.
  intros Hpre. unfold joinTrip, mbind, client_bind. rewrite Hpre.
  destruct (try_statuses tripId user statusValues None w0) as [[t|[[data|] [e|]]] w'];
    reflexivity.
Qed.

Section join_outcomes.
Context `{B : Backend}.
Variables (tripId : string) (w : World) (user : string) (w0 : World).
Hypothesis Hpre : join_preconditions tripId w = (inr user, w0).

Lemma statuses_up_to tried label rest :
  Forall (validation_rejected (tables w0) tripId user) tried →
  ∃ acc,
    try_statuses tripId user (tried ++ label :: rest) None w0
    = try_statuses tripId user (label :: rest) acc
        {| tables := tables w0; session := session w0;
           trace := trace w0 ++ (attempt tripId user <$> tried) |}.
Proof.
  intros Hrej.
  destruct (try_statuses_skip tripId user tried (label :: rest) None w0 Hrej)
    as [[-> Heq]|(e & _ & Heq)].
  - exists None. rewrite Heq. cbn. rewrite app_nil_r. by destruct w0.
  - by exists (Some e).
Qed.

Lemma joinTrip_admitted_label tried label rest :
  statusValues = tried ++ label :: rest →
  Forall (validation_rejected (tables w0) tripId user) tried →
  fault (tables w0) (attempt tripId user label) = None →
  joinTrip tripId w
  = (inr (joined_as tripId user label),
     after_attempts tripId user tried label
       (set_trip_participants (λ l, l ++ [joined_as tripId user label])) w0).
Proof.
  intros Hsplit Hrej Hok.
  destruct (statuses_up_to tried label rest Hrej) as [acc Hloop].
  rewrite (joinTrip_after_preconditions _ _ _ _ Hpre), Hsplit, Hloop.
  cbn [try_statuses]. erewrite bind_value by (apply attempt_admitted; exact Hok).
  cbn. unfold after_attempts. by rewrite fmap_app, app_assoc.
Qed.

Lemma joinTrip_refused_label tried label rest e :
  statusValues = tried ++ label :: rest →
  Forall (validation_rejected (tables w0) tripId user) tried →
  fault (tables w0) (attempt tripId user label) = Some e →
  code e ≠ "23514" →
  joinTrip tripId w
  = (inl (surface tripId e), after_attempts tripId user tried label id w0).
Proof.
  intros Hsplit Hrej Hf Hcode.
  destruct (statuses_up_to tried label rest Hrej) as [acc Hloop].
  rewrite (joinTrip_after_preconditions _ _ _ _ Hpre), Hsplit, Hloop.
  cbn [try_statuses]. erewrite bind_value by (apply attempt_refused; exact Hf).
  cbv beta iota. apply String_eqb_false in Hcode. rewrite Hcode.
  cbn. unfold after_attempts. by rewrite fmap_app, app_assoc.
Qed.

Lemma joinTrip_all_rejected :
  Forall (validation_rejected (tables w0) tripId user) statusValues →
  joinTrip tripId w
  = (inl StatusConstraint,
     {| tables := tables w0; session := session w0;
        trace := trace w0 ++ (attempt tripId user <$> statusValues) |}).
Proof.
  intros Hrej.
  destruct (try_statuses_skip tripId user statusValues [] None w0 Hrej)
    as [[Hnil _]|(e & He & Heq)]; [discriminate|].
  rewrite app_nil_r in Heq.
  rewrite (joinTrip_after_preconditions _ _ _ _ Hpre), Heq. cbn.
  by rewrite (surface_validation tripId e He).
Qed.
End join_outcomes.

(** C1. When the client-side checks of [joinTrip] pass, the insert is
    attempted with the labels of [statusValues] in their order.  Whatever
    labels come first and are refused by the check constraint (code 23514),
    the first label the backend admits ends the loop with that label's row
    returned and stored; the first label refused for another reason ends the
    loop with that failure thrown (as it is, or reworded when it is the
    foreign key on the trip) and no later label tried; and when all four are
    refused by the check constraint, the status-validation error is thrown. *)
Theorem joinTrip_status_negotiation {B : Backend} (tripId : string) (w : World)
    (user : string) (w0 : World) :
  join_preconditions tripId w = (inr user, w0) →
  (∀ tried label rest,
      statusValues = tried ++ label :: rest →
      Forall (validation_rejected (tables w0) tripId user) tried →
      (fault (tables w0) (attempt tripId user label) = None →
       ∃ w', joinTrip tripId w = (inr (joined_as tripId user label), w')
             ∧ trace w' = trace w0 ++ (attempt tripId user <$> tried ++ [label])
             ∧ trip_participants (tables w')
               = trip_participants (tables w0) ++ [joined_as tripId user label])
      ∧ (∀ e, fault (tables w0) (attempt tripId user label) = Some e →
              code e ≠ "23514" →
         ∃ t w', joinTrip tripId w = (inl t, w')
                 ∧ (t = PgError e ∨ (code e = "23503" ∧ t = TripMissing tripId))
                 ∧ trace w' = trace w0 ++ (attempt tripId user <$> tried ++ [label])
                 ∧ tables w' = tables w0))
  ∧ (Forall (validation_rejected (tables w0) tripId user) statusValues →
     ∃ w', joinTrip tripId w = (inl StatusConstraint, w')
           ∧ trace w' = trace w0 ++ (attempt tripId user <$> statusValues)
           ∧ tables w' = tables w0).
Proof.
  intros Hpre. split.
  - intros tried label rest Hsplit Hrej. split.
    + intros Hok. eexists. split.
      * by apply joinTrip_admitted_label with (w0 := w0) (rest := rest).
      * done.
    + intros e Hf Hcode. exists (surface tripId e). eexists. split.
      * by apply joinTrip_refused_label with (w0 := w0) (rest := rest).
      * split; [|done].
        destruct (surface_other tripId e Hcode) as [->|[Hc ->]]; auto.
  - intros Hrej. eexists. split.
    + by apply joinTrip_all_rejected with (user := user) (w0 := w0).
    + done.
Qed.

Lemma joinTrip_status_negotiation_witness :
  join_preconditions (B := constrained_backend ["accepted"]) "ride-1" bob_at_the_ride
  = (inr "bob",
     (join_preconditions (B := constrained_backend ["accepted"])
        "ride-1" bob_at_the_ride).2)
  ∧ ∃ w', joinTrip (B := constrained_backend ["accepted"]) "ride-1" bob_at_the_ride
          = (inr (joined_as "ride-1" "bob" "accepted"), w')
          ∧ trace w'
            = [AuthGetUser; Select "group_trips"; Select "trip_participants";
               Select "group_trips"; attempt "ride-1" "bob" "joined";
               attempt "ride-1" "bob" "confirmed"; attempt "ride-1" "bob" "accepted"].
Proof.
  split; [reflexivity|].
  destruct (joinTrip_status_negotiation (B := constrained_backend ["accepted"])
              "ride-1" bob_at_the_ride "bob" _ eq_refl) as [Hfirst _].
  destruct (Hfirst ["joined"; "confirmed"] "accepted" ["active"] eq_refl) as [Hok _].
  - repeat constructor; exists check_violation; split; reflexivity.
  - destruct (Hok eq_refl) as (w' & Hjoin & Htrace & _).
    exists w'. split; [exact Hjoin|exact Htrace].
Defined.

(** A refusal that is not a check-constraint violation ends the loop at
    once: "accepted" would be admitted, and is never tried. *)
Example joinTrip_stops_at_other_failure :
  (joinTrip (B := flaky_backend "confirmed") "ride-1" bob_at_the_ride).1
  = inl (PgError network_failure)
  ∧ trace (joinTrip (B := flaky_backend "confirmed") "ride-1" bob_at_the_ride).2
    = [AuthGetUser; Select "group_trips"; Select "trip_participants";
       Select "group_trips"; attempt "ride-1" "bob" "joined";
       attempt "ride-1" "bob" "confirmed"]
  ∧ fault (Backend := flaky_backend "confirmed") (tables bob_at_the_ride)
      (attempt "ride-1" "bob" "accepted") = None.
Proof. split; [reflexivity|]. split; reflexivity. Qed.

(** The foreign key on the trip is reworded. *)
Example surface_foreign_key :
  surface "ride-1" foreign_key_violation = TripMissing "ride-1"
  ∧ surface "ride-1" unique_violation = PgError unique_violation.
Proof. split; reflexivity. Qed.

(** Two worlds that differ in the bracketing of their traces only. *)
Ltac closes_trace :=
  unfold throw, mret, client_ret, log; cbn [tables session trace];
  by rewrite <- ?app_assoc.

(** ** Reads on a backend that answers them *)

Section reliable_reads.
Context {B : Backend} {RR : ReliableReads B}.

Lemma getUser_reliable w : getUser w = (inr (session w), log AuthGetUser w).
Proof. unfold getUser. by rewrite read_admitted. Qed.

Lemma select_single_reliable {A} table (rows : Tables → list A) w :
  select_single table rows w = (inr (single (rows (tables w))), log (Select table) w).
Proof. unfold select_single. by rewrite request_admitted by by apply read_admitted. Qed.

Lemma select_rows_reliable {A} table (rows : Tables → list A) w :
  select_rows table rows w = (inr (inr (rows (tables w))), log (Select table) w).
Proof. unfold select_rows. by rewrite request_admitted by by apply read_admitted. Qed.

Lemma select_count_reliable {A} table (rows : Tables → list A) w :
  select_count table rows w
  = (inr (inr (Z.of_nat (length (rows (tables w))))), log (Count table) w).
Proof. unfold select_count. by rewrite request_admitted by by apply read_admitted. Qed.

Lemma join_preconditions_reliable tripId w :
  ∃ tr, join_preconditions tripId w
        = (join_verdict tripId w,
           {| tables := tables w; session := session w; trace := trace w ++ tr |}).
Proof.
  unfold join_preconditions, join_verdict.
  erewrite bind_value by apply getUser_reliable.
  destruct w as [tb [user|] tr0]; cbn [session tables trace log];
    [|by exists [AuthGetUser]].
  erewrite bind_value by apply select_single_reliable. cbn [tables log session trace].
  destruct (single (trips_by_id tripId tb)) as [e|trip] eqn:Htrip;
    [exists [AuthGetUser; Select "group_trips"]; closes_trace|].
  destruct (negb _); [exists [AuthGetUser; Select "group_trips"]; closes_trace|].
  destruct (_ <=? _); [exists [AuthGetUser; Select "group_trips"]; closes_trace|].
  erewrite bind_value by apply select_single_reliable. cbn [tables log session trace].
  destruct (single (participations tripId user tb)) as [e|p].
  - erewrite bind_value by apply select_single_reliable.
    cbn [tables log session trace]. rewrite Htrip.
    exists [AuthGetUser; Select "group_trips"; Select "trip_participants";
            Select "group_trips"].
    closes_trace.
  - exists [AuthGetUser; Select "group_trips"; Select "trip_participants"].
    closes_trace.
Qed.

Lemma joinTrip_check_failed tripId w t :
  join_verdict tripId w = inl t →
  (joinTrip tripId w).1 = inl t ∧ tables (joinTrip tripId w).2 = tables w.
Proof.
  intros Hv. destruct (join_preconditions_reliable tripId w) as [tr Hpre].
  rewrite Hv in Hpre. unfold joinTrip.
  erewrite bind_thrown by exact Hpre. done.
Qed.
End reliable_reads.




(** C4 (as amended). On a backend that answers the reads, when the
    signed-in caller already has exactly one record for the trip, [joinTrip]
    throws and leaves every table as it was, so no second record is created;
    the error is AlreadyJoined when the trip is found, open and below
    capacity (a missing, closed or full trip is reported first). *)
Theorem joinTrip_again {B : Backend} {RR : ReliableReads B}
    (tripId : string) (w : World) (user : string) (p : TripParticipant) :
  session w = Some user →
  participations tripId user (tables w) = [p] →
  tables (joinTrip tripId w).2 = tables w
  ∧ ∃ t, (joinTrip tripId w).1 = inl t
         ∧ ∀ trip, trips_by_id tripId (tables w) = [trip] →
                   trip_status trip = "open" →
                   current_participants trip < max_participants trip →
                   t = AlreadyJoined.
Proof.
  intros Hs Hp.
  assert (Hv : ∃ t, join_verdict tripId w = inl t
               ∧ ∀ trip, trips_by_id tripId (tables w) = [trip] →
                         trip_status trip = "open" →
                         current_participants trip < max_participants trip →
                         t = AlreadyJoined).
  { unfold join_verdict. rewrite Hs, Hp. cbn [single].
    destruct (single (trips_by_id tripId (tables w))) as [e|trip] eqn:Ht.
    - eexists. split; [done|]. intros trip Ht'. rewrite Ht' in Ht. discriminate.
    - destruct (negb _) eqn:Ho.
      + eexists. split; [done|]. intros trip' Ht' Ho'. rewrite Ht' in Ht.
        injection Ht as <-. rewrite Ho' in Ho. discriminate.
      + destruct (_ <=? _) eqn:Hc.
        * eexists. split; [done|]. intros trip' Ht' _ Hc'. rewrite Ht' in Ht.
          injection Ht as <-. apply Z.leb_le in Hc. lia.
        * eexists. split; done. }
  destruct Hv as (t & Hv & Ht).
  destruct (joinTrip_check_failed tripId w t Hv) as [Hres Htb].
  split; [exact Htb|]. by exists t.
Qed.

Global Instance constrained_backend_reads allowed : ReliableReads (constrained_backend allowed).
Proof. intros tb [] Hr; try discriminate Hr; reflexivity. Qed.

Global Instance plain_backend_reliable : Reliable plain_backend.
Proof. intros tb r. reflexivity. Qed.

Global Instance reliable_reads {B : Backend} {R : Reliable B} : ReliableReads B.
Proof. intros tb r _. apply no_fault. Qed.



Lemma joinTrip_again_witness :
  tables (joinTrip (B := plain_backend) "ride-1" bob_on_the_ride).2 = tables bob_on_the_ride
  ∧ (joinTrip (B := plain_backend) "ride-1" bob_on_the_ride).1 = inl AlreadyJoined.
Proof.
  destruct (joinTrip_again (B := plain_backend) "ride-1" bob_on_the_ride "bob"
              (enrolled "bob" "joined") eq_refl eq_refl) as (Htb & t & Hres & Hwhich).
  split; [exact Htb|].
  rewrite Hres. f_equal.
  apply (Hwhich (alices_ride "open" 3 2) eq_refl eq_refl). cbn. lia.
Defined.

(** C4, as stated, fails when the ride has filled up: Bob, who holds the last
    place, is told that the trip is full, not that he has joined already.
    It fails for a caller who holds two records: the lookup of the record
    asks for a single row, its error is only logged, and a third record is
    inserted.  And it fails when the backend refuses that lookup: Bob, who
    holds one record, gets a second one. *)
Lemma joinTrip_again_counterexample :
  (participations "ride-1" "bob" (tables bob_on_the_full_ride) = [enrolled "bob" "joined"]
   ∧ (joinTrip (B := plain_backend) "ride-1" bob_on_the_full_ride).1 = inl Full
   ∧ (joinTrip (B := plain_backend) "ride-1" bob_on_the_full_ride).1 ≠ inl AlreadyJoined)
  ∧ (participations "ride-1" "bob" (tables bob_enrolled_twice)
     = [enrolled "bob" "joined"; enrolled "bob" "active"]
     ∧ (joinTrip (B := plain_backend) "ride-1" bob_enrolled_twice).1
       = inr (joined_as "ride-1" "bob" "joined")
     ∧ participations "ride-1" "bob"
         (tables (joinTrip (B := plain_backend) "ride-1" bob_enrolled_twice).2)
       = [enrolled "bob" "joined"; enrolled "bob" "active"; enrolled "bob" "joined"])
  ∧ (participations "ride-1" "bob" (tables bob_on_the_ride) = [enrolled "bob" "joined"]
     ∧ (joinTrip (B := refusing (is_select_of "trip_participants")) "ride-1"
          bob_on_the_ride).1
       = inr (joined_as "ride-1" "bob" "joined")
     ∧ participations "ride-1" "bob"
         (tables (joinTrip (B := refusing (is_select_of "trip_participants")) "ride-1"
                    bob_on_the_ride).2)
       = [enrolled "bob" "joined"; enrolled "bob" "joined"]).
Proof.
  split; [|split].
  - split; [reflexivity|]. split; [reflexivity|].
    intros Heq. vm_compute in Heq. discriminate Heq.
  - split; [reflexivity|]. split; reflexivity.
  - split; [reflexivity|]. split; reflexivity.
Qed.

(** ** Requests on a backend that refuses nothing *)

Section reliable.
Context {B : Backend} {R : Reliable B}.

Lemma request_reliable {A} r (run : Tables → (PostgrestError + A) * Tables) w :
  request r run w = (inr (run (tables w)).1, moved_to (run (tables w)).2 [r] w).
Proof. rewrite request_admitted by apply no_fault. reflexivity. Qed.

Lemma delete_rows_reliable table upd w :
  delete_rows table upd w = (inr (inr ()), moved_to (upd (tables w)) [Delete table] w).
Proof. unfold delete_rows. by rewrite request_reliable. Qed.

Lemma refresh_counters_reliable user followingId w :
  refresh_counters user followingId w
  = (inr (),
     moved_to (refreshed user followingId (tables w))
       [Count "user_followers"; Upsert "user_stats";
        Count "user_followers"; Upsert "user_stats"] w).
Proof.
  unfold refresh_counters.
  erewrite bind_value by apply select_count_reliable.
  erewrite bind_value by (unfold upsert_followers_count; apply request_reliable).
  erewrite bind_value by apply select_count_reliable.
  erewrite bind_value by (unfold upsert_following_count; apply request_reliable).
  unfold mret, client_ret, moved_to, refreshed, log. cbn.
  by rewrite <- !app_assoc.
Qed.

(** [followUser], by the number of edges from the caller to the target. *)
Lemma followUser_reliable followingId w user :
  session w = Some user →
  ∃ tr,
    followUser followingId w =
      match follows user followingId (tables w) with
      | [] =>
          (inr {| follower_id := user; following_id := followingId |},
           moved_to
             (refreshed user followingId
                (set_user_followers
                   (λ l, l ++ [{| follower_id := user; following_id := followingId |}])
                   (tables w)))
             tr w)
      | [_] => (inl (JsError "Already following this user"), moved_to (tables w) tr w)
      | _ => (inl (PgError unique_violation), moved_to (tables w) tr w)
      end.
Proof.
  intros Hs. unfold followUser.
  erewrite bind_value by apply getUser_reliable. rewrite Hs. cbv beta iota.
  erewrite bind_value by apply select_single_reliable. cbn [tables log].
  destruct (follows user followingId (tables w)) as [|x [|y l]] eqn:Hf; cbn [single].
  - erewrite bind_value by (unfold insert_follow; apply request_reliable).
    cbn [tables log moved_to follower_id following_id]. rewrite Hf. cbn [fst snd].
    erewrite bind_value by apply refresh_counters_reliable.
    eexists [_; _; _; _; _; _; _]. unfold mret, client_ret, moved_to, log. cbn.
    by rewrite <- !app_assoc.
  - exists [AuthGetUser; Select "user_followers"]. closes_trace.
  - erewrite bind_value by (unfold insert_follow; apply request_reliable).
    cbn [tables log moved_to follower_id following_id]. rewrite Hf. cbn [fst snd].
    exists [AuthGetUser; Select "user_followers"; Insert "user_followers"].
    unfold moved_to. closes_trace.
Qed.

(** [unfollowUser], likewise. *)
Lemma unfollowUser_reliable followingId w user :
  session w = Some user →
  ∃ tr,
    unfollowUser followingId w =
      match follows user followingId (tables w) with
      | [_] =>
          (inr true,
           moved_to
             (refreshed user followingId
                (set_user_followers (filter (λ f, ¬ is_follow user followingId f))
                   (tables w)))
             tr w)
      | _ => (inl (JsError "Not following this user"), moved_to (tables w) tr w)
      end.
Proof.
  intros Hs. unfold unfollowUser.
  erewrite bind_value by apply getUser_reliable. rewrite Hs. cbv beta iota.
  erewrite bind_value by apply select_single_reliable. cbn [tables log].
  destruct (follows user followingId (tables w)) as [|x [|y l]] eqn:Hf; cbn [single].
  - exists [AuthGetUser; Select "user_followers"]. closes_trace.
  - erewrite bind_value by apply delete_rows_reliable. cbv beta iota.
    erewrite bind_value by apply refresh_counters_reliable.
    eexists [_; _; _; _; _; _; _]. unfold mret, client_ret, moved_to, log. cbn.
    by rewrite <- !app_assoc.
  - exists [AuthGetUser; Select "user_followers"]. closes_trace.
Qed.
End reliable.

(** ** Counting follow edges *)

Lemma followers_after_insert P e tb :
  follower_count P (set_user_followers (λ l, l ++ [e]) tb)
  = follower_count P tb + (if decide (following_id e = P) then 1 else 0).
Proof.
  unfold follower_count, followers_of. cbn [user_followers set_user_followers].
  rewrite filter_app, length_app, filter_cons, filter_nil.
  case_decide; cbn [length]; lia.
Qed.

Lemma filter_follow_split user Q P (l : list UserFollower) :
  (length (filter (λ f, following_id f = P) (filter (λ f, ¬ is_follow user Q f) l))
   + (if decide (Q = P) then length (filter (is_follow user Q) l) else 0))%nat
  = length (filter (λ f, following_id f = P) l).
Proof.
  induction l as [|f l IH]; [by case_decide|].
  rewrite !(filter_cons _ f).
  destruct (decide (is_follow user Q f)) as [[Hu HQ]|Hn].
  - rewrite decide_False by (intros Hneg; apply Hneg; by split).
    destruct (decide (Q = P)) as [->|HQP].
    + rewrite decide_True by done. cbn [length]. lia.
    + rewrite decide_False by congruence. lia.
  - rewrite decide_True by done. rewrite filter_cons.
    destruct (decide (following_id f = P)); cbn [length]; lia.
Qed.

Lemma followers_after_delete user Q P x tb :
  follows user Q tb = [x] →
  follower_count P (set_user_followers (filter (λ f, ¬ is_follow user Q f)) tb)
  = follower_count P tb - (if decide (Q = P) then 1 else 0).
Proof.
  intros Hx. unfold follower_count, followers_of.
  cbn [user_followers set_user_followers].
  pose proof (filter_follow_split user Q P (user_followers tb)) as Hsplit.
  unfold follows in Hx. rewrite Hx in Hsplit. cbn [length] in Hsplit.
  case_decide; lia.
Qed.

Lemma stored_followers_refreshed P user Q tb :
  stored_followers P (refreshed user Q tb)
  = if decide (P = Q) then Some (follower_count Q tb)
    else if decide (P = user)
         then Some (from_option followers_count 0 (user_stats tb !! user))
         else stored_followers P tb.
Proof.
  unfold stored_followers, refreshed. cbn [user_stats set_user_stats].
  destruct (decide (P = user)) as [->|HPu].
  - rewrite lookup_insert_eq. cbn.
    destruct (decide (user = Q)) as [->|HuQ]; [by rewrite lookup_insert_eq|].
    by rewrite lookup_insert_ne.
  - rewrite lookup_insert_ne by done.
    destruct (decide (P = Q)) as [->|HPQ]; [by rewrite lookup_insert_eq|].
    by rewrite lookup_insert_ne.
Qed.

Lemma stored_following_refreshed user Q tb :
  stored_following user (refreshed user Q tb) = Some (followed_count user tb).
Proof.
  unfold stored_following, refreshed. cbn [user_stats set_user_stats].
  by rewrite lookup_insert_eq.
Qed.

(** A refresh makes both touched counters exact, whatever was stored. *)
Lemma refreshed_exact user Q tb :
  stored_followers Q (refreshed user Q tb) = Some (follower_count Q (refreshed user Q tb))
  ∧ stored_following user (refreshed user Q tb)
    = Some (followed_count user (refreshed user Q tb)).
Proof.
  split.
  - rewrite stored_followers_refreshed. rewrite decide_True by done. reflexivity.
  - rewrite stored_following_refreshed. reflexivity.
Qed.


Section follow_calls.
Context {B : Backend} {R : Reliable B}.
Variable user : string.




End follow_calls.





(** ** Likes *)



Lemma likes_after_insert u p e tb :
  likes u p (set_post_likes (λ ls, ls ++ [e]) tb)
  = likes u p tb ++ (if decide (is_like u p e) then [e] else []).
Proof.
  unfold likes. cbn [post_likes set_post_likes].
  rewrite filter_app, filter_cons, filter_nil. by case_decide.
Qed.

Lemma likes_after_delete u p userId postId tb :
  likes u p (set_post_likes (filter (λ l, ¬ is_like userId postId l)) tb)
  = if decide (u = userId ∧ p = postId) then [] else likes u p tb.
Proof.
  unfold likes. cbn [post_likes set_post_likes].
  induction (post_likes tb) as [|l ls IH]; [by case_decide|].
  rewrite (filter_cons (λ l, ¬ is_like userId postId l)).
  destruct (decide (is_like userId postId l)) as [Hl|Hl].
  - rewrite decide_False by tauto. rewrite IH.
    case_decide as Hup; [done|].
    rewrite filter_cons, decide_False; [done|].
    destruct Hl as [Hu Hp]. intros [Hu' Hp']. apply Hup. split; congruence.
  - rewrite decide_True by done. rewrite !filter_cons, IH.
    destruct (decide (is_like u p l)) as [Hup|Hup]; [|done].
    case_decide as Heq; [|done]. destruct Heq as [-> ->]. contradiction.
Qed.

Lemma togglePostLike_reliable {B : Backend} {R : Reliable B} userId postId w :
  ∃ tr,
    togglePostLike userId postId w =
      match likes userId postId (tables w) with
      | [_] =>
          (inr false,
           moved_to (set_post_likes (filter (λ l, ¬ is_like userId postId l)) (tables w))
             tr w)
      | _ =>
          (inr true,
           moved_to
             (set_post_likes
                (λ ls, ls ++ [{| like_user_id := userId; like_post_id := postId |}])
                (tables w))
             tr w)
      end.
Proof.
  unfold togglePostLike.
  erewrite bind_value by apply select_single_reliable. cbn [tables log].
  destruct (likes userId postId (tables w)) as [|x [|y l]] eqn:Hl; cbn [single].
  - erewrite bind_value by (unfold insert_like; apply request_reliable).
    exists [Select "post_likes"; Insert "post_likes"]. unfold moved_to. closes_trace.
  - erewrite bind_value by apply delete_rows_reliable.
    exists [Select "post_likes"; Delete "post_likes"]. unfold moved_to. closes_trace.
  - erewrite bind_value by (unfold insert_like; apply request_reliable).
    exists [Select "post_likes"; Insert "post_likes"]. unfold moved_to. closes_trace.
Qed.




(** ** The feed *)

Lemma public_posts_page_public limit offset tb :
  Forall (λ p, is_public p = true ∧ p ∈ user_posts tb) (public_posts_page limit offset tb).
Proof.
  unfold public_posts_page, range, newest_first.
  apply Forall_take, Forall_drop.
  rewrite merge_sort_Permutation.
  apply Forall_forall. intros p Hp. by apply list_elem_of_filter in Hp.
Qed.

(** C7. Whatever the backend answers, and for every limit and offset,
    [getGlobalFeed] returns a list, and every post of that list is a stored
    post whose [is_public] flag is set. *)
Theorem getGlobalFeed_public_only {B : Backend} (limit offset : Z) (w : World) :
  ∃ feed,
    (getGlobalFeed limit offset w).1 = inr feed
    ∧ Forall (λ fp, is_public (fp_post fp) = true ∧ fp_post fp ∈ user_posts (tables w))
             feed.
Proof.
  unfold getGlobalFeed, select_rows.
  destruct (fault (tables w) (Select "user_posts")) as [e|] eqn:Hposts.
  - erewrite bind_value by (apply request_refused; exact Hposts).
    exists []. split; [done|constructor].
  - erewrite bind_value by (apply request_admitted; exact Hposts). cbn [fst snd].
    pose proof (public_posts_page_public limit offset (tables w)) as Hpub.
    destruct (public_posts_page limit offset (tables w)) as [|post posts] eqn:Hpage.
    + exists []. split; [done|constructor].
    + set (postsData := post :: posts) in *.
      set (w1 := log _ _).
      destruct (fault (tables w1) (Select "user_profiles")) as [e|] eqn:Hprof.
      * erewrite bind_value by (apply request_refused; exact Hprof).
        eexists. split; [reflexivity|].
        apply Forall_fmap. eapply Forall_impl; [exact Hpub|]. by intros p [? ?].
      * erewrite bind_value by (apply request_admitted; exact Hprof).
        eexists. split; [reflexivity|].
        apply Forall_fmap. eapply Forall_impl; [exact Hpub|]. by intros p [? ?].
Qed.

(** ** Uploads *)

Example formatFileSize_samples :
  formatFileSize 0 = "0 Bytes"
  ∧ formatFileSize 1536 = "1.5 KB"
  ∧ formatFileSize 1100 = "1.07 KB"
  ∧ formatFileSize (40 * 1024 * 1024) = "40 MB".
Proof. repeat split; vm_compute; reflexivity. Qed.

Example after_last_dot_samples :
  after_last_dot "me.holiday.png" "" = "png" ∧ after_last_dot "README" "" = "README".
Proof. split; reflexivity. Qed.

Lemma avatar_limit_formatted : formatFileSize (10 * 1024 * 1024) = "10 MB".
Proof. vm_compute. reflexivity. Qed.

(** C8. A file larger than the 10 MB of the avatar options is turned down by
    [uploadAvatar] with the message "File size exceeds 10 MB limit" and empty
    [url] and [path]; the world is the one before the call: no request was
    sent, no object stored, no metadata row written. *)
Theorem uploadAvatar_size_limit {B : Backend} (file : File) (userId : string) (w : World) :
  10 * 1024 * 1024 < file_size file →
  uploadAvatar file userId w
  = (inr {| url := ""; path := ""; error := Some "File size exceeds 10 MB limit" |}, w).
Proof.
  intros Hbig. unfold uploadAvatar, uploadFile.
  cbn [maxSize avatar_options from_option id].
  rewrite (proj2 (Z.ltb_lt _ _) Hbig).
  change (negb (10 * 1024 * 1024 =? 0)) with true. cbn [andb].
  rewrite avatar_limit_formatted. reflexivity.
Qed.

Lemma uploadAvatar_size_limit_witness :
  10 * 1024 * 1024 < file_size large_photo
  ∧ uploadAvatar (B := plain_backend) large_photo "alice" alice_alone
    = (inr {| url := ""; path := ""; error := Some "File size exceeds 10 MB limit" |},
       alice_alone).
Proof.
  assert (Hbig : 10 * 1024 * 1024 < file_size large_photo) by (cbn; lia).
  split; [exact Hbig|].
  exact (uploadAvatar_size_limit (B := plain_backend) large_photo "alice" alice_alone Hbig).
Defined.

(** ** Leaving a trip *)

Lemma filter_out_none {A} (P : A → Prop) `{∀ x, Decision (P x)} (l : list A) :
  filter P (filter (λ x, ¬ P x) l) = [].
Proof.
  induction l as [|x l IH]; [done|].
  rewrite (filter_cons (λ x, ¬ P x)).
  destruct (decide (P x)) as [HP|HP].
  - by rewrite decide_False by tauto.
  - rewrite decide_True by done. by rewrite filter_cons, decide_False.
Qed.

Lemma leaveTrip_reliable {B : Backend} {R : Reliable B} tripId w user :
  session w = Some user →
  leaveTrip tripId w
  = (inr true,
     moved_to
       (set_trip_participants (filter (λ p, ¬ is_participation tripId user p)) (tables w))
       [AuthGetUser; Delete "trip_participants"] w).
Proof.
  intros Hs. unfold leaveTrip.
  erewrite bind_value by apply getUser_reliable. rewrite Hs. cbv beta iota.
  erewrite bind_value by apply delete_rows_reliable.
  unfold moved_to. closes_trace.
Qed.



(** ** Creating a trip *)

Example parseInt_samples :
  parseInt "12" = Some 12
  ∧ parseInt " 42px" = Some 42
  ∧ parseInt "-7" = Some (-7)
  ∧ parseInt "0x1f" = Some 31
  ∧ parseInt "" = None
  ∧ parseInt "many" = None.
Proof. repeat split; reflexivity. Qed.

(** An empty capacity field becomes 10. *)
Example trip_payload_default_capacity :
  ti_max_participants (trip_payload "alice" {| td_title := "Coast road";
                                               td_maxParticipants := "" |})
  = Some 10.
Proof. reflexivity. Qed.

(** C10 (as amended). When [createTrip] returns a trip, it has sent, after
    the session lookup and the trip insert, exactly one insert into
    [trip_participants]: for the organizer and the new trip, without a
    [status].  The answer of that insert is not looked at.  When the backend
    admits it, the roster gains exactly one record, which carries the column
    default as its status; and that record is among the rows of the
    status-filtered query of [getUserJoinedTrips] exactly when the default
    is one of the labels of that query. *)
Theorem createTrip_enrols_organizer {B : Backend}
    (tripData : TripData) (w : World) (data : GroupTrip) (w' : World) :
  createTrip tripData w = (inr data, w') →
  ∃ user,
    session w = Some user
    ∧ trace w'
      = trace w ++ [AuthGetUser; Insert "group_trips";
                    InsertParticipant (organizer_enrolment data user)]
    ∧ organizer_enrolment data user
      = {| pi_trip_id := trip_id data; pi_user_id := user; pi_status := None |}
    ∧ (fault (set_group_trips (λ l, l ++ [data]) (tables w))
             (InsertParticipant (organizer_enrolment data user)) = None →
       trip_participants (tables w')
       = trip_participants (tables w) ++ [organizer_record data user]
       ∧ (organizer_record data user
            ∈ user_participations_in getUserJoinedTrips_statuses user (tables w')
          ↔ default_status ∈ getUserJoinedTrips_statuses)).
Proof.
  intros Hc. unfold createTrip, mbind, client_bind, getUser in Hc.
  destruct (fault (tables w) AuthGetUser) as [e|]; [discriminate Hc|].
  destruct (session w) as [user|] eqn:Hs; [|discriminate Hc].
  exists user. split; [done|].
  unfold insert_trip, request in Hc. cbn [tables log] in Hc.
  destruct (fault (tables w) (Insert "group_trips")) as [e|]; [discriminate Hc|].
  set (row := new_trip (tables w) (trip_payload user tripData)) in *.
  unfold insert_participant, request in Hc. cbn [tables log with_tables] in Hc.
  destruct (fault _ (InsertParticipant (organizer_enrolment row user))) as [e|] eqn:Hf;
    cbn in Hc; injection Hc as <- <-;
    unfold log, with_tables; cbn [trace tables session].
  - split; [by rewrite <- !app_assoc|]. split; [done|].
    intros Hok. rewrite Hok in Hf. discriminate Hf.
  - split; [by rewrite <- !app_assoc|]. split; [done|].
    intros _. split; [done|].
    unfold user_participations_in. cbn [tables trip_participants set_trip_participants].
    rewrite list_elem_of_filter. cbn [organizer_record tp_user_id tp_status participant_row
      organizer_enrolment pi_status pi_user_id pi_trip_id from_option id].
    split.
    + by intros [[_ Hin] _].
    + intros Hin. split; [done|]. apply elem_of_app. right. apply list_elem_of_here.
Qed.

Lemma createTrip_enrols_organizer_witness :
  let run := createTrip (B := plain_backend)
               {| td_title := "Coast road"; td_maxParticipants := "2" |} alice_alone in
  ∃ data,
    run.1 = inr data
    ∧ trip_participants (tables run.2)
      = [{| tp_trip_id := trip_id data; tp_user_id := "alice"; tp_status := "pending" |}]
    ∧ trace run.2
      = [AuthGetUser; Insert "group_trips";
         InsertParticipant
           {| pi_trip_id := trip_id data; pi_user_id := "alice"; pi_status := None |}].
Proof.
  intros run.
  destruct (createTrip_enrols_organizer (B := plain_backend)
              {| td_title := "Coast road"; td_maxParticipants := "2" |} alice_alone
              (new_trip no_tables (trip_payload "alice"
                 {| td_title := "Coast road"; td_maxParticipants := "2" |}))
              run.2 eq_refl)
    as (user & Hs & Htrace & Hpayload & Hrow).
  injection Hs as <-.
  eexists. split; [reflexivity|].
  destruct (Hrow eq_refl) as [Hrows _].
  split; [exact Hrows|exact Htrace].
Defined.

(** C10, as stated, fails when the backend refuses the enrolment: the call
    returns the trip all the same, the insert for the organizer was sent,
    and the roster holds no record for her. *)
Lemma createTrip_enrols_organizer_counterexample :
  ∃ data,
    (createTrip (B := refusing is_participant_insert) coast_road alice_alone).1 = inr data
    ∧ trace (createTrip (B := refusing is_participant_insert) coast_road alice_alone).2
      = [AuthGetUser; Insert "group_trips";
         InsertParticipant (organizer_enrolment data "alice")]
    ∧ trip_participants
        (tables (createTrip (B := refusing is_participant_insert) coast_road
                   alice_alone).2) = [].
Proof.
  eexists. split; [reflexivity|]. split; reflexivity.
Qed.

(** ** What a join leaves behind, and who can read it *)

Lemma try_statuses_success {B : Backend} tripId user labels acc w0 row ie w' :
  try_statuses tripId user labels acc w0 = (inr (Some row, ie), w') →
  ∃ label,
    label ∈ labels
    ∧ row = joined_as tripId user label
    ∧ tables w' = set_trip_participants (λ l, l ++ [row]) (tables w0)
    ∧ session w' = session w0.
Proof.
  revert acc w0. induction labels as [|label labels IH]; intros acc w0 Hrun.
  - discriminate Hrun.
  - cbn [try_statuses] in Hrun.
    unfold mbind, client_bind, insert_participant, request in Hrun.
    destruct (fault (tables w0) _) as [e|].
    + destruct (negb (String.eqb (code e) "23514")); [discriminate Hrun|].
      destruct (IH _ _ Hrun) as (l & Hl & Hrow & Htb & Hs).
      exists l. split; [by apply list_elem_of_further|]. done.
    + cbn in Hrun. injection Hrun as <- _ <-.
      exists label. split; [apply list_elem_of_here|]. done.
Qed.

Lemma joinTrip_success {B : Backend} {RR : ReliableReads B} tripId w user row w' :
  session w = Some user →
  joinTrip tripId w = (inr row, w') →
  ∃ label trip,
    label ∈ statusValues
    ∧ row = joined_as tripId user label
    ∧ trips_by_id tripId (tables w) = [trip]
    ∧ tables w' = set_trip_participants (λ l, l ++ [row]) (tables w)
    ∧ session w' = Some user.
Proof.
  intros Hs Hjoin.
  destruct (join_preconditions_reliable tripId w) as [tr Hpre].
  destruct (join_verdict tripId w) as [t|user'] eqn:Hv.
  { unfold joinTrip in Hjoin. erewrite bind_thrown in Hjoin by exact Hpre.
    discriminate Hjoin. }
  assert (user' = user ∧ ∃ trip, trips_by_id tripId (tables w) = [trip]) as [-> [trip Ht]].
  { unfold join_verdict in Hv. rewrite Hs in Hv.
    destruct (trips_by_id tripId (tables w)) as [|trip [|trip' l]]; cbn [single] in Hv;
      try discriminate Hv.
    destruct (negb _); [discriminate Hv|]. destruct (_ <=? _); [discriminate Hv|].
    destruct (single _); [|discriminate Hv]. injection Hv as <-. eauto. }
  rewrite (joinTrip_after_preconditions _ _ _ _ Hpre) in Hjoin.
  destruct (try_statuses _ _ _ _ _) as [[t|[[data|] [e|]]] w1] eqn:Hrun;
    try discriminate Hjoin.
  - injection Hjoin as -> ->.
    destruct (try_statuses_success _ _ _ _ _ _ _ _ Hrun) as (label & Hl & Hrow & Htb & Hs').
    exists label, trip. by rewrite Hs' .
  - injection Hjoin as -> ->.
    destruct (try_statuses_success _ _ _ _ _ _ _ _ Hrun) as (label & Hl & Hrow & Htb & Hs').
    exists label, trip. by rewrite Hs'.
Qed.

Lemma filter_and_nil {A} (P Q : A → Prop) `{∀ x, Decision (P x)} `{∀ x, Decision (Q x)}
    (l : list A) :
  filter P l = [] → filter (λ x, P x ∧ Q x) l = [].
Proof.
  induction l as [|x l IH]; [done|]. rewrite !filter_cons.
  destruct (decide (P x)); [discriminate|]. intros Hl.
  rewrite decide_False by tauto. by apply IH.
Qed.

Lemma statusValues_readable label :
  label ∈ statusValues → label ∈ getUserJoinedTrips_statuses.
Proof.
  unfold statusValues, getUserJoinedTrips_statuses. rewrite !elem_of_cons.
  rewrite !elem_of_nil. tauto.
Qed.

Lemma joined_trip_listed {B : Backend} {RR : ReliableReads B} user w row trip :
  row ∈ user_participations_in getUserJoinedTrips_statuses user (tables w) →
  trip ∈ group_trips (tables w) →
  trip_id trip = tp_trip_id row →
  ∃ trips, (getUserJoinedTrips user w).1 = inr trips ∧ trip ∈ jt_trip <$> trips.
Proof.
  intros Hrow Htrip Hid. unfold getUserJoinedTrips.
  erewrite bind_value by apply select_rows_reliable. cbn [tables log].
  destruct (user_participations_in _ user (tables w)) as [|p ps] eqn:Hps;
    [by apply elem_of_nil in Hrow|].
  erewrite bind_value by apply select_rows_reliable. cbn [tables log].
  erewrite bind_value by apply select_rows_reliable. cbn [tables log].
  eexists. split; [reflexivity|].
  rewrite <- list_fmap_compose.
  apply list_elem_of_fmap. exists trip. split; [done|].
  unfold trips_in. apply list_elem_of_filter. split; [|done].
  rewrite Hid. by apply list_elem_of_fmap_2.
Qed.

(** C3. The three reads that filter participation by status
    ([sendTripMessage], [getUserJoinedTrips] and the development helper
    [debugChatPermission]) use the five labels "joined", "confirmed",
    "accepted", "active", "pending"; every label of the write side is among
    them.  So, on a backend that answers reads, the record a successful
    [joinTrip] made for a caller who had none is found by the status-filtered
    query of [getUserJoinedTrips], the trip is in the list that function
    returns, and the permission checks of the trip chat answer yes. *)
Theorem status_reads_cover_writes {B : Backend} {RR : ReliableReads B} :
  (sendTripMessage_statuses = statusValues ++ ["pending"]
   ∧ getUserJoinedTrips_statuses = statusValues ++ ["pending"]
   ∧ debugChatPermission_statuses = statusValues ++ ["pending"])
  ∧ ∀ tripId w user row w',
      session w = Some user →
      participations tripId user (tables w) = [] →
      joinTrip tripId w = (inr row, w') →
      tp_status row ∈ statusValues
      ∧ row ∈ user_participations_in getUserJoinedTrips_statuses user (tables w')
      ∧ (∃ trips trip,
           (getUserJoinedTrips user w').1 = inr trips
           ∧ trip_id trip = tripId
           ∧ trip ∈ jt_trip <$> trips)
      ∧ (canSendMessage tripId user w').1 = inr true
      ∧ (debugChatPermission tripId w').1 = inr (Some true).
Proof.
  split; [done|].
  intros tripId w user row w' Hs Hnew Hjoin.
  destruct (joinTrip_success tripId w user row w' Hs Hjoin)
    as (label & trip & Hlabel & -> & Htrip & Htb & Hs').
  assert (Hrow : joined_as tripId user label
                 ∈ user_participations_in getUserJoinedTrips_statuses user (tables w')).
  { unfold user_participations_in. rewrite Htb.
    cbn [trip_participants set_trip_participants].
    apply list_elem_of_filter. split.
    - split; [done|]. by apply statusValues_readable.
    - apply elem_of_app. right. apply list_elem_of_here. }
  assert (Hchat : participations_in sendTripMessage_statuses tripId user (tables w')
                  = [joined_as tripId user label]).
  { unfold participations_in. rewrite Htb.
    cbn [trip_participants set_trip_participants].
    rewrite filter_app, filter_cons, filter_nil.
    rewrite (filter_and_nil (is_participation tripId user)) by exact Hnew.
    rewrite decide_True; [done|].
    split; [done|]. by apply statusValues_readable. }
  split; [done|]. split; [exact Hrow|]. split; [|split].
  - assert (Hin : trip ∈ group_trips (tables w')).
    { rewrite Htb. cbn [group_trips set_trip_participants].
      assert (Hin : trip ∈ trips_by_id tripId (tables w))
        by (rewrite Htrip; apply list_elem_of_here).
      unfold trips_by_id in Hin. by apply list_elem_of_filter in Hin as [_ ?]. }
    assert (Hid : trip_id trip = tripId).
    { assert (Hin' : trip ∈ trips_by_id tripId (tables w))
        by (rewrite Htrip; apply list_elem_of_here).
      unfold trips_by_id in Hin'. by apply list_elem_of_filter in Hin' as [? _]. }
    destruct (joined_trip_listed user w' _ trip Hrow Hin Hid) as (trips & Hres & Hlisted).
    by exists trips, trip.
  - unfold canSendMessage.
    erewrite bind_value by apply select_single_reliable. cbn [tables log].
    erewrite bind_value by apply select_single_reliable.
    by rewrite Hchat.
  - unfold debugChatPermission.
    erewrite bind_value by apply getUser_reliable. rewrite Hs'. cbv beta iota.
    erewrite bind_value by apply select_single_reliable. cbn [tables log].
    erewrite bind_value by apply select_single_reliable.
    change debugChatPermission_statuses with sendTripMessage_statuses.
    by rewrite Hchat.
Qed.

Lemma status_reads_cover_writes_witness :
  ∃ row w',
    joinTrip (B := constrained_backend ["active"]) "ride-1" bob_at_the_ride = (inr row, w')
    ∧ tp_status row = "active"
    ∧ row ∈ user_participations_in getUserJoinedTrips_statuses "bob" (tables w')
    ∧ (canSendMessage (B := constrained_backend ["active"]) "ride-1" "bob" w').1 = inr true.
Proof.
  eexists _, _. split; [reflexivity|]. split; [reflexivity|].
  destruct (status_reads_cover_writes (B := constrained_backend ["active"])) as [_ Hvis].
  destruct (Hvis "ride-1" bob_at_the_ride "bob" _ _ eq_refl eq_refl eq_refl)
    as (_ & Hrow & _ & Hchat & _).
  split; [exact Hrow|exact Hchat].
Defined.

(** * Further properties *)

(** ** What any backend leaves of a call *)

Section frames.
Context {B : Backend}.

Lemma getUser_frame w :
  ∃ user, getUser w = (inr user, log AuthGetUser w) ∧ (user = None ∨ user = session w).
Proof.
  unfold getUser. destruct (fault (tables w) AuthGetUser); eauto.
Qed.

Lemma getUser_signed_out w :
  session w = None → getUser w = (inr None, log AuthGetUser w).
Proof.
  intros Hs. unfold getUser. rewrite Hs. by destruct (fault (tables w) AuthGetUser).
Qed.

Lemma select_single_frame {A} table (rows : Tables → list A) w :
  ∃ res, select_single table rows w = (inr res, log (Select table) w).
Proof.
  unfold select_single, request. destruct (fault (tables w) (Select table)); eauto.
Qed.

Lemma select_rows_frame {A} table (rows : Tables → list A) w :
  ∃ res, select_rows table rows w = (inr res, log (Select table) w).
Proof.
  unfold select_rows, request. destruct (fault (tables w) (Select table)); eauto.
Qed.

Lemma select_count_frame {A} table (rows : Tables → list A) w :
  ∃ res, select_count table rows w = (inr res, log (Count table) w).
Proof.
  unfold select_count, request. destruct (fault (tables w) (Count table)); eauto.
Qed.

(** The checks of [joinTrip] only read; when they pass, the caller is the
    one of the session. *)
Lemma join_preconditions_frame tripId w :
  tables (join_preconditions tripId w).2 = tables w
  ∧ session (join_preconditions tripId w).2 = session w
  ∧ ∀ user, (join_preconditions tripId w).1 = inr user → session w = Some user.
Proof.
  unfold join_preconditions.
  destruct (getUser_frame w) as (u & Hu & Hwho). erewrite bind_value by exact Hu.
  destruct u as [user|]; [|by cbn].
  destruct Hwho as [?|Hwho]; [done|].
  destruct (select_single_frame "group_trips" (trips_by_id tripId) (log AuthGetUser w))
    as (tripRes & Ht).
  erewrite bind_value by exact Ht.
  destruct tripRes as [e|trip]; [by cbn|].
  destruct (negb _); [by cbn|]. destruct (_ <=? _); [by cbn|].
  destruct (select_single_frame "trip_participants" (participations tripId user)
              (log (Select "group_trips") (log AuthGetUser w))) as (checkRes & Hc).
  erewrite bind_value by exact Hc.
  destruct checkRes as [e|p]; [|by cbn].
  destruct (select_single_frame "group_trips" (trips_by_id tripId)
              (log (Select "trip_participants")
                 (log (Select "group_trips") (log AuthGetUser w)))) as (verifyRes & Hv).
  erewrite bind_value by exact Hv.
  destruct verifyRes as [e'|trip']; cbn; [done|]. split; [done|]. split; [done|].
  by intros ? [= <-].
Qed.

(** The loop never throws; without a row, it has written nothing. *)
Lemma try_statuses_nothing tripId user labels acc w0 :
  match (try_statuses tripId user labels acc w0).1 with
  | inl _ => False
  | inr (Some _, _) => True
  | inr (None, _) =>
      tables (try_statuses tripId user labels acc w0).2 = tables w0
  end.
Proof.
  revert acc w0. induction labels as [|label labels IH]; intros acc w0; [done|].
  cbn [try_statuses]. unfold mbind, client_bind, insert_participant, request.
  destruct (fault (tables w0) _) as [e|]; [|done].
  destruct (negb (String.eqb (code e) "23514")); [done|].
  specialize (IH (Some e)
    (log (InsertParticipant
            {| pi_trip_id := tripId; pi_user_id := user; pi_status := Some label |}) w0)).
  by destruct (try_statuses _ _ _ _ _) as [[t|[[row|] ie]] w'].
Qed.
End frames.

(** X1. Whatever the backend does, [joinTrip] writes at most one thing.  When
    it returns, the tables are the ones before with the returned record
    added to the roster; that record is for the requested trip and the
    signed-in caller, and its status is one of the four candidate labels.
    When it throws, every table is as it was. *)
Theorem joinTrip_writes_one_record {B : Backend} (tripId : string) (w : World) :
  match (joinTrip tripId w).1 with
  | inr row =>
      tables (joinTrip tripId w).2 = set_trip_participants (λ l, l ++ [row]) (tables w)
      ∧ tp_trip_id row = tripId
      ∧ session w = Some (tp_user_id row)
      ∧ tp_status row ∈ statusValues
  | inl _ => tables (joinTrip tripId w).2 = tables w
  end.
Proof.
  destruct (join_preconditions_frame tripId w) as (Htb & Hs & Hwho).
  destruct (join_preconditions tripId w) as [[t|user] w0] eqn:Hpre.
  - unfold joinTrip. erewrite bind_thrown by exact Hpre. exact Htb.
  - rewrite (joinTrip_after_preconditions _ _ _ _ Hpre).
    pose proof (try_statuses_nothing tripId user statusValues None w0) as Hnone.
    destruct (try_statuses tripId user statusValues None w0)
      as [[t|[[row|] ie]] w'] eqn:Hrun; cbn [fst snd] in *.
    + done.
    + destruct (try_statuses_success _ _ _ _ _ _ _ _ Hrun)
        as (label & Hl & -> & Htb' & _).
      rewrite Htb', Htb. cbn. by rewrite (Hwho user eq_refl).
    + destruct ie; cbn; congruence.
Qed.

(** X2. Without a session, the calls that change something stop after the
    session lookup: they throw "User not authenticated", send no other
    request and leave the tables alone; the two membership checks answer
    [false]. *)
Theorem signed_out_calls_stop {B : Backend} (w : World) :
  session w = None →
  (∀ tripId, joinTrip tripId w = (inl NotAuthenticated, log AuthGetUser w))
  ∧ (∀ tripId, leaveTrip tripId w = (inl NotAuthenticated, log AuthGetUser w))
  ∧ (∀ tripData, createTrip tripData w = (inl NotAuthenticated, log AuthGetUser w))
  ∧ (∀ followingId, followUser followingId w = (inl NotAuthenticated, log AuthGetUser w))
  ∧ (∀ followingId, unfollowUser followingId w = (inl NotAuthenticated, log AuthGetUser w))
  ∧ (∀ tripId msg, sendTripMessage tripId msg w = (inl NotAuthenticated, log AuthGetUser w))
  ∧ (∀ tripId, checkTripParticipation tripId w = (inr false, log AuthGetUser w))
  ∧ (∀ followingId, checkFollowStatus followingId w = (inr false, log AuthGetUser w)).
Proof.
  intros Hs. pose proof (getUser_signed_out w Hs) as Hu.
  repeat split; intros;
    unfold joinTrip, join_preconditions, leaveTrip, createTrip, followUser, unfollowUser,
      sendTripMessage, checkTripParticipation, checkFollowStatus;
    repeat (erewrite bind_value by exact Hu; cbv beta iota);
    try (erewrite bind_thrown; [reflexivity|]);
    try (erewrite bind_value by exact Hu; cbv beta iota); reflexivity.
Qed.


Lemma signed_out_calls_stop_witness :
  joinTrip (B := plain_backend) "ride-1" visitor_at_the_ride
  = (inl NotAuthenticated, log AuthGetUser visitor_at_the_ride)
  ∧ checkTripParticipation (B := plain_backend) "ride-1" visitor_at_the_ride
    = (inr false, log AuthGetUser visitor_at_the_ride).
Proof.
  destruct (signed_out_calls_stop (B := plain_backend) visitor_at_the_ride eq_refl)
    as (Hjoin & _ & _ & _ & _ & _ & Hcheck & _).
  split; [apply Hjoin|apply Hcheck].
Defined.

(** ** Joining, leaving and asking *)

Lemma filter_none_keeps_all {A} (P : A → Prop) `{∀ x, Decision (P x)} (l : list A) :
  filter P l = [] → filter (λ x, ¬ P x) l = l.
Proof.
  induction l as [|x l IH]; [done|]. rewrite !filter_cons.
  destruct (decide (P x)); [discriminate|]. intros Hl.
  rewrite decide_True by done. by rewrite IH.
Qed.

Lemma leave_after_join tripId user row tb :
  participations tripId user tb = [] →
  is_participation tripId user row →
  set_trip_participants (filter (λ p, ¬ is_participation tripId user p))
    (set_trip_participants (λ l, l ++ [row]) tb) = tb.
Proof.
  intros Hnew Hrow. destruct tb. unfold set_trip_participants. cbn in *. f_equal.
  rewrite filter_app, filter_cons, filter_nil.
  rewrite decide_False by tauto. rewrite app_nil_r.
  by apply filter_none_keeps_all.
Qed.

Lemma leave_without_record tripId user tb :
  participations tripId user tb = [] →
  set_trip_participants (filter (λ p, ¬ is_participation tripId user p)) tb = tb.
Proof.
  intros Hnew. destruct tb. unfold set_trip_participants. cbn in *. f_equal.
  by apply filter_none_keeps_all.
Qed.

(** X3. On a backend that refuses nothing, a caller without a record who
    joins a trip and then leaves it finds every table as it was before the
    join. *)
Theorem join_then_leave {B : Backend} {R : Reliable B}
    (tripId : string) (w : World) (user : string) (row : TripParticipant) (w1 : World) :
  session w = Some user →
  participations tripId user (tables w) = [] →
  joinTrip tripId w = (inr row, w1) →
  (leaveTrip tripId w1).1 = inr true
  ∧ tables (leaveTrip tripId w1).2 = tables w.
Proof.
  intros Hs Hnew Hjoin.
  destruct (joinTrip_success tripId w user row w1 Hs Hjoin)
    as (label & trip & _ & -> & _ & Htb & Hs1).
  rewrite (leaveTrip_reliable tripId w1 user Hs1). cbn [fst snd tables moved_to].
  split; [done|]. rewrite Htb. by apply leave_after_join.
Qed.

Lemma join_then_leave_witness :
  (leaveTrip (B := plain_backend) "ride-1"
     (joinTrip (B := plain_backend) "ride-1" bob_at_the_ride).2).1 = inr true
  ∧ tables (leaveTrip (B := plain_backend) "ride-1"
              (joinTrip (B := plain_backend) "ride-1" bob_at_the_ride).2).2
    = tables bob_at_the_ride.
Proof.
  exact (join_then_leave (B := plain_backend) "ride-1" bob_at_the_ride "bob"
           (joined_as "ride-1" "bob" "joined") _ eq_refl eq_refl eq_refl).
Defined.

(** X4. On a backend that refuses nothing, [leaveTrip] by a caller who holds
    no record of the trip returns [true] and changes no table: the call does
    not tell a participant from a stranger, and leaving a second time is the
    same as leaving once. *)
Theorem leaveTrip_without_record {B : Backend} {R : Reliable B}
    (tripId : string) (w : World) (user : string) :
  session w = Some user →
  (participations tripId user (tables w) = [] →
   (leaveTrip tripId w).1 = inr true ∧ tables (leaveTrip tripId w).2 = tables w)
  ∧ (leaveTrip tripId (leaveTrip tripId w).2).1 = inr true
  ∧ tables (leaveTrip tripId (leaveTrip tripId w).2).2 = tables (leaveTrip tripId w).2.
Proof.
  intros Hs. rewrite (leaveTrip_reliable tripId w user Hs). cbn [fst snd tables moved_to].
  split.
  - intros Hnew. split; [done|]. by apply leave_without_record.
  - rewrite (leaveTrip_reliable tripId _ user) by done. cbn [fst snd tables moved_to].
    split; [done|]. apply leave_without_record.
    unfold participations. cbn [trip_participants set_trip_participants].
    apply filter_out_none.
Qed.

Lemma leaveTrip_without_record_witness :
  (leaveTrip (B := plain_backend) "ride-1" bob_at_the_ride).1 = inr true
  ∧ tables (leaveTrip (B := plain_backend) "ride-1" bob_at_the_ride).2
    = tables bob_at_the_ride.
Proof.
  destruct (leaveTrip_without_record (B := plain_backend) "ride-1" bob_at_the_ride "bob"
              eq_refl) as [Hnone _].
  exact (Hnone eq_refl).
Defined.

Lemma checkTripParticipation_reliable {B : Backend} {RR : ReliableReads B} tripId w user :
  session w = Some user →
  (checkTripParticipation tripId w).1
  = inr (match participations tripId user (tables w) with [_] => true | _ => false end).
Proof.
  intros Hs. unfold checkTripParticipation.
  erewrite bind_value by apply getUser_reliable. rewrite Hs. cbv beta iota.
  erewrite bind_value by apply select_single_reliable. cbn [tables log].
  by destruct (participations tripId user (tables w)) as [|p [|q l]].
Qed.

(** X5. On a backend that refuses nothing, [checkTripParticipation] answers
    [true] right after a successful [joinTrip] of a caller who had no record
    and [false] right after a [leaveTrip]; and it answers [false] for a
    caller who holds two or more records of the trip. *)
Theorem checkTripParticipation_follows {B : Backend} {R : Reliable B}
    (tripId : string) (w : World) (user : string) :
  session w = Some user →
  (∀ row w1, participations tripId user (tables w) = [] →
             joinTrip tripId w = (inr row, w1) →
             (checkTripParticipation tripId w1).1 = inr true)
  ∧ (checkTripParticipation tripId (leaveTrip tripId w).2).1 = inr false
  ∧ ((2 ≤ length (participations tripId user (tables w)))%nat →
     (checkTripParticipation tripId w).1 = inr false).
Proof.
  intros Hs. split; [|split].
  - intros row w1 Hnew Hjoin.
    destruct (joinTrip_success tripId w user row w1 Hs Hjoin)
      as (label & trip & _ & -> & _ & Htb & Hs1).
    rewrite (checkTripParticipation_reliable tripId w1 user Hs1), Htb.
    unfold participations in *. cbn [trip_participants set_trip_participants].
    rewrite filter_app, Hnew, filter_cons, filter_nil.
    by rewrite decide_True.
  - rewrite (leaveTrip_reliable tripId w user Hs). cbn [snd].
    rewrite (checkTripParticipation_reliable tripId _ user) by done.
    unfold participations. cbn [tables moved_to trip_participants set_trip_participants].
    by rewrite filter_out_none.
  - intros Htwo. rewrite (checkTripParticipation_reliable tripId w user Hs).
    destruct (participations tripId user (tables w)) as [|p [|q l]]; cbn in Htwo; [lia..|done].
Qed.

Lemma checkTripParticipation_follows_witness :
  (checkTripParticipation (B := plain_backend) "ride-1"
     (joinTrip (B := plain_backend) "ride-1" bob_at_the_ride).2).1 = inr true
  ∧ (checkTripParticipation (B := plain_backend) "ride-1" bob_enrolled_twice).1 = inr false.
Proof.
  split.
  - destruct (checkTripParticipation_follows (B := plain_backend) "ride-1" bob_at_the_ride
                "bob" eq_refl) as [Hjoined _].
    exact (Hjoined (joined_as "ride-1" "bob" "joined") _ eq_refl eq_refl).
  - destruct (checkTripParticipation_follows (B := plain_backend) "ride-1"
                bob_enrolled_twice "bob" eq_refl) as (_ & _ & Htwice).
    apply Htwice. vm_compute. lia.
Defined.

(** ** The trip with its roster *)

Lemma roster_entries (f : TripParticipant → ProfileView) (l : list TripParticipant) :
  re_participant <$> ((λ p, {| re_participant := p; re_user_profiles := f p |}) <$> l) = l.
Proof. rewrite <- list_fmap_compose. by rewrite <- (list_fmap_id l) at 2. Qed.

Lemma getTripById_reliable {B : Backend} {RR : ReliableReads B} tripId w trip :
  trips_by_id tripId (tables w) = [trip] →
  ∃ loaded,
    (getTripById tripId w).1 = inr loaded
    ∧ twr_trip loaded = trip
    ∧ re_participant <$> twr_participants loaded = roster_of tripId (tables w).
Proof.
  intros Ht. unfold getTripById.
  erewrite bind_value by apply select_single_reliable. rewrite Ht. cbn [single tables log].
  erewrite bind_value by apply select_single_reliable. cbn [tables log].
  erewrite bind_value by apply select_rows_reliable. cbn [tables log].
  destruct (roster_of tripId (tables w)) as [|p ps] eqn:Hroster.
  - eexists. split; [reflexivity|]. done.
  - erewrite bind_value.
    2:{ erewrite bind_value by apply select_rows_reliable. reflexivity. }
    eexists. split; [reflexivity|]. cbn [twr_trip twr_participants].
    split; [done|]. apply roster_entries.
Qed.

(** X6. On a backend that answers reads, [getTripById] throws the PGRST116
    error for a trip id that no row carries.  For a trip that is found, the
    roster it returns holds every participant record of the trip, whatever
    its status; so after a successful [joinTrip] of a caller who is not the
    organizer, the participant count the trip page derives from a reloaded
    roster is one more than the count derived from the roster loaded before. *)
Theorem getTripById_roster {B : Backend} {RR : ReliableReads B} (tripId : string) (w : World) :
  (trips_by_id tripId (tables w) = [] → (getTripById tripId w).1 = inl (PgError PGRST116))
  ∧ ∀ trip,
      trips_by_id tripId (tables w) = [trip] →
      ∃ loaded,
        (getTripById tripId w).1 = inr loaded
        ∧ twr_trip loaded = trip
        ∧ re_participant <$> twr_participants loaded = roster_of tripId (tables w)
        ∧ ∀ user row w1 reloaded,
            session w = Some user →
            user ≠ organizer_id trip →
            joinTrip tripId w = (inr row, w1) →
            (getTripById tripId w1).1 = inr reloaded →
            actualParticipantCount (page_data reloaded)
            = actualParticipantCount (page_data loaded) + 1.
Proof.
  split.
  - intros Hnone. unfold getTripById.
    erewrite bind_value by apply select_single_reliable. by rewrite Hnone.
  - intros trip Ht.
    destruct (getTripById_reliable tripId w trip Ht) as (loaded & Hload & Htrip & Hroster).
    exists loaded. split; [done|]. split; [done|]. split; [done|].
    intros user row w1 reloaded Hs Horg Hjoin Hreload.
    destruct (joinTrip_success tripId w user row w1 Hs Hjoin)
      as (label & trip' & _ & -> & _ & Htb & _).
    assert (Ht1 : trips_by_id tripId (tables w1) = [trip]) by (by rewrite Htb).
    destruct (getTripById_reliable tripId w1 trip Ht1) as (loaded1 & Hload1 & Htrip1 & Hroster1).
    rewrite Hload1 in Hreload. injection Hreload as <-.
    unfold actualParticipantCount, page_data. cbn [tpd_trip tpd_participants].
    rewrite Hroster, Hroster1, Htrip, Htrip1, Htb.
    unfold roster_of. cbn [trip_participants set_trip_participants].
    rewrite !filter_app, !filter_cons, !filter_nil.
    rewrite decide_True by done. cbn [app]. rewrite filter_cons, filter_nil.
    rewrite decide_True by done. rewrite length_app. cbn [length]. lia.
Qed.

Lemma getTripById_roster_witness :
  ∃ loaded reloaded,
    (getTripById (B := plain_backend) "ride-1" bob_at_the_ride).1 = inr loaded
    ∧ (getTripById (B := plain_backend) "ride-1"
         (joinTrip (B := plain_backend) "ride-1" bob_at_the_ride).2).1 = inr reloaded
    ∧ actualParticipantCount (page_data reloaded)
      = actualParticipantCount (page_data loaded) + 1.
Proof.
  destruct (getTripById_roster (B := plain_backend) "ride-1" bob_at_the_ride) as [_ Hfound].
  destruct (Hfound (alices_ride "open" 2 1) eq_refl) as (loaded & Hload & _ & _ & Hmore).
  assert (Hre : ∃ reloaded,
            (getTripById (B := plain_backend) "ride-1"
               (joinTrip (B := plain_backend) "ride-1" bob_at_the_ride).2).1 = inr reloaded)
    by (eexists; reflexivity).
  destruct Hre as [reloaded Hre].
  exists loaded, reloaded. split; [exact Hload|]. split; [exact Hre|].
  apply (Hmore "bob" (joined_as "ride-1" "bob" "joined")
           (joinTrip (B := plain_backend) "ride-1" bob_at_the_ride).2 reloaded eq_refl);
    [discriminate|reflexivity|exact Hre].
Defined.

(** ** The pages on a join *)

(** The errors of the checks of [joinTrip] all carry a message. *)
Lemma join_verdict_errors tripId w t :
  join_verdict tripId w = inl t →
  t = NotAuthenticated ∨ t = NotFound tripId ∨ t = NotOpen ∨ t = Full ∨ t = AlreadyJoined.
Proof.
  unfold join_verdict. destruct (session w); [|intros [= <-]; auto].
  destruct (single _); [intros [= <-]; auto|].
  destruct (negb _); [intros [= <-]; auto|].
  destruct (_ <=? _); [intros [= <-]; auto 10|].
  destruct (single _); [discriminate|intros [= <-]; auto 10].
Qed.

Lemma join_verdict_message tripId w t :
  join_verdict tripId w = inl t →
  or_else (Some (thrown_message t)) "Failed to update trip participation."
  = thrown_message t.
Proof.
  intros Hv.
  destruct (join_verdict_errors tripId w t Hv) as [->|[->|[->|[->| ->]]]]; reflexivity.
Qed.




Lemma bump_back (data : TripPageData) :
  bump_current_participants (-1) (bump_current_participants 1 data) = data.
Proof.
  destruct data as [[] ?]. unfold bump_current_participants. cbn. do 2 f_equal. lia.
Qed.

(** X8. On a backend that refuses nothing, a viewer who is not the organizer
    and holds no record presses the button of the trip page twice, the join
    going through: the page is back to not joined with the
    [current_participants] it showed at the start, two toasts richer, and
    the tables are the ones before the first press. *)
Theorem handleJoinLeave_twice {B : Backend} {R : Reliable B}
    (tripId : string) (pg : TripPage) (w : World)
    (user viewer : string) (data : TripPageData) (row : TripParticipant) (w1 : World) :
  session w = Some user →
  participations tripId user (tables w) = [] →
  page_user pg = Some viewer →
  page_tripData pg = Some data →
  page_isOrganizer pg = false →
  page_isJoined pg = false →
  joinTrip tripId w = (inr row, w1) →
  let once := handleJoinLeave tripId pg w in
  let twice := handleJoinLeave tripId once.1 once.2 in
  page_isJoined once.1 = true
  ∧ page_isJoined twice.1 = false
  ∧ page_tripData twice.1 = Some data
  ∧ tables twice.2 = tables w
  ∧ toast_title <$> page_toasts twice.1
    = (toast_title <$> page_toasts pg) ++ ["Joined Trip!"; "Left Trip"].
Proof.
  intros Hs Hnew Hu Hd Horg Hj Hjoin. cbv zeta.
  assert (Honce : handleJoinLeave tripId pg w
                  = (joined_or_left true 1
                       {| toast_title := "Joined Trip!";
                          toast_description := "You have successfully joined the trip.";
                          toast_destructive := false |} pg, w1)).
  { unfold handleJoinLeave. by rewrite Hu, Hd, Horg, Hj, Hjoin. }
  rewrite Honce. cbn [fst snd].
  assert (Hundo : (leaveTrip tripId w1).1 = inr true
                  ∧ tables (leaveTrip tripId w1).2 = tables w).
  { destruct (joinTrip_success tripId w user row w1 Hs Hjoin)
      as (label & trip & _ & Hrow & _ & Hjoined & Hs1).
    rewrite (leaveTrip_reliable tripId w1 user Hs1). cbn [fst snd tables moved_to].
    split; [done|]. rewrite Hjoined, Hrow. by apply leave_after_join. }
  destruct Hundo as [Hleft Htb].
  destruct (leaveTrip tripId w1) as [[t|b] w2] eqn:Hleave; [discriminate Hleft|].
  unfold handleJoinLeave.
  cbn [page_user page_tripData page_isOrganizer page_isJoined joined_or_left].
  rewrite Hu, Hd, Horg. cbn [fmap option_fmap option_map]. rewrite Hleave.
  cbn [fst snd page_isJoined page_tripData page_toasts joined_or_left fmap option_fmap
       option_map].
  split; [done|]. split; [done|]. split.
  { rewrite Hd. cbn [fmap option_fmap option_map]. by rewrite bump_back. }
  split; [done|].
  by rewrite !fmap_app, <- app_assoc.
Qed.

Lemma handleJoinLeave_twice_witness :
  page_isJoined
    (handleJoinLeave (B := plain_backend) "ride-1"
       (handleJoinLeave (B := plain_backend) "ride-1" bobs_page bob_at_the_ride).1
       (handleJoinLeave (B := plain_backend) "ride-1" bobs_page bob_at_the_ride).2).1
  = false
  ∧ tables
      (handleJoinLeave (B := plain_backend) "ride-1"
         (handleJoinLeave (B := plain_backend) "ride-1" bobs_page bob_at_the_ride).1
         (handleJoinLeave (B := plain_backend) "ride-1" bobs_page bob_at_the_ride).2).2
    = tables bob_at_the_ride.
Proof.
  destruct (handleJoinLeave_twice (B := plain_backend) "ride-1" bobs_page bob_at_the_ride
              "bob" "bob" _ (joined_as "ride-1" "bob" "joined") _
              eq_refl eq_refl eq_refl eq_refl eq_refl eq_refl eq_refl)
    as (_ & Hflag & _ & Htb & _).
  split; [exact Hflag|exact Htb].
Defined.

(** X9. On a backend that answers reads: when a check of [joinTrip] fails
    for a viewer of the trip page who is not marked as joined, the page
    keeps its trip data and its joined flag, stops the spinner and shows
    one error toast carrying the message of the failed check ("Trip is
    full" on a full open trip), and no table changes.  A page without a
    user or without trip data shows "Login Required" and sends nothing. *)
Theorem handleJoinLeave_refused {B : Backend} {RR : ReliableReads B}
    (tripId : string) (pg : TripPage) (w : World) :
  (∀ viewer data t,
      page_user pg = Some viewer →
      page_tripData pg = Some data →
      page_isOrganizer pg = false →
      page_isJoined pg = false →
      join_verdict tripId w = inl t →
      let pressed := handleJoinLeave tripId pg w in
      page_tripData pressed.1 = Some data
      ∧ page_isJoined pressed.1 = false
      ∧ page_joinLoading pressed.1 = false
      ∧ page_toasts pressed.1
        = page_toasts pg ++
          [{| toast_title := "Error";
              toast_description := thrown_message t;
              toast_destructive := true |}]
      ∧ tables pressed.2 = tables w)
  ∧ (page_user pg = None ∨ page_tripData pg = None →
     (handleJoinLeave tripId pg w).2 = w
     ∧ toast_title <$> page_toasts (handleJoinLeave tripId pg w).1
       = (toast_title <$> page_toasts pg) ++ ["Login Required"]).
Proof.
  split.
  - intros viewer data t Hu Hd Horg Hj Hv. cbv zeta.
    destruct (join_preconditions_reliable tripId w) as [tr Hpre]. rewrite Hv in Hpre.
    unfold handleJoinLeave. rewrite Hu, Hd, Horg, Hj.
    unfold joinTrip. erewrite bind_thrown by exact Hpre.
    cbn [fst snd join_leave_failed page_tripData page_isJoined page_joinLoading
         page_toasts tables].
    rewrite (join_verdict_message tripId w t Hv). by rewrite Hd, Hj.
  - intros Hmissing. unfold handleJoinLeave.
    destruct (page_user pg) as [viewer|]; [destruct (page_tripData pg) as [data|]|].
    + by destruct Hmissing.
    + cbn. by rewrite fmap_app.
    + cbn. by rewrite fmap_app.
Qed.

Lemma handleJoinLeave_refused_witness :
  toast_description
    <$> page_toasts (handleJoinLeave (B := plain_backend) "ride-1" carols_page
                       carol_at_the_full_ride).1
  = ["Trip is full"].
Proof.
  destruct (handleJoinLeave_refused (B := plain_backend) "ride-1" carols_page
              carol_at_the_full_ride) as [Hfail _].
  destruct (Hfail "carol" _ Full eq_refl eq_refl eq_refl eq_refl eq_refl)
    as (_ & _ & _ & Htoasts & _).
  by rewrite Htoasts.
Defined.

(** ** Following: round trip, stored figures, the profile page *)

Lemma checkFollowStatus_reliable {B : Backend} {RR : ReliableReads B} followingId w user :
  session w = Some user →
  (checkFollowStatus followingId w).1
  = inr (match follows user followingId (tables w) with [_] => true | _ => false end).
Proof.
  intros Hs. unfold checkFollowStatus.
  erewrite bind_value by apply getUser_reliable. rewrite Hs. cbv beta iota.
  erewrite bind_value by apply select_single_reliable. cbn [tables log].
  by destruct (follows user followingId (tables w)) as [|p [|q l]].
Qed.

Lemma follows_after_insert user Q tb :
  follows user Q tb = [] →
  follows user Q
    (set_user_followers (λ l, l ++ [{| follower_id := user; following_id := Q |}]) tb)
  = [{| follower_id := user; following_id := Q |}].
Proof.
  intros Hnone. unfold follows in *. cbn [user_followers set_user_followers].
  rewrite filter_app, Hnone, filter_cons, filter_nil. by rewrite decide_True.
Qed.

Lemma unfollow_after_follow user Q tb :
  follows user Q tb = [] →
  filter (λ f, ¬ is_follow user Q f)
    (user_followers tb ++ [{| follower_id := user; following_id := Q |}])
  = user_followers tb.
Proof.
  intros Hnone. rewrite filter_app, filter_cons, filter_nil.
  rewrite decide_False by (intros Hn; apply Hn; by split).
  rewrite app_nil_r. by apply filter_none_keeps_all.
Qed.

(** X10. On a backend that refuses nothing, a caller who does not follow a
    profile, follows it and then unfollows it: both calls return,
    [checkFollowStatus] answers [true] in between and [false] at the end,
    the edge table is the one before the two calls, and the stored
    follower counter of the profile equals its number of followers again. *)
Theorem follow_then_unfollow {B : Backend} {R : Reliable B}
    (followingId : string) (w : World) (user : string) :
  session w = Some user →
  follows user followingId (tables w) = [] →
  let followed := followUser followingId w in
  let unfollowed := unfollowUser followingId followed.2 in
  followed.1 = inr {| follower_id := user; following_id := followingId |}
  ∧ (checkFollowStatus followingId followed.2).1 = inr true
  ∧ unfollowed.1 = inr true
  ∧ (checkFollowStatus followingId unfollowed.2).1 = inr false
  ∧ user_followers (tables unfollowed.2) = user_followers (tables w)
  ∧ stored_followers followingId (tables unfollowed.2)
    = Some (follower_count followingId (tables w)).
Proof.
  intros Hs Hnone. cbv zeta.
  destruct (followUser_reliable followingId w user Hs) as [tr1 H1]. rewrite Hnone in H1.
  rewrite H1. cbn [fst snd].
  set (tb1 := refreshed user followingId _).
  assert (Hf1 : follows user followingId tb1
                = [{| follower_id := user; following_id := followingId |}]).
  { subst tb1. change (follows user followingId (refreshed user followingId ?tb))
      with (follows user followingId tb). by apply follows_after_insert. }
  destruct (unfollowUser_reliable followingId (moved_to tb1 tr1 w) user) as [tr2 H2];
    [done|].
  cbn [tables moved_to] in H2. rewrite Hf1 in H2. rewrite H2. cbn [fst snd].
  split; [done|]. split.
  { rewrite (checkFollowStatus_reliable _ _ user) by done. cbn [tables moved_to].
    by rewrite Hf1. }
  split; [done|].
  assert (Hedges : user_followers
                     (set_user_followers (filter (λ f, ¬ is_follow user followingId f)) tb1)
                   = user_followers (tables w)).
  { subst tb1. cbn [user_followers set_user_followers refreshed set_user_stats].
    by apply unfollow_after_follow. }
  split; [|split].
  - rewrite (checkFollowStatus_reliable _ _ user) by done. cbn [tables moved_to].
    change (follows user followingId (refreshed user followingId ?tb))
      with (follows user followingId tb).
    unfold follows. rewrite Hedges. fold (follows user followingId (tables w)).
    by rewrite Hnone.
  - cbn [tables moved_to].
    change (user_followers (refreshed user followingId ?tb)) with (user_followers tb).
    exact Hedges.
  - cbn [tables moved_to].
    destruct (refreshed_exact user followingId
                (set_user_followers (filter (λ f, ¬ is_follow user followingId f)) tb1))
      as [Hexact _].
    rewrite Hexact. f_equal.
    change (follower_count followingId (refreshed user followingId ?tb))
      with (follower_count followingId tb).
    unfold follower_count, followers_of. by rewrite Hedges.
Qed.

Lemma follow_then_unfollow_witness :
  user_followers
    (tables (unfollowUser (B := plain_backend) "carol"
               (followUser (B := plain_backend) "carol" stale_counters).2).2)
  = user_followers (tables stale_counters)
  ∧ stored_followers "carol"
      (tables (unfollowUser (B := plain_backend) "carol"
                 (followUser (B := plain_backend) "carol" stale_counters).2).2)
    = Some 1.
Proof.
  destruct (follow_then_unfollow (B := plain_backend) "carol" stale_counters "alice"
              eq_refl eq_refl) as (_ & _ & _ & _ & Hedges & Hstored).
  split; [exact Hedges|exact Hstored].
Defined.

Lemma select_count_any {B : Backend} {A} table (rows : Tables → list A) w :
  select_count table rows w
  = (inr (match fault (tables w) (Count table) with
          | None => inr (Z.of_nat (length (rows (tables w))))
          | Some e => inl e
          end),
     log (Count table) w).
Proof.
  unfold select_count, request. destruct (fault (tables w) (Count table)); [done|].
  by destruct w.
Qed.

(** X11. [getUserStats], when the read of the stored row and the upsert
    are admitted: each of the two figures it returns is the count of the
    edge table if the count query is answered and 0 if the count query is
    refused; the row of the user in [user_stats] is overwritten with exactly
    the figures returned (so a refused count stores 0 over a correct
    figure), every other row and the edge table are kept. *)
Theorem getUserStats_stores_what_it_returns {B : Backend} (userId : string) (w : World) :
  fault (tables w) (Select "user_stats") = None →
  fault (tables w) (Upsert "user_stats") = None →
  let counted (n : Z) :=
    match fault (tables w) (Count "user_followers") with None => n | Some _ => 0 end in
  let figures :=
    {| followers_count := counted (follower_count userId (tables w));
       following_count := counted (followed_count userId (tables w)) |} in
  let after := getUserStats userId w in
  after.1 = inr figures
  ∧ user_stats (tables after.2) = <[userId := figures]> (user_stats (tables w))
  ∧ user_followers (tables after.2) = user_followers (tables w).
Proof.
  intros Hsel Hups. cbv zeta.
  unfold getUserStats, getFollowerCount, getFollowingCount.
  rewrite <- !(assoc_L (≫=)) || idtac.
  erewrite bind_value; cycle 1.
  { erewrite bind_value by apply select_count_any. reflexivity. }
  erewrite bind_value; cycle 1.
  { erewrite bind_value by apply select_count_any. reflexivity. }
  cbn [tables log].
  erewrite bind_value by (apply request_admitted; exact Hsel).
  cbn [tables log with_tables fst snd].
  unfold follower_count, followed_count, single.
  destruct (fault (tables w) (Count "user_followers")) as [e|];
    destruct (stats_of userId (tables w)) as [|row [|row' rows]];
    cbn [code PGRST116 String.eqb Ascii.eqb Bool.eqb negb count_or_0];
    (erewrite bind_value by (apply request_admitted; exact Hups));
    done.
Qed.

Lemma getUserStats_stores_what_it_returns_witness :
  (getUserStats (B := count_blind_backend) "carol" stale_counters).1
  = inr {| followers_count := 0; following_count := 0 |}
  ∧ stored_followers "carol"
      (tables (getUserStats (B := count_blind_backend) "carol" stale_counters).2)
    = Some 0
  ∧ follower_count "carol" (tables stale_counters) = 1.
Proof.
  destruct (getUserStats_stores_what_it_returns (B := count_blind_backend) "carol"
              stale_counters eq_refl eq_refl) as (Hret & Hstored & _).
  split; [exact Hret|]. split; [|reflexivity].
  unfold stored_followers. rewrite Hstored. reflexivity.
Defined.

Lemma follows_after_delete user Q tb :
  follows user Q (set_user_followers (filter (λ f, ¬ is_follow user Q f)) tb) = [].
Proof.
  unfold follows. cbn [user_followers set_user_followers].
  induction (user_followers tb) as [|x l IH]; [done|].
  rewrite filter_cons. destruct (decide (¬ is_follow user Q x)) as [Hn|Hy]; [|exact IH].
  rewrite filter_cons. by rewrite decide_False.
Qed.

(** X12. The follow button of a public profile, on a backend that refuses
    nothing. If the page agrees with the tables (its flag says whether the
    signed-in visitor follows the profile, and its follower figure is the
    number of followers), then after a press the flag is flipped, the call
    has added or removed exactly the visitor's edge, and the page agrees
    with the tables again: the figure on the page, the number of followers
    and the stored counter of the profile are the same number. *)
Theorem handleFollow_keeps_figure {B : Backend} {R : Reliable B}
    (pg : ProfilePage) (w : World) (user : string) (profile : UserProfile)
    (stats : UserStats) :
  let P := profile_user_id profile in
  pp_currentUser pg = Some user →
  session w = Some user →
  pp_profile pg = Some profile →
  pp_userStats pg = Some stats →
  follows user P (tables w)
  = (if pp_isFollowing pg then [{| follower_id := user; following_id := P |}] else []) →
  followers_count stats = follower_count P (tables w) →
  let after := handleFollow pg w in
  pp_isFollowing after.1 = negb (pp_isFollowing pg)
  ∧ follows user P (tables after.2)
    = (if pp_isFollowing after.1 then [{| follower_id := user; following_id := P |}]
       else [])
  ∧ followers_count <$> pp_userStats after.1 = Some (follower_count P (tables after.2))
  ∧ stored_followers P (tables after.2) = Some (follower_count P (tables after.2))
  ∧ follower_count P (tables after.2)
    = follower_count P (tables w) + (if pp_isFollowing pg then -1 else 1)
  ∧ pp_followLoading after.1 = false.
Proof.
  intros P Hu Hs Hp Hst Hedge Hfig. cbv zeta.
  unfold handleFollow. rewrite Hu, Hp. fold P.
  destruct (pp_isFollowing pg) eqn:Hflag.
  - destruct (unfollowUser_reliable P w user Hs) as [tr Hcall].
    rewrite Hedge in Hcall. rewrite Hcall. cbn [fst snd follow_settled tables moved_to negb pp_userStats pp_isFollowing
           pp_followLoading].
    rewrite Hst. cbn [fmap option_fmap option_map followers_count].
    destruct (refreshed_exact user P
                (set_user_followers (filter (λ f, ¬ is_follow user P f)) (tables w)))
      as [Hexact _].
    assert (Hcount : follower_count P
                       (refreshed user P
                          (set_user_followers (filter (λ f, ¬ is_follow user P f))
                             (tables w)))
                     = follower_count P (tables w) + -1).
    { change (follower_count P (refreshed user P ?tb)) with (follower_count P tb).
      rewrite (followers_after_delete user P P _ _ Hedge).
      rewrite decide_True by done. lia. }
    split; [done|]. split.
    { change (follows user P (refreshed user P ?tb)) with (follows user P tb).
      apply follows_after_delete. }
    split; [by rewrite Hcount, Hfig|]. split; [exact Hexact|]. split; [exact Hcount|done].
  - destruct (followUser_reliable P w user Hs) as [tr Hcall].
    rewrite Hedge in Hcall. rewrite Hcall. cbn [fst snd follow_settled tables moved_to negb pp_userStats pp_isFollowing
           pp_followLoading].
    rewrite Hst. cbn [fmap option_fmap option_map followers_count].
    destruct (refreshed_exact user P
                (set_user_followers
                   (λ l, l ++ [{| follower_id := user; following_id := P |}]) (tables w)))
      as [Hexact _].
    assert (Hcount : follower_count P
                       (refreshed user P
                          (set_user_followers
                             (λ l, l ++ [{| follower_id := user; following_id := P |}])
                             (tables w)))
                     = follower_count P (tables w) + 1).
    { change (follower_count P (refreshed user P ?tb)) with (follower_count P tb).
      rewrite followers_after_insert. cbn [following_id].
      by rewrite decide_True. }
    split; [done|]. split.
    { change (follows user P (refreshed user P ?tb)) with (follows user P tb).
      by apply follows_after_insert. }
    split; [by rewrite Hcount, Hfig|]. split; [exact Hexact|]. split; [exact Hcount|done].
Qed.

Lemma handleFollow_keeps_figure_witness :
  followers_count
    <$> pp_userStats (handleFollow (B := plain_backend) carols_profile_page
                        stale_counters).1
  = Some 2
  ∧ stored_followers "carol"
      (tables (handleFollow (B := plain_backend) carols_profile_page stale_counters).2)
    = Some 2.
Proof.
  destruct (handleFollow_keeps_figure (B := plain_backend) carols_profile_page
              stale_counters "alice" _ _ eq_refl eq_refl eq_refl eq_refl eq_refl eq_refl)
    as (_ & _ & Hpage & Hstored & Hcount & _).
  split.
  - exact (eq_trans Hpage (f_equal Some Hcount)).
  - exact (eq_trans Hstored (f_equal Some Hcount)).
Defined.

(** ** Likes: the status map and the like button *)

Lemma foldl_insert_false (ids : list string) (m : gmap string bool) k :
  foldl (λ m id, <[id := false]> m) m ids !! k
  = if decide (k ∈ ids) then Some false else m !! k.
Proof.
  revert m. induction ids as [|id ids IH]; intros m; cbn [foldl].
  - rewrite decide_False; [done|]. apply not_elem_of_nil.
  - rewrite IH. destruct (decide (k ∈ ids)) as [Hin|Hout].
    + rewrite decide_True; [done|]. by apply elem_of_cons; right.
    + destruct (decide (k = id)) as [->|Hne].
      * rewrite lookup_insert_eq. rewrite decide_True; [done|]. apply list_elem_of_here.
      * rewrite lookup_insert_ne by done. rewrite decide_False; [done|].
        intros [?|?]%elem_of_cons; contradiction.
Qed.

Lemma foldl_insert_true (data : list PostLike) (m : gmap string bool) k :
  foldl (λ m like, <[like_post_id like := true]> m) m data !! k
  = if decide (k ∈ like_post_id <$> data) then Some true else m !! k.
Proof.
  revert m. induction data as [|l data IH]; intros m; cbn [foldl fmap list_fmap].
  - rewrite decide_False; [done|]. apply not_elem_of_nil.
  - rewrite IH. fold (fmap like_post_id data).
    destruct (decide (k ∈ like_post_id <$> data)) as [Hin|Hout].
    + rewrite decide_True; [done|]. by apply elem_of_cons; right.
    + destruct (decide (k = like_post_id l)) as [->|Hne].
      * rewrite lookup_insert_eq. rewrite decide_True; [done|]. apply list_elem_of_here.
      * rewrite lookup_insert_ne by done. rewrite decide_False; [done|].
        intros [?|?]%elem_of_cons; contradiction.
Qed.

Lemma liked_among userId postIds tb k :
  k ∈ like_post_id <$> likes_among userId postIds tb
  ↔ k ∈ postIds ∧ likes userId k tb ≠ [].
Proof.
  unfold likes_among, likes. rewrite list_elem_of_fmap. split.
  - intros (l & -> & Hl). apply list_elem_of_filter in Hl as [[Hu Hp] Hin].
    split; [done|]. intros Hnone.
    assert (Hmem : l ∈ filter (is_like userId (like_post_id l)) (post_likes tb)).
    { apply list_elem_of_filter. by repeat split. }
    rewrite Hnone in Hmem. by apply not_elem_of_nil in Hmem.
  - intros [Hk Hsome].
    destruct (filter (is_like userId k) (post_likes tb)) as [|l ls] eqn:Hf; [done|].
    assert (Hmem : l ∈ filter (is_like userId k) (post_likes tb)).
    { rewrite Hf. apply list_elem_of_here. }
    apply list_elem_of_filter in Hmem as [[Hu Hp] Hin].
    exists l. split; [done|]. apply list_elem_of_filter. split; [|done].
    split; [done|]. by rewrite Hp.
Qed.

(** The map [getPostLikeStatus] builds, entry by entry. *)
Lemma like_status_entries userId (postIds : list string) tb id :
  foldl (λ m like, <[like_post_id like := true]> m)
    (foldl (λ m id, <[id := false]> m) (∅ : gmap string bool) postIds)
    (likes_among userId postIds tb) !! id
  = if decide (id ∈ postIds)
    then Some (bool_decide (likes userId id tb ≠ []))
    else None.
Proof.
  rewrite foldl_insert_true, foldl_insert_false.
  destruct (decide (id ∈ like_post_id <$> likes_among userId postIds tb)) as [Hin|Hout].
  - apply liked_among in Hin as [Hid Hsome].
    rewrite decide_True by done. by rewrite bool_decide_eq_true_2.
  - destruct (decide (id ∈ postIds)) as [Hid|Hid]; [|done].
    rewrite bool_decide_eq_false_2; [done|].
    intros Hsome. apply Hout. by apply liked_among.
Qed.

Lemma getPostLikeStatus_reliable {B : Backend} {RR : ReliableReads B} userId postIds w :
  getPostLikeStatus userId postIds w
  = (inr (foldl (λ m like, <[like_post_id like := true]> m)
            (foldl (λ m id, <[id := false]> m) ∅ postIds)
            (likes_among userId postIds (tables w))),
     log (Select "post_likes") w).
Proof.
  unfold getPostLikeStatus. by erewrite bind_value by apply select_rows_reliable.
Qed.

(** X13. [getPostLikeStatus], when the backend answers the read: the map
    returned has an entry exactly for the requested post ids, and the entry
    of an id says whether the user has a like on that post; nothing is
    written. *)
Theorem getPostLikeStatus_entries {B : Backend} {RR : ReliableReads B}
    (userId : string) (postIds : list string) (w : World) :
  ∃ likedPosts,
    getPostLikeStatus userId postIds w = (inr likedPosts, log (Select "post_likes") w)
    ∧ ∀ id, likedPosts !! id
            = if decide (id ∈ postIds)
              then Some (bool_decide (likes userId id (tables w) ≠ []))
              else None.
Proof.
  exists (foldl (λ m like, <[like_post_id like := true]> m)
            (foldl (λ m id, <[id := false]> m) ∅ postIds)
            (likes_among userId postIds (tables w))).
  split.
  - apply getPostLikeStatus_reliable.
  - intros id. apply like_status_entries.
Qed.

Lemma getPostLikeStatus_entries_witness :
  ∃ likedPosts,
    (getPostLikeStatus (B := plain_backend) "alice" ["post-7"; "post-9"]
       likes_on_two_posts).1 = inr likedPosts
    ∧ likedPosts !! "post-7" = Some true
    ∧ likedPosts !! "post-9" = Some false
    ∧ likedPosts !! "post-1" = None.
Proof.
  destruct (getPostLikeStatus_entries (B := plain_backend) "alice" ["post-7"; "post-9"]
              likes_on_two_posts) as (likedPosts & Hcall & Hentries).
  exists likedPosts. split; [by rewrite Hcall|].
  split; [|split]; rewrite Hentries; reflexivity.
Defined.

Lemma like_count_after_insert postId e tb :
  length (likes_of_post postId (set_post_likes (λ ls, ls ++ [e]) tb))
  = (length (likes_of_post postId tb)
     + (if decide (like_post_id e = postId) then 1 else 0))%nat.
Proof.
  unfold likes_of_post. cbn [post_likes set_post_likes].
  rewrite filter_app, length_app, filter_cons, filter_nil.
  by destruct (decide (like_post_id e = postId)).
Qed.

Lemma like_count_after_delete userId postId tb :
  (length (likes_of_post postId
             (set_post_likes (filter (λ l, ¬ is_like userId postId l)) tb))
   + length (likes userId postId tb))%nat
  = length (likes_of_post postId tb).
Proof.
  unfold likes_of_post, likes. cbn [post_likes set_post_likes].
  induction (post_likes tb) as [|l ls IH]; [done|].
  rewrite !filter_cons.
  destruct (decide (is_like userId postId l)) as [Hl|Hl].
  - rewrite decide_False by tauto. destruct Hl as [_ Hp].
    rewrite decide_True by done. cbn [length]. lia.
  - rewrite decide_True by done. rewrite filter_cons.
    destruct (decide (like_post_id l = postId)); cbn [length]; lia.
Qed.

(** X14. The like button of the dashboard, on a backend that refuses
    nothing and for a user with at most one like on the post. After a
    press the entry of the post in [likedPosts] says whether the user now
    has a like on the post, its entry in [postLikeCounts] is the number of
    likes the post now has, which is one more or one less than before the
    press, and the entries of every other post in both maps are kept. *)
Theorem handleLike_agrees_with_tables {B : Backend} {R : Reliable B}
    (postId : string) (d : Dashboard) (w : World) (user : string) :
  dash_user d = Some user →
  (length (likes user postId (tables w)) ≤ 1)%nat →
  let after := handleLike postId d w in
  let liked tb := bool_decide (likes user postId tb ≠ []) in
  let count tb := Z.of_nat (length (likes_of_post postId tb)) in
  dash_likedPosts after.1 !! postId = Some (liked (tables after.2))
  ∧ dash_postLikeCounts after.1 !! postId = Some (count (tables after.2))
  ∧ liked (tables after.2) = negb (liked (tables w))
  ∧ count (tables after.2) = count (tables w) + (if liked (tables w) then -1 else 1)
  ∧ ∀ other, other ≠ postId →
      dash_likedPosts after.1 !! other = dash_likedPosts d !! other
      ∧ dash_postLikeCounts after.1 !! other = dash_postLikeCounts d !! other.
Proof.
  intros Hu Hone. cbv zeta. unfold handleLike. rewrite Hu.
  destruct (togglePostLike_reliable user postId w) as [tr Htoggle].
  unfold fetchLikeCount.
  destruct (likes user postId (tables w)) as [|l [|l' ls]] eqn:Hl;
    [| |cbn in Hone; lia]; rewrite Htoggle;
    (erewrite bind_value by apply select_count_reliable);
    cbn [mret client_ret count_or_0 fst snd tables moved_to log dash_toast
         set_postLikeCounts set_likedPosts dash_likedPosts dash_postLikeCounts].
  - rewrite !lookup_insert_eq, likes_after_insert, Hl.
    rewrite decide_True by (by split). cbn [app].
    rewrite like_count_after_insert. cbn [like_post_id]. rewrite decide_True by done.
    rewrite bool_decide_eq_true_2 by done. rewrite bool_decide_eq_false_2 by (by intros ?).
    repeat split; try done; try lia.
    all: intros; by rewrite lookup_insert_ne.
  - rewrite !lookup_insert_eq, likes_after_delete.
    rewrite decide_True by done.
    pose proof (like_count_after_delete user postId (tables w)) as Hcount.
    rewrite Hl in Hcount. cbn [length] in Hcount.
    rewrite bool_decide_eq_false_2 by (by intros ?). rewrite bool_decide_eq_true_2 by done.
    repeat split; try done; try (f_equal; lia); try lia.
    all: intros; by rewrite lookup_insert_ne.
Qed.

Lemma handleLike_agrees_with_tables_witness :
  dash_likedPosts
    (handleLike (B := plain_backend) "post-7" (dashboard_of "alice" [])
       likes_on_two_posts).1 !! "post-7" = Some false
  ∧ dash_postLikeCounts
      (handleLike (B := plain_backend) "post-7" (dashboard_of "alice" [])
         likes_on_two_posts).1 !! "post-7" = Some 1.
Proof.
  destruct (handleLike_agrees_with_tables (B := plain_backend) "post-7"
              (dashboard_of "alice" []) likes_on_two_posts "alice" eq_refl)
    as (Hliked & Hcount & Hflip & Hmoved & _).
  { vm_compute. lia. }
  split.
  - exact (eq_trans Hliked (f_equal Some Hflip)).
  - exact (eq_trans Hcount (f_equal Some Hmoved)).
Defined.

(** ** The feed: pages, order, authors *)

Global Instance not_older_trans : Transitive not_older.
Proof. intros a b c. unfold not_older. lia. Qed.

Global Instance not_older_total : Total not_older.
Proof. intros a b. unfold not_older. lia. Qed.

Lemma StronglySorted_range {A} (R : relation A) from to (l : list A) :
  StronglySorted R l → StronglySorted R (range from to l).
Proof.
  intros Hl. unfold range.
  assert (Hdrop : StronglySorted R (drop (Z.to_nat from) l)).
  { rewrite <- (take_drop (Z.to_nat from) l) in Hl.
    by apply StronglySorted_app_1_r in Hl. }
  set (k := drop (Z.to_nat from) l) in *.
  rewrite <- (take_drop (Z.to_nat (to - from + 1)) k) in Hdrop.
  by apply StronglySorted_app_1_l in Hdrop.
Qed.

Lemma public_posts_page_sorted limit offset tb :
  StronglySorted not_older (public_posts_page limit offset tb).
Proof.
  unfold public_posts_page, newest_first.
  apply StronglySorted_range, StronglySorted_merge_sort; apply _.
Qed.

Lemma public_posts_page_length limit offset tb :
  (length (public_posts_page limit offset tb) ≤ Z.to_nat limit)%nat.
Proof.
  unfold public_posts_page, range. rewrite length_take.
  replace (offset + limit - 1 - offset + 1) with limit by lia. lia.
Qed.

(** What every run of [getGlobalFeed] returns: nothing, or the page of
    posts with some profile on each. *)
Lemma getGlobalFeed_posts {B : Backend} limit offset w :
  ∃ feed,
    (getGlobalFeed limit offset w).1 = inr feed
    ∧ (feed = [] ∨ fp_post <$> feed = public_posts_page limit offset (tables w))
    ∧ tables (getGlobalFeed limit offset w).2 = tables w.
Proof.
  unfold getGlobalFeed, select_rows.
  destruct (fault (tables w) (Select "user_posts")) as [e|] eqn:Hposts.
  - erewrite bind_value by (apply request_refused; exact Hposts).
    exists []. split; [done|]. split; [by left|done].
  - erewrite bind_value by (apply request_admitted; exact Hposts). cbn [fst snd].
    destruct (public_posts_page limit offset (tables w)) as [|post posts] eqn:Hpage.
    + exists []. split; [done|]. split; [by left|done].
    + set (postsData := post :: posts) in *.
      set (w1 := log _ _).
      destruct (fault (tables w1) (Select "user_profiles")) as [e|] eqn:Hprof.
      * erewrite bind_value by (apply request_refused; exact Hprof).
        eexists. split; [reflexivity|]. split; [|done]. right.
        rewrite <- list_fmap_compose. apply list_fmap_id.
      * erewrite bind_value by (apply request_admitted; exact Hprof).
        eexists. split; [reflexivity|]. split; [|done]. right.
        rewrite <- list_fmap_compose. apply list_fmap_id.
Qed.

(** X15. Whatever the backend answers, for an offset that is not negative
    and a positive limit: [getGlobalFeed] returns at most [limit] posts, no
    post of the list is newer than a post before it, and no table is
    written. *)
Theorem getGlobalFeed_page {B : Backend} (limit offset : Z) (w : World) :
  0 ≤ offset → 0 < limit →
  ∃ feed,
    (getGlobalFeed limit offset w).1 = inr feed
    ∧ Z.of_nat (length feed) ≤ limit
    ∧ StronglySorted not_older (fp_post <$> feed)
    ∧ tables (getGlobalFeed limit offset w).2 = tables w.
Proof.
  intros Hoffset Hlimit.
  destruct (getGlobalFeed_posts limit offset w) as (feed & Hret & Hfeed & Htables).
  exists feed. split; [exact Hret|]. destruct Hfeed as [->|Hpage].
  - split; [cbn; lia|]. split; [constructor|exact Htables].
  - split.
    + rewrite <- (length_fmap fp_post), Hpage.
      pose proof (public_posts_page_length limit offset (tables w)). lia.
    + split; [|exact Htables]. rewrite Hpage. apply public_posts_page_sorted.
Qed.

Lemma getGlobalFeed_page_witness :
  ∃ feed,
    (getGlobalFeed (B := plain_backend) 1 0 three_posts).1 = inr feed
    ∧ Z.of_nat (length feed) ≤ 1.
Proof.
  destruct (getGlobalFeed_page (B := plain_backend) 1 0 three_posts)
    as (feed & Hret & Hlen & _); [lia|lia|].
  exists feed. split; [exact Hret|exact Hlen].
Defined.

Lemma find_profile_cons userId p profiles :
  find_profile userId (p :: profiles)
  = if decide (profile_user_id p = userId) then Some p else find_profile userId profiles.
Proof.
  unfold find_profile. cbn [list_find].
  destruct (decide (profile_user_id p = userId)); [done|].
  by destruct (list_find _ profiles) as [[i q]|].
Qed.

Lemma find_profile_among userId userIds tb :
  userId ∈ userIds →
  find_profile userId (profiles_of userIds tb) = find_profile userId (user_profiles tb).
Proof.
  intros Hin. unfold profiles_of.
  induction (user_profiles tb) as [|p l IH]; [done|].
  rewrite filter_cons, (find_profile_cons _ p l).
  destruct (decide (profile_user_id p ∈ userIds)) as [Hp|Hp].
  - rewrite find_profile_cons. by rewrite IH.
  - rewrite decide_False; [exact IH|]. intros Heq. apply Hp. by rewrite Heq.
Qed.

Lemma find_profile_found userId profiles p :
  find_profile userId profiles = Some p → p ∈ profiles ∧ profile_user_id p = userId.
Proof.
  induction profiles as [|q l IH]; [done|]. rewrite find_profile_cons.
  destruct (decide (profile_user_id q = userId)) as [Hq|Hq].
  - intros [= <-]. split; [apply list_elem_of_here|done].
  - intros Hf. destruct (IH Hf) as [Hin Hid]. split; [by apply elem_of_cons; right|done].
Qed.

Lemma find_profile_none userId profiles :
  find_profile userId profiles = None ↔ ∀ p, p ∈ profiles → profile_user_id p ≠ userId.
Proof.
  induction profiles as [|q l IH].
  - split; [|done]. intros _ p Hp. by apply not_elem_of_nil in Hp.
  - rewrite find_profile_cons. destruct (decide (profile_user_id q = userId)) as [Hq|Hq].
    + split; [done|]. intros Hall. exfalso. apply (Hall q); [apply list_elem_of_here|done].
    + rewrite IH. split.
      * intros Hall p [->|Hp]%elem_of_cons; [done|by apply Hall].
      * intros Hall p Hp. apply Hall. by apply elem_of_cons; right.
Qed.

Lemma distinct_acc (ids acc : list string) x :
  x ∈ foldl (λ acc x, if decide (x ∈ acc) then acc else acc ++ [x]) acc ids
  ↔ x ∈ acc ∨ x ∈ ids.
Proof.
  revert acc. induction ids as [|id ids IH]; intros acc; cbn [foldl].
  - split; [by left|]. intros [?|Hx]; [done|]. by apply not_elem_of_nil in Hx.
  - rewrite IH, elem_of_cons. destruct (decide (id ∈ acc)) as [Hid|Hid].
    + split; [tauto|]. intros [?|[->|?]]; tauto.
    + rewrite elem_of_app, list_elem_of_singleton. tauto.
Qed.

Lemma distinct_same_members ids x : x ∈ distinct ids ↔ x ∈ ids.
Proof.
  unfold distinct. rewrite distinct_acc. split; [|by right].
  intros [Hx|?]; [|done]. by apply not_elem_of_nil in Hx.
Qed.

Lemma getGlobalFeed_reliable {B : Backend} {RR : ReliableReads B} limit offset w :
  (getGlobalFeed limit offset w).1
  = inr (feed_item (tables w) <$> public_posts_page limit offset (tables w)).
Proof.
  unfold getGlobalFeed.
  erewrite bind_value by apply select_rows_reliable. cbn [tables log].
  destruct (public_posts_page limit offset (tables w)) as [|post posts] eqn:Hpage; [done|].
  rewrite <- Hpage.
  erewrite bind_value by apply select_rows_reliable. cbn [tables log fst mret client_ret].
  f_equal. apply list_fmap_ext. intros i p Hp. unfold feed_item. f_equal.
  rewrite find_profile_among; [done|].
  apply distinct_same_members, list_elem_of_fmap. exists p. split; [done|].
  by eapply list_elem_of_lookup_2.
Qed.

(** X16. When the backend answers the reads, every post of the feed
    carries a stored profile of its author; it carries the placeholder
    "Anonymous User" exactly when no stored profile belongs to the author. *)
Theorem getGlobalFeed_authors {B : Backend} {RR : ReliableReads B}
    (limit offset : Z) (w : World) :
  ∃ feed,
    (getGlobalFeed limit offset w).1 = inr feed
    ∧ Forall
        (λ item,
           let author := post_user_id (fp_post item) in
           (∃ p, p ∈ user_profiles (tables w) ∧ profile_user_id p = author
                 ∧ fp_user_profiles item = profile_view p)
           ∨ ((∀ p, p ∈ user_profiles (tables w) → profile_user_id p ≠ author)
              ∧ fp_user_profiles item = anonymous_user))
        feed.
Proof.
  eexists. split; [apply getGlobalFeed_reliable|].
  apply Forall_fmap, Forall_forall. intros post _.
  unfold compose. cbn [feed_item fp_post fp_user_profiles].
  destruct (find_profile (post_user_id post) (user_profiles (tables w))) as [p|] eqn:Hfind.
  - left. apply find_profile_found in Hfind as [Hin Hid]. by exists p.
  - right. split; [|done]. by apply find_profile_none.
Qed.

Lemma getGlobalFeed_authors_witness :
  ∃ feed,
    (getGlobalFeed (B := plain_backend) 10 0 three_posts).1 = inr feed
    ∧ fp_user_profiles <$> feed = [anonymous_user; profile_view alices_profile].
Proof.
  destruct (getGlobalFeed_authors (B := plain_backend) 10 0 three_posts)
    as (feed & Hret & _).
  exists feed. split; [exact Hret|].
  assert (Hfeed : inr feed
                  = (getGlobalFeed (B := plain_backend) 10 0 three_posts).1)
    by (by rewrite Hret).
  vm_compute in Hfeed. by injection Hfeed as ->.
Defined.

Lemma range_pages {A} (limit offset : Z) (l : list A) :
  0 ≤ offset → 0 < limit →
  range offset (offset + limit - 1) l
  ++ range (offset + limit) (offset + limit + limit - 1) l
  = range offset (offset + (limit + limit) - 1) l.
Proof.
  intros Hoffset Hlimit. unfold range.
  replace (offset + limit - 1 - offset + 1) with limit by lia.
  replace (offset + limit + limit - 1 - (offset + limit) + 1) with limit by lia.
  replace (offset + (limit + limit) - 1 - offset + 1) with (limit + limit) by lia.
  rewrite (Z2Nat.inj_add offset limit), (Z2Nat.inj_add limit limit) by lia.
  rewrite <- drop_drop. apply take_take_drop.
Qed.

Lemma distinct_keys_inj {A K} (f : A → K) (l : list A) x y :
  NoDup (f <$> l) → x ∈ l → y ∈ l → f x = f y → x = y.
Proof.
  induction l as [|z l IH]; [by intros _ ?%not_elem_of_nil|].
  rewrite fmap_cons, NoDup_cons. intros [Hz Hl] Hx Hy Hf.
  apply elem_of_cons in Hx as [->|Hx]; apply elem_of_cons in Hy as [->|Hy].
  - done.
  - exfalso. apply Hz. rewrite Hf. by apply list_elem_of_fmap_2.
  - exfalso. apply Hz. rewrite <- Hf. by apply list_elem_of_fmap_2.
  - by apply IH.
Qed.

(** With pairwise different [created_at], there is one newest-first order. *)
Lemma newest_first_determined (posts ordered : list UserPost) :
  NoDup (created_at <$> posts) →
  ordered ≡ₚ posts →
  StronglySorted not_older ordered →
  ordered = newest_first posts.
Proof.
  intros Hkeys Hperm Hsorted. unfold newest_first.
  apply (StronglySorted_unique_strong not_older).
  - intros x y Hx Hy Hxy Hyx. rewrite Hperm in Hx.
    rewrite merge_sort_Permutation in Hy.
    apply (distinct_keys_inj created_at posts); [done..|].
    unfold not_older in *. lia.
  - exact Hsorted.
  - apply StronglySorted_merge_sort; apply _.
  - by rewrite merge_sort_Permutation.
Qed.

(** X17. Pages of the feed fit together. When the backend answers the
    reads, the tables do not change in between, and the public posts have
    pairwise different [created_at] (the query orders by [created_at] alone,
    so only then is the order of the rows determined): the page of [limit]
    posts at [offset] followed by the page of [limit] posts at
    [offset + limit] is the page of [limit + limit] posts at [offset], so no
    post is skipped or repeated at the seam; and the two pages are the rows
    [offset] to [offset + limit - 1] and [offset + limit] to
    [offset + 2 limit - 1] of every newest-first arrangement of the public
    posts. *)
Theorem getGlobalFeed_pages_compose {B : Backend} {RR : ReliableReads B}
    (limit offset : Z) (w : World) :
  0 ≤ offset → 0 < limit →
  NoDup (created_at <$> filter (λ p, is_public p = true) (user_posts (tables w))) →
  let first := getGlobalFeed limit offset w in
  let second := getGlobalFeed limit (offset + limit) first.2 in
  ∃ page1 page2,
    first.1 = inr page1
    ∧ second.1 = inr page2
    ∧ (getGlobalFeed (limit + limit) offset w).1 = inr (page1 ++ page2)
    ∧ ∀ ordered,
        ordered ≡ₚ filter (λ p, is_public p = true) (user_posts (tables w)) →
        StronglySorted not_older ordered →
        fp_post <$> page1 = range offset (offset + limit - 1) ordered
        ∧ fp_post <$> page2
          = range (offset + limit) (offset + limit + limit - 1) ordered.
Proof.
  intros Hoffset Hlimit Hkeys. cbv zeta.
  destruct (getGlobalFeed_posts limit offset w) as (_ & _ & _ & Htables).
  rewrite !getGlobalFeed_reliable, Htables.
  eexists _, _. split; [reflexivity|]. split; [reflexivity|]. split.
  - rewrite <- fmap_app. do 2 f_equal.
    unfold public_posts_page. symmetry. by apply range_pages.
  - intros ordered Hperm Hsorted.
    rewrite (newest_first_determined _ ordered Hkeys Hperm Hsorted).
    rewrite <- !list_fmap_compose.
    split; apply list_fmap_id.
Qed.

Lemma getGlobalFeed_pages_compose_witness :
  ∃ page1 page2,
    (getGlobalFeed (B := plain_backend) 1 0 three_posts).1 = inr page1
    ∧ (getGlobalFeed (B := plain_backend) 1 1
         (getGlobalFeed (B := plain_backend) 1 0 three_posts).2).1 = inr page2
    ∧ (getGlobalFeed (B := plain_backend) 2 0 three_posts).1 = inr (page1 ++ page2).
Proof.
  destruct (getGlobalFeed_pages_compose (B := plain_backend) 1 0 three_posts)
    as (page1 & page2 & H1 & H2 & Hboth & _); [lia|lia|..].
  - apply (bool_decide_unpack _). vm_compute. exact I.
  - exists page1, page2. split; [exact H1|]. split; [exact H2|exact Hboth].
Defined.

(** ** The dashboard feed ([loadMorePosts]) *)

Lemma getPostLikeStatus_frame {B : Backend} userId postIds w :
  tables (getPostLikeStatus userId postIds w).2 = tables w.
Proof.
  unfold getPostLikeStatus.
  destruct (select_rows_frame "post_likes" (likes_among userId postIds) w) as [res Hres].
  erewrite bind_value by exact Hres. by destruct res.
Qed.

Lemma fetchLikeCount_frame {B : Backend} postId w :
  ∃ n, fetchLikeCount postId w = (inr n, log (Count "post_likes") w).
Proof.
  unfold fetchLikeCount.
  destruct (select_count_frame "post_likes" (likes_of_post postId) w) as [res Hres].
  erewrite bind_value by exact Hres. by eexists.
Qed.

Lemma fetchLikeCounts_frame {B : Backend} postIds w :
  ∃ ns w', fetchLikeCounts postIds w = (inr ns, w') ∧ tables w' = tables w.
Proof.
  revert w. induction postIds as [|id ids IH]; intros w; cbn [fetchLikeCounts].
  - by exists [], w.
  - destruct (fetchLikeCount_frame id w) as [n Hn].
    erewrite bind_value by exact Hn.
    destruct (IH (log (Count "post_likes") w)) as (ns & w' & Hns & Htb).
    erewrite bind_value by exact Hns. by exists (n :: ns), w'.
Qed.

Lemma public_posts_page_ids limit offset tb :
  NoDup (post_id <$> user_posts tb) →
  NoDup (post_id <$> public_posts_page limit offset tb).
Proof.
  intros Hkeys. unfold public_posts_page, range, newest_first.
  eapply sublist_NoDup; [|apply fmap_sublist, sublist_take].
  eapply sublist_NoDup; [|apply fmap_sublist, sublist_drop].
  rewrite merge_sort_Permutation.
  eapply sublist_NoDup; [exact Hkeys|]. apply fmap_sublist, sublist_filter.
Qed.

Lemma uniqueNewPosts_fresh prev newPosts :
  NoDup (shown_ids prev) → NoDup (shown_ids newPosts) →
  NoDup (shown_ids (prev ++ uniqueNewPosts prev newPosts)).
Proof.
  intros Hprev Hnew. unfold shown_ids in *. rewrite fmap_app. apply NoDup_app.
  split; [exact Hprev|]. split.
  - intros id Hid Hfresh. apply list_elem_of_fmap in Hfresh as (item & -> & Hitem).
    unfold uniqueNewPosts in Hitem. apply list_elem_of_filter in Hitem as [Hout _].
    by apply Hout.
  - eapply sublist_NoDup; [exact Hnew|]. apply fmap_sublist, sublist_filter.
Qed.

(** X18. Whatever the backend answers, and whichever earlier state the
    scroll handler captured: if post ids are unique in the table and on the
    dashboard, then after [loadMorePosts] the ids on the dashboard are still
    unique; the posts shown before stay in front, in their order; every post
    added is a stored post whose [is_public] flag is set; and no table is
    written. *)
Theorem loadMorePosts_no_duplicates {B : Backend} (seen d : Dashboard) (w : World) :
  NoDup (post_id <$> user_posts (tables w)) →
  NoDup (shown_ids (dash_posts d)) →
  let after := loadMorePosts seen d w in
  NoDup (shown_ids (dash_posts after.1))
  ∧ (∃ added,
       dash_posts after.1 = dash_posts d ++ added
       ∧ Forall (λ item, is_public (fp_post item) = true
                         ∧ fp_post item ∈ user_posts (tables w)) added)
  ∧ tables after.2 = tables w.
Proof.
  intros Hkeys Hshown. cbv zeta. unfold loadMorePosts.
  assert (Hsame : ∃ added,
            dash_posts d = dash_posts d ++ added
            ∧ Forall (λ item, is_public (fp_post item) = true
                              ∧ fp_post item ∈ user_posts (tables w)) added).
  { exists []. by rewrite app_nil_r. }
  destruct (dash_user seen) as [user|]; [|done].
  destruct (dash_postsLoading seen || negb (dash_hasMorePosts seen)); [done|].
  destruct (getGlobalFeed_posts 10 (dash_postOffset seen) w)
    as (feed & Hret & Hfeed & Hframe).
  destruct (getGlobalFeed 10 (dash_postOffset seen) w) as [[t|newPosts] w1];
    cbn [fst snd] in Hret, Hframe; [done|]. injection Hret as ->.
  destruct feed as [|item feed]; [done|].
  destruct Hfeed as [Hnil|Hpage]; [discriminate Hnil|].
  set (newPosts := item :: feed) in *.
  set (fresh := uniqueNewPosts (dash_posts d) newPosts).
  assert (Hids : NoDup (shown_ids newPosts)).
  { unfold shown_ids. rewrite (list_fmap_compose fp_post post_id), Hpage.
    by apply public_posts_page_ids. }
  assert (Hadded : Forall (λ item, is_public (fp_post item) = true
                                   ∧ fp_post item ∈ user_posts (tables w)) fresh).
  { apply Forall_forall. intros x Hx. unfold fresh, uniqueNewPosts in Hx.
    apply list_elem_of_filter in Hx as [_ Hx].
    pose proof (public_posts_page_public 10 (dash_postOffset seen) (tables w)) as Hpub.
    rewrite <- Hpage in Hpub. rewrite Forall_fmap, Forall_forall in Hpub.
    by apply Hpub. }
  assert (Hgoal : NoDup (shown_ids (dash_posts d ++ fresh))
                  ∧ (∃ added, dash_posts d ++ fresh = dash_posts d ++ added
                              ∧ Forall (λ item, is_public (fp_post item) = true
                                                ∧ fp_post item ∈ user_posts (tables w))
                                       added)).
  { split; [by apply uniqueNewPosts_fresh|]. by exists fresh. }
  destruct Hgoal as [Hnodup Hprefix].
  destruct (shown_ids (uniqueNewPosts (dash_posts seen) newPosts)) as [|id ids];
    [done|].
  pose proof (getPostLikeStatus_frame user (id :: ids) w1) as Hstatus.
  destruct (getPostLikeStatus user (id :: ids) w1) as [[t|likesStatus] w2];
    cbn [fst snd] in Hstatus |- *; [by rewrite Hstatus|].
  destruct (fetchLikeCounts_frame (id :: ids) w2) as (ns & w3 & Hcounts & Htb).
  rewrite Hcounts. cbn [fst snd set_postLikeCounts set_likedPosts set_feed dash_posts].
  by rewrite Htb, Hstatus.
Qed.

Lemma loadMorePosts_no_duplicates_witness :
  NoDup (shown_ids
           (dash_posts (loadMorePosts (B := plain_backend) (dashboard_of "alice" [])
                          first_page_shown three_posts).1))
  ∧ tables (loadMorePosts (B := plain_backend) (dashboard_of "alice" [])
              first_page_shown three_posts).2
    = tables three_posts.
Proof.
  destruct (loadMorePosts_no_duplicates (B := plain_backend) (dashboard_of "alice" [])
              first_page_shown three_posts) as (Hnodup & _ & Htables).
  - apply (bool_decide_unpack _). vm_compute. exact I.
  - apply (bool_decide_unpack _). vm_compute. exact I.
  - split; [exact Hnodup|exact Htables].
Defined.

Lemma fetchLikeCounts_reliable {B : Backend} {RR : ReliableReads B} postIds w :
  ∃ w', fetchLikeCounts postIds w
        = (inr ((λ id, Z.of_nat (length (likes_of_post id (tables w)))) <$> postIds), w')
        ∧ tables w' = tables w.
Proof.
  revert w. induction postIds as [|id ids IH]; intros w; cbn [fetchLikeCounts].
  - by exists w.
  - unfold fetchLikeCount at 1.
    erewrite bind_value; cycle 1.
    { erewrite bind_value by apply select_count_reliable. reflexivity. }
    destruct (IH (log (Count "post_likes") w)) as (w' & Hns & Htb).
    erewrite bind_value by exact Hns. by exists w'.
Qed.

Lemma like_count_map_entries (f : string → Z) (postIds : list string) (m : gmap string Z) k :
  foldl (λ m ic, <[ic.1 := ic.2]> m) m (zip postIds (f <$> postIds)) !! k
  = if decide (k ∈ postIds) then Some (f k) else m !! k.
Proof.
  revert m. induction postIds as [|id ids IH]; intros m; cbn [foldl zip zip_with fmap list_fmap].
  - rewrite decide_False; [done|]. apply not_elem_of_nil.
  - fold (fmap f ids). fold (zip ids (f <$> ids)). rewrite IH. cbn [fst snd].
    destruct (decide (k ∈ ids)) as [Hin|Hout].
    + rewrite decide_True; [done|]. by apply elem_of_cons; right.
    + destruct (decide (k = id)) as [->|Hne].
      * rewrite lookup_insert_eq. rewrite decide_True; [done|]. apply list_elem_of_here.
      * rewrite lookup_insert_ne by done. rewrite decide_False; [done|].
        intros [?|?]%elem_of_cons; contradiction.
Qed.

(** X19. When the backend answers the reads and [loadMorePosts] runs (in
    the state the scroll handler captured, a user is signed in, no load is
    under way and more posts are expected).  The page it fetches is the one
    at the captured offset.  For every post of that page that is not in the
    captured post list, also one the dashboard shows by now, the entry in
    [likedPosts] is set to whether the user has a like on the post and the
    entry in [postLikeCounts] to the number of likes it has; the entries of
    all other posts are the ones from before the call.  When the captured
    post list is the current one, these posts are exactly the posts the
    call adds to the dashboard.  The offset kept is the current one, raised
    by 10 unless the page is empty. *)
Theorem loadMorePosts_like_entries {B : Backend} {RR : ReliableReads B}
    (seen d : Dashboard) (w : World) (user : string) :
  dash_user seen = Some user →
  dash_postsLoading seen = false →
  dash_hasMorePosts seen = true →
  let after := loadMorePosts seen d w in
  ∃ page,
    (getGlobalFeed 10 (dash_postOffset seen) w).1 = inr page
    ∧ (∀ id,
         if decide (id ∈ shown_ids (uniqueNewPosts (dash_posts seen) page))
         then dash_likedPosts after.1 !! id
              = Some (bool_decide (likes user id (tables w) ≠ []))
              ∧ dash_postLikeCounts after.1 !! id
                = Some (Z.of_nat (length (likes_of_post id (tables w))))
         else dash_likedPosts after.1 !! id = dash_likedPosts d !! id
              ∧ dash_postLikeCounts after.1 !! id = dash_postLikeCounts d !! id)
    ∧ (dash_posts seen = dash_posts d →
       ∀ id, id ∈ shown_ids (uniqueNewPosts (dash_posts seen) page)
             ↔ id ∈ shown_ids (dash_posts after.1) ∧ id ∉ shown_ids (dash_posts d))
    ∧ dash_postOffset after.1
      = match page with [] => dash_postOffset d | _ => dash_postOffset d + 10 end.
Proof.
  intros Hu Hloading Hmore. cbv zeta. unfold loadMorePosts.
  rewrite Hu, Hloading, Hmore. cbn [orb negb].
  destruct (getGlobalFeed_posts 10 (dash_postOffset seen) w)
    as (feed & Hret & _ & Hframe).
  destruct (getGlobalFeed 10 (dash_postOffset seen) w) as [[t|newPosts] w1];
    cbn [fst snd] in Hret, Hframe; [done|]. injection Hret as ->.
  exists feed. split; [done|].
  destruct feed as [|item feed].
  { cbn [fst set_feed dash_posts dash_likedPosts dash_postLikeCounts dash_postOffset].
    split; [|split; [|done]].
    - intros id. rewrite decide_False; [done|]. apply not_elem_of_nil.
    - intros _ id. split; [by intros ?%not_elem_of_nil|by intros [? ?]]. }
  set (newPosts := item :: feed) in *.
  set (fresh := uniqueNewPosts (dash_posts d) newPosts).
  assert (Hnew : ∀ id, id ∈ shown_ids (dash_posts d ++ fresh) ∧ id ∉ shown_ids (dash_posts d)
                       ↔ id ∈ shown_ids fresh).
  { intros id. unfold shown_ids. rewrite fmap_app, elem_of_app. split; [tauto|].
    intros Hid. split; [by right|]. fold (shown_ids (dash_posts d)).
    apply list_elem_of_fmap in Hid as (x & -> & Hx). unfold fresh, uniqueNewPosts in Hx.
    by apply list_elem_of_filter in Hx as [Hout _]. }
  assert (Hposts : dash_posts seen = dash_posts d →
            ∀ id, id ∈ shown_ids (uniqueNewPosts (dash_posts seen) newPosts)
                  ↔ id ∈ shown_ids (dash_posts d ++ fresh)
                    ∧ id ∉ shown_ids (dash_posts d)).
  { intros -> id. by rewrite Hnew. }
  set (asked := shown_ids (uniqueNewPosts (dash_posts seen) newPosts)) in *.
  destruct asked as [|id0 ids] eqn:Hasked.
  { cbn [fst set_feed dash_posts dash_likedPosts dash_postLikeCounts dash_postOffset].
    split; [|split; [exact Hposts|done]].
    intros id. rewrite decide_False; [done|]. apply not_elem_of_nil. }
  rewrite getPostLikeStatus_reliable.
  set (likesStatus := foldl _ _ _).
  assert (Hentries : ∀ id, likesStatus !! id
                           = if decide (id ∈ id0 :: ids)
                             then Some (bool_decide (likes user id (tables w1) ≠ []))
                             else None).
  { intros id. apply like_status_entries. }
  clearbody likesStatus.
  destruct (fetchLikeCounts_reliable (id0 :: ids) (log (Select "post_likes") w1))
    as (w3 & Hcounts & _).
  rewrite Hcounts.
  cbn [fst set_feed set_likedPosts set_postLikeCounts dash_posts dash_likedPosts
       dash_postLikeCounts dash_postOffset].
  split; [|split; [exact Hposts|done]].
  intros id. unfold like_count_map. cbn [tables log]. rewrite Hframe.
  pose proof (like_count_map_entries
                (λ id, Z.of_nat (length (likes_of_post id (tables (log (Select "post_likes") w1)))))
                (id0 :: ids) ∅ id) as Hmap.
  pose proof (Hentries id) as Hentry.
  cbn [tables log] in Hmap. rewrite Hframe in Hmap, Hentry.
  destruct (decide (id ∈ id0 :: ids)) as [Hid|Hid].
  - split.
    + exact (lookup_union_Some_l _ _ _ _ Hentry).
    + exact (lookup_union_Some_l _ _ _ _ Hmap).
  - split.
    + by apply lookup_union_r.
    + rewrite lookup_empty in Hmap. by apply lookup_union_r.
Qed.

Lemma loadMorePosts_like_entries_witness :
  dash_likedPosts first_page_shown !! "post-3" = Some false
  ∧ dash_likedPosts
      (loadMorePosts (B := plain_backend) (dashboard_of "alice" []) first_page_shown
         three_posts).1 !! "post-3" = Some true
  ∧ dash_postLikeCounts
      (loadMorePosts (B := plain_backend) (dashboard_of "alice" []) first_page_shown
         three_posts).1 !! "post-3" = Some 1
  ∧ dash_postOffset
      (loadMorePosts (B := plain_backend) (dashboard_of "alice" []) first_page_shown
         three_posts).1 = 20.
Proof.
  destruct (loadMorePosts_like_entries (B := plain_backend) (dashboard_of "alice" [])
              first_page_shown three_posts "alice" eq_refl eq_refl eq_refl)
    as (page & Hpage & Hentries & _ & Hoffset).
  assert (Hfeed : inr page
                  = (getGlobalFeed (B := plain_backend) 10 0 three_posts).1)
    by (by rewrite <- Hpage).
  vm_compute in Hfeed. injection Hfeed as ->.
  split; [reflexivity|].
  pose proof (Hentries "post-3") as Hentry.
  rewrite decide_True in Hentry
    by (apply (bool_decide_unpack _); vm_compute; exact I).
  destruct Hentry as [Hliked Hcount].
  split; [exact Hliked|]. split; [exact Hcount|exact Hoffset].
Defined.

(** ** Uploads: the other wrappers, the type checks, what an upload leaves *)

Lemma uploadFile_too_large {B : Backend} file options userId w m :
  maxSize options = Some m → m ≠ 0 → m < file_size file →
  uploadFile file options userId w
  = (inr (rejected ("File size exceeds " +:+ formatFileSize m +:+ " limit")), w).
Proof.
  intros Hm Hnz Hbig. unfold uploadFile. rewrite Hm.
  rewrite (proj2 (Z.ltb_lt _ _) Hbig), (proj2 (Z.eqb_neq _ _) Hnz). reflexivity.
Qed.

Lemma uploadFile_wrong_type {B : Backend} file options userId w m types :
  maxSize options = Some m → file_size file ≤ m →
  allowedTypes options = Some types → file_type file ∉ types →
  uploadFile file options userId w
  = (inr (rejected ("File type " +:+ file_type file +:+ " is not allowed")), w).
Proof.
  intros Hm Hfits Htypes Hout. unfold uploadFile. rewrite Hm, Htypes.
  rewrite (proj2 (Z.ltb_ge _ _) Hfits), andb_false_r.
  by rewrite bool_decide_eq_false_2.
Qed.

(** X20. The limits of the other five upload wrappers. A file over 40 MB
    is turned down by [uploadPostImage], over 50 MB by [uploadStoryMedia],
    over 25 MB by [uploadChatMedia], over 10 MB by [uploadTripImage] and
    [uploadBikeImage], each with the message that names its own limit and
    with empty [url] and [path]; the size is checked before the type, and
    the world is the one before the call. *)
Theorem upload_wrappers_size_limits {B : Backend} (file : File) (userId : string)
    (w : World) :
  (40 * 1024 * 1024 < file_size file →
   uploadPostImage file userId w
   = (inr {| url := ""; path := ""; error := Some "File size exceeds 40 MB limit" |}, w))
  ∧ (50 * 1024 * 1024 < file_size file →
     uploadStoryMedia file userId w
     = (inr {| url := ""; path := ""; error := Some "File size exceeds 50 MB limit" |}, w))
  ∧ (25 * 1024 * 1024 < file_size file →
     uploadChatMedia file userId w
     = (inr {| url := ""; path := ""; error := Some "File size exceeds 25 MB limit" |}, w))
  ∧ (10 * 1024 * 1024 < file_size file →
     uploadTripImage file userId w
     = (inr {| url := ""; path := ""; error := Some "File size exceeds 10 MB limit" |}, w)
     ∧ uploadBikeImage file userId w
       = (inr {| url := ""; path := ""; error := Some "File size exceeds 10 MB limit" |},
          w)).
Proof.
  split; [|split; [|split]]; intros Hbig.
  - unfold uploadPostImage.
    by rewrite (uploadFile_too_large _ _ _ _ (40 * 1024 * 1024)).
  - unfold uploadStoryMedia.
    by rewrite (uploadFile_too_large _ _ _ _ (50 * 1024 * 1024)).
  - unfold uploadChatMedia.
    by rewrite (uploadFile_too_large _ _ _ _ (25 * 1024 * 1024)).
  - unfold uploadTripImage, uploadBikeImage.
    by rewrite !(uploadFile_too_large _ _ _ _ (10 * 1024 * 1024)).
Qed.

Lemma upload_wrappers_size_limits_witness :
  uploadChatMedia (B := plain_backend)
    {| file_name := "tour.mp4"; file_size := 30 * 1024 * 1024; file_type := "video/mp4" |}
    "alice" alice_alone
  = (inr {| url := ""; path := ""; error := Some "File size exceeds 25 MB limit" |},
     alice_alone).
Proof.
  destruct (upload_wrappers_size_limits (B := plain_backend)
              {| file_name := "tour.mp4"; file_size := 30 * 1024 * 1024;
                 file_type := "video/mp4" |}
              "alice" alice_alone) as (_ & _ & Hchat & _).
  apply Hchat. vm_compute. reflexivity.
Defined.

Section uploads.
Context {B : Backend}.

Lemma uploadFile_checks_passed file options :
  (∀ m, maxSize options = Some m → m = 0 ∨ file_size file ≤ m) →
  (∀ types, allowedTypes options = Some types → file_type file ∈ types) →
  match maxSize options with
  | Some m => negb (m =? 0) && (m <? file_size file)
  | None => false
  end = false
  ∧ match allowedTypes options with
    | Some types => negb (bool_decide (file_type file ∈ types))
    | None => false
    end = false.
Proof.
  intros Hsize Htype. split.
  - destruct (maxSize options) as [m|]; [|done].
    destruct (Hsize m eq_refl) as [->|Hfits]; [done|].
    by rewrite (proj2 (Z.ltb_ge _ _) Hfits), andb_false_r.
  - destruct (allowedTypes options) as [types|]; [|done].
    by rewrite bool_decide_eq_true_2 by by apply Htype.
Qed.


Lemma uploadFile_admitted file options userId w :
  (∀ m, maxSize options = Some m → m = 0 ∨ file_size file ≤ m) →
  (∀ types, allowedTypes options = Some types → file_type file ∈ types) →
  let filePath := upload_path file options userId w in
  let stored := StorageUpload (bucket options) filePath in
  fault (tables w) stored = None →
  (bucket options, filePath) ∉ storage_objects (tables w) →
  let w1 :=
    log stored
      (with_tables (set_storage_objects (λ l, l ++ [(bucket options, filePath)])) w) in
  let result :=
    {| url := getPublicUrl (bucket options) filePath; path := filePath; error := None |} in
  uploadFile file options userId w
  = match userId with
    | Some uid =>
        if truthy uid then
          (_ ← saveFileMetadata
                 {| mf_user_id := uid;
                    mf_filename := upload_name file w;
                    mf_original_name := file_name file;
                    mf_file_size := file_size file;
                    mf_mime_type := file_type file;
                    mf_storage_path := filePath;
                    mf_public_url := getPublicUrl (bucket options) filePath;
                    mf_entity_type := getEntityTypeFromBucket (bucket options);
                    mf_is_public := negb (String.eqb (bucket options) buckets_chat) |};
           mret result) w1
        else (inr result, w1)
    | None => (inr result, w1)
    end.
Proof.
  intros Hsize Htype filePath stored Hfault Hfree w1 result.
  destruct (uploadFile_checks_passed file options Hsize Htype) as [Hs Ht].
  unfold uploadFile. rewrite Hs, Ht. cbv zeta.
  fold (upload_name file w). fold (upload_path file options userId w). fold filePath.
  unfold storage_upload.
  erewrite bind_value by (apply request_admitted; exact Hfault).
  cbv beta. rewrite !decide_False by exact Hfree. cbn [fst snd].
  change (log _ (with_tables _ w)) with w1.
  destruct userId as [uid|]; [|done].
  destruct (truthy uid); done.
Qed.
End uploads.

(** X21. What a successful upload leaves. For a file that passes the size
    and type checks, a user id that is not empty, an object path that is
    free and has no empty folder, a public address made of characters that
    [encodeURI] keeps, and a backend that admits the storage upload and the
    insert into [media_files]: [uploadFile] returns the path and the public
    address of the object without error, exactly one object is added to the
    storage under that path, and exactly one row is added to [media_files],
    which carries the same path and address, the size, type and name of the
    file and the user id; the row is public unless the bucket is the chat
    bucket. *)
Theorem uploadFile_stores_and_records {B : Backend} (file : File)
    (options : UploadOptions) (uid : string) (w : World) :
  (∀ m, maxSize options = Some m → m = 0 ∨ file_size file ≤ m) →
  (∀ types, allowedTypes options = Some types → file_type file ∈ types) →
  uid ≠ "" →
  let filePath := upload_path file options (Some uid) w in
  clean_path filePath = true →
  uri_plain (getPublicUrl (bucket options) filePath) = true →
  (bucket options, filePath) ∉ storage_objects (tables w) →
  fault (tables w) (StorageUpload (bucket options) filePath) = None →
  (∀ tb, fault tb (Insert "media_files") = None) →
  let after := uploadFile file options (Some uid) w in
  after.1 = inr {| url := getPublicUrl (bucket options) filePath;
                   path := filePath;
                   error := None |}
  ∧ storage_objects (tables after.2)
    = storage_objects (tables w) ++ [(bucket options, filePath)]
  ∧ ∃ row,
      media_files (tables after.2) = media_files (tables w) ++ [row]
      ∧ mf_storage_path row = filePath
      ∧ mf_public_url row = getPublicUrl (bucket options) filePath
      ∧ mf_user_id row = uid
      ∧ mf_original_name row = file_name file
      ∧ mf_file_size row = file_size file
      ∧ mf_mime_type row = file_type file
      ∧ mf_is_public row = negb (String.eqb (bucket options) buckets_chat).
Proof.
  intros Hsize Htype Huid filePath Hclean Hplain Hfree Hstorage Hinsert. cbv zeta.
  rewrite (uploadFile_admitted file options (Some uid) w Hsize Htype Hstorage Hfree).
  assert (Htruthy : truthy uid = true).
  { unfold truthy. by rewrite (proj2 (String_eqb_false uid "")). }
  rewrite Htruthy. unfold saveFileMetadata.
  rewrite <- !(assoc_L (≫=)) || idtac.
  erewrite bind_value; cycle 1.
  { erewrite bind_value by (apply request_admitted; apply Hinsert). reflexivity. }
  cbn [fst snd tables log with_tables mret client_ret storage_objects set_media_files
       set_storage_objects media_files].
  split; [done|]. split; [done|]. eexists. split; [reflexivity|]. by repeat split.
Qed.

Lemma uploadFile_stores_and_records_witness :
  (uploadFile (B := plain_backend) small_photo (avatar_options "alice") (Some "alice")
     alice_alone).1
  = inr {| url := "https://project.supabase.co/storage/v1/object/public/avatars/alice/1700000000000_k3x9q.png";
           path := "alice/1700000000000_k3x9q.png";
           error := None |}
  ∧ length (media_files
              (tables (uploadFile (B := plain_backend) small_photo (avatar_options "alice")
                         (Some "alice") alice_alone).2)) = 1%nat.
Proof.
  destruct (uploadFile_stores_and_records (B := plain_backend) small_photo
              (avatar_options "alice") "alice" alice_alone)
    as (Hret & _ & row & Hrows & _).
  - intros m [= <-]. right. vm_compute. discriminate.
  - intros types [= <-]. apply (bool_decide_unpack _). vm_compute. exact I.
  - discriminate.
  - reflexivity.
  - reflexivity.
  - apply (bool_decide_unpack _). vm_compute. exact I.
  - reflexivity.
  - reflexivity.
  - split; [rewrite Hret; vm_compute; reflexivity|]. rewrite Hrows. reflexivity.
Defined.



(** X23. A failed metadata insert is not reported. For a file that passes
    the checks, a user id that is not empty, an object path that is free and
    has no empty folder, and a public address made of characters that
    [encodeURI] keeps: if the backend admits the storage upload but refuses
    the insert into [media_files], [uploadFile] still returns the path and
    the public address without error; the object is in the storage and
    [media_files] has no row for it. *)
Theorem uploadFile_unrecorded_object {B : Backend} (file : File) (options : UploadOptions)
    (uid : string) (w : World) (e : PostgrestError) :
  (∀ m, maxSize options = Some m → m = 0 ∨ file_size file ≤ m) →
  (∀ types, allowedTypes options = Some types → file_type file ∈ types) →
  uid ≠ "" →
  let filePath := upload_path file options (Some uid) w in
  clean_path filePath = true →
  uri_plain (getPublicUrl (bucket options) filePath) = true →
  (bucket options, filePath) ∉ storage_objects (tables w) →
  fault (tables w) (StorageUpload (bucket options) filePath) = None →
  (∀ tb, fault tb (Insert "media_files") = Some e) →
  let after := uploadFile file options (Some uid) w in
  after.1 = inr {| url := getPublicUrl (bucket options) filePath;
                   path := filePath;
                   error := None |}
  ∧ (bucket options, filePath) ∈ storage_objects (tables after.2)
  ∧ media_files (tables after.2) = media_files (tables w).
Proof.
  intros Hsize Htype Huid filePath Hclean Hplain Hfree Hstorage Hinsert. cbv zeta.
  rewrite (uploadFile_admitted file options (Some uid) w Hsize Htype Hstorage Hfree).
  assert (Htruthy : truthy uid = true).
  { unfold truthy. by rewrite (proj2 (String_eqb_false uid "")). }
  rewrite Htruthy. unfold saveFileMetadata.
  rewrite <- !(assoc_L (≫=)) || idtac.
  erewrite bind_value; cycle 1.
  { erewrite bind_value by (apply request_refused; apply Hinsert). reflexivity. }
  cbn [fst snd tables log with_tables mret client_ret storage_objects
       set_storage_objects media_files].
  split; [done|]. split; [|done]. apply elem_of_app. right. apply list_elem_of_here.
Qed.

Lemma uploadFile_unrecorded_object_witness :
  ("avatars", "alice/1700000000000_k3x9q.png")
    ∈ storage_objects
        (tables (uploadFile (B := refusing is_insert) small_photo (avatar_options "alice")
                   (Some "alice") alice_alone).2)
  ∧ media_files
      (tables (uploadFile (B := refusing is_insert) small_photo (avatar_options "alice")
                 (Some "alice") alice_alone).2)
    = [].
Proof.
  destruct (uploadFile_unrecorded_object (B := refusing is_insert) small_photo
              (avatar_options "alice") "alice" alice_alone network_failure)
    as (_ & Hstored & Hrows).
  - intros m [= <-]. right. vm_compute. discriminate.
  - intros types [= <-]. apply (bool_decide_unpack _). vm_compute. exact I.
  - discriminate.
  - reflexivity.
  - reflexivity.
  - apply (bool_decide_unpack _). vm_compute. exact I.
  - reflexivity.
  - reflexivity.
  - split; [exact Hstored|exact Hrows].
Defined.

Lemma uploadFile_first_request {B : Backend} file options userId w :
  (∀ m, maxSize options = Some m → m = 0 ∨ file_size file ≤ m) →
  (∀ types, allowedTypes options = Some types → file_type file ∈ types) →
  ∃ rest,
    trace (uploadFile file options userId w).2
    = trace w
      ++ StorageUpload (bucket options) (upload_path file options userId w) :: rest.
Proof.
  intros Hsize Htype.
  destruct (uploadFile_checks_passed file options Hsize Htype) as [Hs Ht].
  unfold uploadFile. rewrite Hs, Ht. cbv zeta.
  fold (upload_name file w). fold (upload_path file options userId w).
  set (filePath := upload_path file options userId w).
  unfold storage_upload, mbind, client_bind, request.
  destruct (fault (tables w) (StorageUpload (bucket options) filePath)).
  { by exists []. }
  destruct (decide ((bucket options, filePath) ∈ storage_objects (tables w))).
  { by exists []. }
  destruct userId as [uid|]; [|by exists []].
  destruct (truthy uid); [|by exists []].
  unfold saveFileMetadata, mbind, client_bind, request. cbn [tables log with_tables].
  match goal with |- context [fault ?tb ?r] => destruct (fault tb r) end;
    exists [Insert "media_files"]; cbn [snd trace log with_tables mret client_ret];
    by rewrite <- app_assoc.
Qed.

(** X24. The two type predicates against the upload wrappers. A file
    that [isValidVideo] accepts and that is not an mp4 (a webm or ogg
    video) is turned down by [uploadStoryMedia] and [uploadChatMedia], the
    two wrappers that take videos, with "File type ... is not allowed" and
    no request, when it is within their size limits. A file that
    [isValidImage] accepts and that is at most 10 MB passes the checks of
    all six wrappers: each sends the storage upload to its own bucket as
    its first request. *)
Theorem valid_types_and_wrappers {B : Backend} (file : File) (userId : string)
    (w : World) :
  (isValidVideo file = true → file_type file ≠ "video/mp4" →
   file_size file ≤ 25 * 1024 * 1024 →
   let refusal :=
     {| url := ""; path := "";
        error := Some ("File type " +:+ file_type file +:+ " is not allowed") |} in
   uploadStoryMedia file userId w = (inr refusal, w)
   ∧ uploadChatMedia file userId w = (inr refusal, w))
  ∧ (isValidImage file = true → file_size file ≤ 10 * 1024 * 1024 →
     Forall
       (λ wrapper : (File → string → Client UploadResult) * string,
          ∃ p rest,
            trace (wrapper.1 file userId w).2
            = trace w ++ StorageUpload wrapper.2 p :: rest)
       [(uploadAvatar, buckets_avatars); (uploadPostImage, buckets_posts);
        (uploadStoryMedia, buckets_stories); (uploadChatMedia, buckets_chat);
        (uploadTripImage, buckets_trips); (uploadBikeImage, buckets_bikes)]).
Proof.
  split.
  - intros Hvideo Hmp4 Hsize. cbv zeta.
    apply bool_decide_eq_true_1 in Hvideo.
    assert (Htype : file_type file = "video/webm" ∨ file_type file = "video/ogg").
    { apply elem_of_cons in Hvideo as [Hv|Hv]; [done|].
      apply elem_of_cons in Hv as [Hv|Hv]; [by left|].
      apply elem_of_cons in Hv as [Hv|Hv]; [by right|].
      by apply not_elem_of_nil in Hv. }
    unfold uploadStoryMedia, uploadChatMedia. split.
    + eapply uploadFile_wrong_type; [reflexivity|cbn; lia|reflexivity|].
      destruct Htype as [-> | ->]; apply (bool_decide_unpack _); vm_compute; exact I.
    + eapply uploadFile_wrong_type; [reflexivity|cbn; lia|reflexivity|].
      destruct Htype as [-> | ->]; apply (bool_decide_unpack _); vm_compute; exact I.
  - intros Himage Hsize. apply bool_decide_eq_true_1 in Himage.
    assert (Htype : file_type file = "image/jpeg" ∨ file_type file = "image/png"
                    ∨ file_type file = "image/webp").
    { apply elem_of_cons in Himage as [Hi|Hi]; [by left|].
      apply elem_of_cons in Hi as [Hi|Hi]; [by right; left|].
      apply elem_of_cons in Hi as [Hi|Hi]; [by right; right|].
      by apply not_elem_of_nil in Hi. }
    repeat (apply Forall_cons; split); [..|apply Forall_nil]; cbn [fst snd];
      eexists;
      (eapply uploadFile_first_request;
       [intros m [= <-]; right; cbn; lia
       |intros types [= <-];
        destruct Htype as [Ht|[Ht|Ht]]; rewrite Ht;
        apply (bool_decide_unpack _); vm_compute; exact I]).
Qed.

Lemma valid_types_and_wrappers_witness :
  isValidVideo short_clip = true
  ∧ uploadStoryMedia (B := plain_backend) short_clip "alice" alice_alone
    = (inr {| url := ""; path := "";
              error := Some "File type video/webm is not allowed" |},
       alice_alone).
Proof.
  destruct (valid_types_and_wrappers (B := plain_backend) short_clip "alice" alice_alone)
    as [Hvideo _].
  split; [reflexivity|].
  destruct Hvideo as [Hstory _]; [reflexivity|discriminate|vm_compute; discriminate|].
  exact Hstory.
Defined.

(** ** The trip chat ([sendTripMessage]) *)

Lemma canSendMessage_reliable {B : Backend} {RR : ReliableReads B} tripId user w :
  canSendMessage tripId user w
  = (inr (match single (participations_in sendTripMessage_statuses tripId user (tables w))
          with inr _ => true | inl _ => false end
          || match single (trips_by_id tripId (tables w)) with
             | inr trip => String.eqb (organizer_id trip) user
             | inl _ => false
             end),
     log (Select "group_trips") (log (Select "trip_participants") w)).
Proof.
  unfold canSendMessage.
  erewrite bind_value by apply select_single_reliable. cbv beta iota.
  erewrite bind_value by apply select_single_reliable. reflexivity.
Qed.

(** X25. Who may write to the trip chat, when the backend answers the
    reads and admits the insert, for a message of ASCII characters. A
    signed-in caller who has exactly one record on the trip with one of the
    five labels, or who is the organizer of the trip, sends: the call
    returns the message with the text trimmed, and exactly that message is
    appended to the chat table. A caller who is not the organizer and has no
    such record, or more than one, is refused with "You must be a
    participant or organizer to send messages", and no table is written. *)
Theorem sendTripMessage_permission {B : Backend} {RR : ReliableReads B}
    (tripId msg : string) (w : World) (user : string) :
  session w = Some user →
  ascii_text msg = true →
  (∀ tb, fault tb (Insert "trip_chat_messages") = None) →
  let records := participations_in sendTripMessage_statuses tripId user (tables w) in
  let organizes :=
    ∃ trip, trips_by_id tripId (tables w) = [trip] ∧ organizer_id trip = user in
  let after := sendTripMessage tripId msg w in
  let row := {| cm_trip_id := tripId; cm_sender_id := user; cm_message := trim msg |} in
  (length records = 1%nat ∨ organizes →
   after.1 = inr row
   ∧ trip_chat_messages (tables after.2) = trip_chat_messages (tables w) ++ [row]
   ∧ trip_participants (tables after.2) = trip_participants (tables w))
  ∧ (length records ≠ 1%nat → ¬ organizes →
     after.1 = inl NotParticipant ∧ tables after.2 = tables w).
Proof.
  intros Hs Hascii Hinsert. cbv zeta. unfold sendTripMessage.
  erewrite bind_value by apply getUser_reliable. rewrite Hs. cbv beta iota.
  erewrite bind_value by apply canSendMessage_reliable. cbv beta iota.
  change (tables (log AuthGetUser w)) with (tables w).
  split.
  - intros Hallowed.
    assert (Hyes : match single (participations_in sendTripMessage_statuses tripId user
                                   (tables w))
                   with inr _ => true | inl _ => false end
                   || match single (trips_by_id tripId (tables w)) with
                      | inr trip => String.eqb (organizer_id trip) user
                      | inl _ => false
                      end = true).
    { destruct Hallowed as [Hone|(trip & Htrip & Horg)].
      - destruct (participations_in _ _ _ _) as [|p [|q l]]; cbn in Hone; try lia. done.
      - rewrite Htrip. cbn [single]. rewrite (proj2 (String_eqb_true _ _) Horg).
        apply orb_true_r. }
    rewrite Hyes. cbn [negb].
    erewrite bind_value by (apply request_admitted; apply Hinsert).
    cbn [fst snd tables log with_tables mret client_ret trip_chat_messages
         set_trip_chat_messages trip_participants].
    done.
  - intros Hrecords Hnot.
    assert (Hno : match single (participations_in sendTripMessage_statuses tripId user
                                  (tables w))
                  with inr _ => true | inl _ => false end
                  || match single (trips_by_id tripId (tables w)) with
                     | inr trip => String.eqb (organizer_id trip) user
                     | inl _ => false
                     end = false).
    { apply orb_false_iff. split.
      - destruct (participations_in _ _ _ _) as [|p [|q l]]; cbn in Hrecords |- *;
          try done.
      - destruct (trips_by_id tripId (tables w)) as [|trip [|trip' l]] eqn:Htrips;
          cbn [single]; try done.
        apply String_eqb_false. intros Horg. apply Hnot. by exists trip. }
    rewrite Hno. cbn [negb]. done.
Qed.

Lemma sendTripMessage_permission_witness :
  (sendTripMessage (B := plain_backend) "ride-1" "  See you at 8  " alice_at_her_ride).1
  = inr {| cm_trip_id := "ride-1"; cm_sender_id := "alice";
           cm_message := "See you at 8" |}
  ∧ (sendTripMessage (B := plain_backend) "ride-1" "hello" bob_enrolled_twice).1
    = inl NotParticipant.
Proof.
  destruct (sendTripMessage_permission (B := plain_backend) "ride-1" "  See you at 8  "
              alice_at_her_ride "alice" eq_refl eq_refl (λ _, eq_refl)) as [Hsent _].
  destruct (sendTripMessage_permission (B := plain_backend) "ride-1" "hello"
              bob_enrolled_twice "bob" eq_refl eq_refl (λ _, eq_refl)) as [_ Hrefused].
  split.
  - destruct Hsent as (Hret & _); [left; reflexivity|]. exact Hret.
  - destruct Hrefused as (Hret & _).
    + vm_compute. discriminate.
    + intros (trip & Htrip & Horg). vm_compute in Htrip.
      injection Htrip as <-. discriminate.
    + exact Hret.
Defined.

(** ** Utilities *)

Lemma floor_bounds (x k : Z) : 0 < k → k * (x `div` k) ≤ x < k * (x `div` k + 1).
Proof.
  intros Hk. pose proof (Z.div_mod x k). pose proof (Z.mod_pos_bound x k Hk). lia.
Qed.

(** X26. [formatTimeAgo] for a valid date. If the date is not after the
    clock, the text is a number followed by one of "s ago", "m ago",
    "h ago", "d ago"; the number is the elapsed time in that unit, rounded
    down; seconds are used below one minute, minutes below one hour, hours
    below one day, and days from then on, so the number is below 60, 60 and
    24 for the first three units and at least 1 for the last three. If the
    date is after the clock, the text is a negative number of seconds,
    however far ahead the date is. *)
Theorem formatTimeAgo_units (now date : Z) :
  (date ≤ now →
   ∃ n unit_ms suffix,
     formatTimeAgo now (Some date) = pretty n +:+ suffix
     ∧ unit_ms * n ≤ now - date < unit_ms * (n + 1)
     ∧ ((unit_ms = 1000 ∧ suffix = "s ago" ∧ 0 ≤ n < 60)
        ∨ (unit_ms = 60000 ∧ suffix = "m ago" ∧ 1 ≤ n < 60)
        ∨ (unit_ms = 3600000 ∧ suffix = "h ago" ∧ 1 ≤ n < 24)
        ∨ (unit_ms = 86400000 ∧ suffix = "d ago" ∧ 1 ≤ n)))
  ∧ (now < date →
     ∃ n, formatTimeAgo now (Some date) = pretty n +:+ "s ago" ∧ n < 0).
Proof.
  unfold formatTimeAgo. cbv zeta.
  set (elapsed := now - date). set (s := elapsed `div` 1000).
  pose proof (floor_bounds elapsed 1000 ltac:(lia)) as Hs. fold s in Hs.
  split.
  - intros Hpast. assert (0 ≤ elapsed) by (unfold elapsed; lia).
    destruct (s <? 60) eqn:H60.
    { apply Z.ltb_lt in H60. exists s, 1000, "s ago". split; [done|]. split; [lia|].
      left. repeat split; lia. }
    apply Z.ltb_ge in H60.
    destruct (s <? 3600) eqn:H3600.
    { apply Z.ltb_lt in H3600.
      pose proof (floor_bounds s 60 ltac:(lia)).
      exists (s `div` 60), 60000, "m ago". split; [done|]. split; [lia|].
      right; left. repeat split; lia. }
    apply Z.ltb_ge in H3600.
    destruct (s <? 86400) eqn:H86400.
    { apply Z.ltb_lt in H86400.
      pose proof (floor_bounds s 3600 ltac:(lia)).
      exists (s `div` 3600), 3600000, "h ago". split; [done|]. split; [lia|].
      right; right; left. repeat split; lia. }
    apply Z.ltb_ge in H86400.
    pose proof (floor_bounds s 86400 ltac:(lia)).
    exists (s `div` 86400), 86400000, "d ago". split; [done|]. split; [lia|].
    right; right; right. repeat split; lia.
  - intros Hfuture. assert (elapsed < 0) by (unfold elapsed; lia).
    assert (Hneg : s < 0) by lia.
    rewrite (proj2 (Z.ltb_lt s 60)) by lia. by exists s.
Qed.

Lemma formatTimeAgo_units_witness :
  formatTimeAgo 1700000000000 (Some 1699999820000) = "3m ago"
  ∧ formatTimeAgo 1700000000000 (Some 1700086400000) = "-86400s ago".
Proof.
  destruct (formatTimeAgo_units 1700000000000 1699999820000) as [Hpast _].
  destruct (formatTimeAgo_units 1700000000000 1700086400000) as [_ Hfuture].
  destruct Hpast as (n & unit_ms & suffix & Htext & _); [lia|].
  destruct Hfuture as (m & Htext' & _); [lia|].
  split; vm_compute; reflexivity.
Defined.

(** ** The list of joined trips ([getUserJoinedTrips]) *)

Lemma getUserJoinedTrips_reliable {B : Backend} {RR : ReliableReads B} userId w :
  let tripIds :=
    tp_trip_id <$> user_participations_in getUserJoinedTrips_statuses userId (tables w) in
  ∃ trips,
    (getUserJoinedTrips userId w).1 = inr trips
    ∧ jt_trip <$> trips = trips_in tripIds (tables w)
    ∧ Forall (λ jt,
                jt_organizer jt
                = from_option profile_view (anonymous_organizer (organizer_id (jt_trip jt)))
                    (find_profile (organizer_id (jt_trip jt)) (user_profiles (tables w))))
             trips
    ∧ tables (getUserJoinedTrips userId w).2 = tables w.
Proof.
  cbv zeta. unfold getUserJoinedTrips.
  erewrite bind_value by apply select_rows_reliable. cbn [tables log].
  destruct (user_participations_in _ userId (tables w)) as [|p ps] eqn:Hps.
  { exists []. split; [done|]. split; [|split; [constructor|done]].
    unfold trips_in. cbn [fmap list_fmap].
    symmetry. induction (group_trips (tables w)) as [|t l IH]; [done|].
    rewrite filter_cons. rewrite decide_False; [exact IH|]. apply not_elem_of_nil. }
  erewrite bind_value by apply select_rows_reliable. cbn [tables log].
  erewrite bind_value by apply select_rows_reliable. cbn [tables log].
  eexists. split; [reflexivity|]. split; [|split; [|done]].
  - rewrite <- list_fmap_compose. apply list_fmap_id.
  - apply Forall_fmap, Forall_forall. intros trip Htrip. unfold compose.
    cbn [jt_organizer jt_trip]. f_equal.
    apply find_profile_among. apply list_elem_of_fmap. by exists trip.
Qed.

(** X27. When the backend answers the reads, [getUserJoinedTrips] returns
    a stored trip exactly when the user has a record on it whose status is
    one of the five labels; a record with another status does not list the
    trip, and organizing a trip does not either. The trips come in table
    order, each at most as often as it is stored, however many records the
    user has on it; each carries a stored profile of its organizer, or the
    placeholder when there is none; no table is written. *)
Theorem getUserJoinedTrips_lists {B : Backend} {RR : ReliableReads B}
    (userId : string) (w : World) :
  ∃ trips,
    (getUserJoinedTrips userId w).1 = inr trips
    ∧ (∀ trip,
         trip ∈ jt_trip <$> trips
         ↔ trip ∈ group_trips (tables w)
           ∧ ∃ p, p ∈ trip_participants (tables w)
                  ∧ tp_user_id p = userId
                  ∧ tp_trip_id p = trip_id trip
                  ∧ tp_status p ∈ getUserJoinedTrips_statuses)
    ∧ jt_trip <$> trips `sublist_of` group_trips (tables w)
    ∧ Forall (λ jt,
                jt_organizer jt
                = from_option profile_view (anonymous_organizer (organizer_id (jt_trip jt)))
                    (find_profile (organizer_id (jt_trip jt)) (user_profiles (tables w))))
             trips
    ∧ tables (getUserJoinedTrips userId w).2 = tables w.
Proof.
  destruct (getUserJoinedTrips_reliable userId w) as (trips & Hret & Htrips & Horg & Hframe).
  exists trips. split; [exact Hret|]. rewrite Htrips.
  split; [|split; [apply sublist_filter|by split]].
  intros trip. unfold trips_in, user_participations_in.
  rewrite list_elem_of_filter, list_elem_of_fmap. split.
  - intros [(p & Hid & Hp) Hin]. split; [done|].
    apply list_elem_of_filter in Hp as [[Hu Hst] Hp]. by exists p.
  - intros [Hin (p & Hp & Hu & Hid & Hst)]. split; [|done].
    exists p. split; [done|]. by apply list_elem_of_filter.
Qed.

Lemma getUserJoinedTrips_lists_witness :
  ∃ trips,
    (getUserJoinedTrips (B := plain_backend) "bob" bob_enrolled_twice).1 = inr trips
    ∧ length trips = 1%nat.
Proof.
  destruct (getUserJoinedTrips_lists (B := plain_backend) "bob" bob_enrolled_twice)
    as (trips & Hret & _ & Hsub & _).
  exists trips. split; [exact Hret|].
  assert (Htrips : inr trips
                   = (getUserJoinedTrips (B := plain_backend) "bob" bob_enrolled_twice).1)
    by (by rewrite Hret).
  vm_compute in Htrips. by injection Htrips as ->.
Defined.

(** ** Creating a trip when an insert is refused *)

(** X28. [createTrip] for a signed-in caller whose session lookup is
    answered. If the backend refuses the insert of the trip, the call
    throws that error, no table is written and no enrolment is attempted.
    If the trip is inserted but the enrolment of the organizer is refused,
    the call still returns the trip: the trip is stored and the roster is
    the one from before, so the organizer has no record on the new trip. *)
Theorem createTrip_refused_inserts {B : Backend} (tripData : TripData) (w : World)
    (user : string) (e : PostgrestError) :
  session w = Some user →
  fault (tables w) AuthGetUser = None →
  let data := new_trip (tables w) (trip_payload user tripData) in
  let stored := set_group_trips (λ l, l ++ [data]) (tables w) in
  let after := createTrip tripData w in
  (fault (tables w) (Insert "group_trips") = Some e →
   after.1 = inl (PgError e)
   ∧ tables after.2 = tables w
   ∧ trace after.2 = trace w ++ [AuthGetUser; Insert "group_trips"])
  ∧ (fault (tables w) (Insert "group_trips") = None →
     fault stored (InsertParticipant (organizer_enrolment data user)) = Some e →
     after.1 = inr data
     ∧ group_trips (tables after.2) = group_trips (tables w) ++ [data]
     ∧ trip_participants (tables after.2) = trip_participants (tables w)).
Proof.
  intros Hs Hauth. cbv zeta. unfold createTrip.
  assert (Huser : getUser w = (inr (Some user), log AuthGetUser w)).
  { unfold getUser. by rewrite Hauth, Hs. }
  erewrite bind_value by exact Huser. cbv beta iota. unfold insert_trip.
  split.
  - intros Htrip.
    erewrite bind_value by (apply request_refused; exact Htrip).
    unfold throw, log. cbn [fst snd tables trace]. by rewrite <- app_assoc.
  - intros Htrip Henrol.
    erewrite bind_value by (apply request_admitted; exact Htrip).
    cbn [fst snd tables log]. unfold insert_participant.
    erewrite bind_value by (apply request_refused; exact Henrol).
    done.
Qed.

Lemma createTrip_refused_inserts_witness :
  ∃ data,
    (createTrip (B := refusing is_participant_insert) coast_road alice_alone).1 = inr data
    ∧ trip_participants
        (tables (createTrip (B := refusing is_participant_insert) coast_road
                   alice_alone).2) = [].
Proof.
  destruct (createTrip_refused_inserts (B := refusing is_participant_insert) coast_road
              alice_alone "alice" network_failure eq_refl eq_refl) as [_ Henrol].
  destruct (Henrol eq_refl eq_refl) as (Hret & _ & Hroster).
  eexists. split; [exact Hret|exact Hroster].
Defined.

(** ** Posts and profile of one user *)

Lemma StronglySorted_filter {A} (R : relation A) (P : A → Prop) `{∀ x, Decision (P x)}
    (l : list A) :
  StronglySorted R l → StronglySorted R (filter P l).
Proof.
  induction 1 as [|x l Hl IH Hx]; [constructor|].
  rewrite filter_cons. destruct (decide (P x)); [|exact IH].
  constructor; [exact IH|].
  apply Forall_forall. intros y Hy. apply list_elem_of_filter in Hy as [_ Hy].
  rewrite Forall_forall in Hx. by apply Hx.
Qed.

(** X29. [getUserPosts], when the backend answers the read. The posts
    returned are exactly the stored posts of the user, restricted to the
    public ones when the flag is set and including the private ones when it
    is not; no post of the list is newer than a post before it; nothing is
    written. Every post of the user that [getGlobalFeed] shows is among the
    posts [getUserPosts] returns with the flag set. *)
Theorem getUserPosts_own_posts {B : Backend} {RR : ReliableReads B}
    (userId : string) (isPublic : bool) (w : World) :
  ∃ posts,
    getUserPosts userId isPublic w = (inr posts, log (Select "user_posts") w)
    ∧ (∀ p, p ∈ posts
            ↔ p ∈ user_posts (tables w) ∧ post_user_id p = userId
              ∧ (isPublic = true → is_public p = true))
    ∧ StronglySorted not_older posts
    ∧ (isPublic = true →
       ∀ limit offset feed item,
         (getGlobalFeed limit offset w).1 = inr feed →
         item ∈ feed → post_user_id (fp_post item) = userId →
         fp_post item ∈ posts).
Proof.
  unfold getUserPosts.
  erewrite bind_value by apply select_rows_reliable. cbv beta iota.
  eexists. split; [reflexivity|].
  assert (Hmem : ∀ p, p ∈ posts_of userId isPublic (tables w)
                      ↔ p ∈ user_posts (tables w) ∧ post_user_id p = userId
                        ∧ (isPublic = true → is_public p = true)).
  { intros p. unfold posts_of, newest_first. destruct isPublic.
    - rewrite list_elem_of_filter, merge_sort_Permutation, list_elem_of_filter. tauto.
    - rewrite merge_sort_Permutation, list_elem_of_filter.
      split; [intros [? ?]; by repeat split|tauto]. }
  split; [exact Hmem|]. split.
  - unfold posts_of, newest_first. destruct isPublic.
    + apply StronglySorted_filter, StronglySorted_merge_sort; apply _.
    + apply StronglySorted_merge_sort; apply _.
  - intros -> limit offset feed item Hfeed Hitem Hauthor.
    rewrite getGlobalFeed_reliable in Hfeed. injection Hfeed as <-.
    apply list_elem_of_fmap in Hitem as (post & -> & Hpost).
    cbn [feed_item fp_post] in *.
    pose proof (public_posts_page_public limit offset (tables w)) as Hpub.
    rewrite Forall_forall in Hpub. destruct (Hpub post Hpost) as [Hflag Hstored].
    apply Hmem. by repeat split.
Qed.

Lemma getUserPosts_own_posts_witness :
  (getUserPosts (B := plain_backend) "alice" false three_posts).1
  = inr [post_of "post-2" "alice" false 200; post_of "post-1" "alice" true 100].
Proof.
  destruct (getUserPosts_own_posts (B := plain_backend) "alice" false three_posts)
    as (posts & Hret & _).
  rewrite Hret. cbn [fst].
  assert (Hposts : (inr posts, log (Select "user_posts") three_posts)
                   = getUserPosts (B := plain_backend) "alice" false three_posts)
    by (by rewrite Hret).
  vm_compute in Hposts. by injection Hposts as ->.
Defined.

Lemma find_only_profile userId (profiles : list UserProfile) p :
  filter (λ q, profile_user_id q = userId) profiles = [p] →
  find_profile userId profiles = Some p.
Proof.
  induction profiles as [|q l IH]; [done|].
  rewrite filter_cons, find_profile_cons.
  destruct (decide (profile_user_id q = userId)); [by intros [= ->]|exact IH].
Qed.

(** X30. [getUserProfile], when the backend answers the read: it returns
    a profile exactly when the user has one stored profile, and [null] when
    the user has none or more than one; nothing is written. The profile it
    returns is the one [getGlobalFeed] attaches to every post of that
    user. *)
Theorem getUserProfile_single {B : Backend} {RR : ReliableReads B}
    (userId : string) (w : World) :
  ∃ res,
    getUserProfile userId w = (inr res, log (Select "user_profiles") w)
    ∧ (∀ p, res = Some p ↔ profiles_by_user userId (tables w) = [p])
    ∧ ∀ p limit offset feed item,
        res = Some p →
        (getGlobalFeed limit offset w).1 = inr feed →
        item ∈ feed → post_user_id (fp_post item) = userId →
        fp_user_profiles item = profile_view p.
Proof.
  unfold getUserProfile.
  erewrite bind_value by apply select_single_reliable. cbv beta iota.
  assert (Hfeed : ∀ p limit offset feed item,
            profiles_by_user userId (tables w) = [p] →
            (getGlobalFeed limit offset w).1 = inr feed →
            item ∈ feed → post_user_id (fp_post item) = userId →
            fp_user_profiles item = profile_view p).
  { intros p limit offset feed item Hone Hfeed Hitem Hauthor.
    rewrite getGlobalFeed_reliable in Hfeed. injection Hfeed as <-.
    apply list_elem_of_fmap in Hitem as (post & -> & Hpost).
    cbn [feed_item fp_post fp_user_profiles] in *.
    by rewrite Hauthor, (find_only_profile userId _ p Hone). }
  destruct (profiles_by_user userId (tables w)) as [|p [|q l]] eqn:Hprofiles;
    cbn [single code PGRST116 String.eqb Ascii.eqb Bool.eqb].
  - exists None. split; [done|]. split; [by intros p; split|done].
  - exists (Some p). split; [done|]. split.
    + intros p'. split; [by intros [= ->]|by intros [= ->]].
    + intros p' limit offset feed item [= <-]. by apply Hfeed.
  - exists None. split; [done|]. split; [by intros p'; split|done].
Qed.

Lemma getUserProfile_single_witness :
  (getUserProfile (B := plain_backend) "alice" three_posts).1 = inr (Some alices_profile)
  ∧ (getUserProfile (B := plain_backend) "dave" three_posts).1 = inr None.
Proof.
  destruct (getUserProfile_single (B := plain_backend) "alice" three_posts)
    as (res & Hret & Hone & _).
  destruct (getUserProfile_single (B := plain_backend) "dave" three_posts)
    as (res' & Hret' & Hone' & _).
  rewrite Hret, Hret'. cbn [fst]. split.
  - f_equal. by apply Hone.
  - destruct res' as [p|]; [|done]. by pose proof (proj1 (Hone' p) eq_refl).
Defined.
